(** * gemini-mcp: the storage layer and the input-path resolver

    A shallow embedding of [internal/storage] (local.go, s3.go, storage.go,
    factory.go), of the configuration ([common], config.go), of the
    authentication middleware ([middleware], auth.go) and, from main.go, of
    [Server.resolveInputPath], [Server.handleUploadMedia] and the choice of
    the HTTP handler, together with models of the Go standard-library and
    object-store calls they make, followed by the properties of the storage
    contract and of the code around it. *)

From Stdlib Require Import ZArith Lia List Ascii String Strings.Byte Bool.
From stdpp Require Import base option list strings gmap relations.

Local Open Scope string_scope.

(** ** Go byte strings

    A Go [string] is a sequence of bytes; [String.string] is a sequence of
    8-bit [ascii] characters.  A [[]byte] is a [list byte]. *)

Definition bytes := list byte.

Definition byte_to_Z (b : byte) : Z := Z.of_N (Byte.to_N b).

Definition byte_of_Z (z : Z) : byte :=
  default x00 (Byte.of_N (Z.to_N (Z.land z 255))).

Definition bytes_of_string (s : string) : bytes :=
  List.map byte_of_ascii (list_ascii_of_string s).

(** [strings.HasPrefix] is [String.prefix]; [s[:n]] for [n <= len(s)] is
    [String.substring 0 n s] (Go panics when [n > len(s)]). *)
Definition HasPrefix (s p : string) : bool := String.prefix p s.

Definition slice_to (s : string) (n : nat) : string := String.substring 0 n s.

(** ** encoding/hex *)
Module hex.

(** [hextable = "0123456789abcdef"] *)
Definition hextable (n : Z) : ascii :=
  match n with
  | 0 => "0" | 1 => "1" | 2 => "2" | 3 => "3" | 4 => "4" | 5 => "5"
  | 6 => "6" | 7 => "7" | 8 => "8" | 9 => "9" | 10 => "a" | 11 => "b"
  | 12 => "c" | 13 => "d" | 14 => "e" | _ => "f"
  end%Z%char.

(** [dst[j] = hextable[v>>4]; dst[j+1] = hextable[v&0x0f]] *)
Fixpoint EncodeToString (src : bytes) : string :=
  match src with
  | [] => EmptyString
  | v :: rest =>
      String (hextable (Z.shiftr (byte_to_Z v) 4))
        (String (hextable (Z.land (byte_to_Z v) 15)) (EncodeToString rest))
  end.

End hex.

(** ** crypto/sha256

    [Sum256] follows FIPS 180-4: 32-bit words are [Z] values reduced modulo
    [2^32] after every addition. *)
Module sha256.
Local Open Scope Z_scope.

Definition wrap32 (x : Z) : Z := Z.land x 4294967295.
Definition add32 (x y : Z) : Z := wrap32 (x + y).
Definition rotr (n x : Z) : Z :=
  Z.lor (Z.shiftr x n) (wrap32 (Z.shiftl x (32 - n))).
Definition not32 (x : Z) : Z := Z.lxor x 4294967295.

Definition Ch (x y z : Z) : Z := Z.lxor (Z.land x y) (Z.land (not32 x) z).
Definition Maj (x y z : Z) : Z :=
  Z.lxor (Z.lxor (Z.land x y) (Z.land x z)) (Z.land y z).
Definition Sigma0 (x : Z) : Z := Z.lxor (Z.lxor (rotr 2 x) (rotr 13 x)) (rotr 22 x).
Definition Sigma1 (x : Z) : Z := Z.lxor (Z.lxor (rotr 6 x) (rotr 11 x)) (rotr 25 x).
Definition sigma0 (x : Z) : Z := Z.lxor (Z.lxor (rotr 7 x) (rotr 18 x)) (Z.shiftr x 3).
Definition sigma1 (x : Z) : Z := Z.lxor (Z.lxor (rotr 17 x) (rotr 19 x)) (Z.shiftr x 10).

Definition K : list Z :=
  [ 1116352408; 1899447441; 3049323471; 3921009573; 961987163; 1508970993;
    2453635748; 2870763221; 3624381080; 310598401; 607225278; 1426881987;
    1925078388; 2162078206; 2614888103; 3248222580; 3835390401; 4022224774;
    264347078; 604807628; 770255983; 1249150122; 1555081692; 1996064986;
    2554220882; 2821834349; 2952996808; 3210313671; 3336571891; 3584528711;
    113926993; 338241895; 666307205; 773529912; 1294757372; 1396182291;
    1695183700; 1986661051; 2177026350; 2456956037; 2730485921; 2820302411;
    3259730800; 3345764771; 3516065817; 3600352804; 4094571909; 275423344;
    430227734; 506948616; 659060556; 883997877; 958139571; 1322822218;
    1537002063; 1747873779; 1955562222; 2024104815; 2227730452; 2361852424;
    2428436474; 2756734187; 3204031479; 3329325298 ].

(** The eight working variables / the intermediate hash value. *)
Record state := State {
  ha : Z; hb : Z; hc : Z; hd : Z; he : Z; hf : Z; hg : Z; hh : Z }.

Definition init : state :=
  State 1779033703 3144134277 1013904242 2773480762
        1359893119 2600822924 528734635 1541459225.

(** Padding: a [128] byte, zeros up to 56 modulo 64, then the bit length
    as a big-endian 64-bit integer. *)
Definition be_bytes (n : nat) (x : Z) : list Z :=
  List.map (fun i => Z.land (Z.shiftr x (8 * Z.of_nat i)) 255) (rev (seq 0 n)).

Definition pad (msg : list Z) : list Z :=
  let len := Z.of_nat (length msg) in
  let zeros := Z.to_nat ((55 - len) mod 64) in
  msg ++ [128] ++ repeat 0 zeros ++ be_bytes 8 (Z.land (8 * len) (2 ^ 64 - 1)).

Fixpoint be_words (fuel : nat) (l : list Z) : list Z :=
  match fuel, l with
  | S f, b0 :: b1 :: b2 :: b3 :: rest =>
      (Z.shiftl b0 24 + Z.shiftl b1 16 + Z.shiftl b2 8 + b3) :: be_words f rest
  | _, _ => []
  end.

(** The message schedule, most recent word first:
    [W_t = sigma1 W_(t-2) + W_(t-7) + sigma0 W_(t-15) + W_(t-16)]. *)
Fixpoint schedule (n : nat) (rw : list Z) : list Z :=
  match n with
  | O => rw
  | S n' =>
      let w := add32 (add32 (sigma1 (nth 1 rw 0)) (nth 6 rw 0))
                     (add32 (sigma0 (nth 14 rw 0)) (nth 15 rw 0)) in
      schedule n' (w :: rw)
  end.

Definition round (s : state) (kw : Z * Z) : state :=
  let t1 := add32 (add32 (add32 (hh s) (Sigma1 (he s)))
                         (add32 (Ch (he s) (hf s) (hg s)) (fst kw))) (snd kw) in
  let t2 := add32 (Sigma0 (ha s)) (Maj (ha s) (hb s) (hc s)) in
  State (add32 t1 t2) (ha s) (hb s) (hc s) (add32 (hd s) t1) (he s) (hf s) (hg s).

Definition block (s : state) (blk : list Z) : state :=
  let w := rev (schedule 48 (rev (be_words 16 blk))) in
  let r := fold_left round (combine K w) s in
  State (add32 (ha s) (ha r)) (add32 (hb s) (hb r)) (add32 (hc s) (hc r))
        (add32 (hd s) (hd r)) (add32 (he s) (he r)) (add32 (hf s) (hf r))
        (add32 (hg s) (hg r)) (add32 (hh s) (hh r)).

Fixpoint blocks (fuel : nat) (s : state) (l : list Z) : state :=
  match fuel, l with
  | S f, _ :: _ => blocks f (block s (firstn 64 l)) (skipn 64 l)
  | _, _ => s
  end.

Definition digest (s : state) : list Z :=
  be_bytes 4 (ha s) ++ be_bytes 4 (hb s) ++ be_bytes 4 (hc s) ++ be_bytes 4 (hd s) ++
  be_bytes 4 (he s) ++ be_bytes 4 (hf s) ++ be_bytes 4 (hg s) ++ be_bytes 4 (hh s).

(** [func Sum256(data []byte) [Size]byte] *)
Definition Sum256 (data : bytes) : bytes :=
  let m := pad (List.map byte_to_Z data) in
  List.map byte_of_Z (digest (blocks (length m) init m)).

End sha256.


(** ** strings *)
Module strings.

(** [strings.Index(s, string(c))] for a one-byte separator. *)
Fixpoint IndexByte (s : string) (c : ascii) : option nat :=
  match s with
  | EmptyString => None
  | String a rest =>
      if Ascii.eqb a c then Some O else S <$> IndexByte rest c
  end.

Definition Contains (s : string) (c : ascii) : bool :=
  bool_decide (is_Some (IndexByte s c)).

Fixpoint Count (s : string) (c : ascii) : nat :=
  match s with
  | EmptyString => O
  | String a rest => (if Ascii.eqb a c then 1 else 0) + Count rest c
  end.

(** [before, after, found := strings.Cut(s, string(c))] *)
Fixpoint Cut (s : string) (c : ascii) : string * string * bool :=
  match s with
  | EmptyString => (EmptyString, EmptyString, false)
  | String a rest =>
      if Ascii.eqb a c then (EmptyString, rest, true)
      else let '(b, r, f) := Cut rest c in (String a b, r, f)
  end.

(** [strings.Split(s, string(c))]: always at least one element. *)
Fixpoint Split (s : string) (c : ascii) : list string :=
  match s with
  | EmptyString => [EmptyString]
  | String a rest =>
      if Ascii.eqb a c then EmptyString :: Split rest c
      else match Split rest c with
           | x :: xs => String a x :: xs
           | [] => [String a EmptyString]
           end
  end.

(** [strings.Join(elems, sep)] *)
Fixpoint Join (elems : list string) (sep : string) : string :=
  match elems with
  | [] => EmptyString
  | [x] => x
  | x :: rest => x ++ sep ++ Join rest sep
  end.

Definition HasSuffix (s suf : string) : bool :=
  let n := String.length s in
  let k := String.length suf in
  (k <=? n)%nat && String.eqb (String.substring (n - k) k s) suf.

Definition lower_ascii (a : ascii) : ascii :=
  let n := nat_of_ascii a in
  if ((65 <=? n) && (n <=? 90))%nat then ascii_of_nat (n + 32) else a.

(** [strings.ToLower], on the ASCII range. *)
Fixpoint ToLower (s : string) : string :=
  match s with
  | EmptyString => EmptyString
  | String a rest => String (lower_ascii a) (ToLower rest)
  end.

(** [asciiSpace]: tab, line feed, vertical tab, form feed, carriage return
    and space. *)
Definition asciiSpace (c : ascii) : bool :=
  let n := nat_of_ascii c in ((9 <=? n) && (n <=? 13) || (n =? 32))%nat.

(** [unicode.IsSpace] on a rune of two bytes in UTF-8: U+0085 and U+00A0. *)
Definition space2 (a b : ascii) : bool :=
  let '(a, b) := (nat_of_ascii a, nat_of_ascii b) in
  ((a =? 194) && ((b =? 133) || (b =? 160)))%nat.

(** [unicode.IsSpace] on a rune of three bytes in UTF-8: U+1680,
    U+2000 to U+200A, U+2028, U+2029, U+202F, U+205F and U+3000. *)
Definition space3 (a b c : ascii) : bool :=
  let '(a, b, c) := (nat_of_ascii a, nat_of_ascii b, nat_of_ascii c) in
  ((a =? 225) && (b =? 154) && (c =? 128)
   || (a =? 226) && (b =? 128)
      && ((128 <=? c) && (c <=? 138) || (c =? 168) || (c =? 169) || (c =? 175))
   || (a =? 226) && (b =? 129) && (c =? 159)
   || (a =? 227) && (b =? 128) && (c =? 128))%nat.

(** Dropping the leading runes that are white space, a rune being one byte
    accepted by [asciiSpace], two bytes accepted by [two] or three bytes
    accepted by [three]. *)
Fixpoint trim_runes (two : ascii -> ascii -> bool)
    (three : ascii -> ascii -> ascii -> bool) (l : list ascii) : list ascii :=
  match l with
  | [] => []
  | a :: l1 =>
      if asciiSpace a then trim_runes two three l1
      else match l1 with
           | [] => l
           | b :: l2 =>
               if two a b then trim_runes two three l2
               else match l2 with
                    | [] => l
                    | c :: l3 =>
                        if three a b c then trim_runes two three l3 else l
                    end
           end
  end.

(** [strings.TrimSpace(s)]: [s] without its leading and trailing white
    space, as defined by Unicode.  The trailing runes are read backwards. *)
Definition TrimSpace (s : string) : string :=
  let l := trim_runes space2 space3 (list_ascii_of_string s) in
  string_of_list_ascii
    (rev (trim_runes (fun b a => space2 a b) (fun c b a => space3 a b c) (rev l))).

(** [strings.TrimPrefix(s, prefix)] *)
Definition TrimPrefix (s prefix : string) : string :=
  if HasPrefix s prefix
  then String.substring (String.length prefix) (String.length s - String.length prefix) s
  else s.

End strings.

(** ** path/filepath (Unix) *)
Module filepath.

(** One iteration of the loop of [Clean] over a path element.  [out] is the
    output written so far, as the list of its elements, last one first:
    - an empty element and [.] are skipped;
    - [..] removes the last element when there is one to backtrack over
      ([out.w > dotdot]), is appended when the path is not rooted, and is
      dropped at the root;
    - any other element is appended. *)
Definition clean_elem (rooted : bool) (out : list string) (elem : string)
  : list string :=
  if String.eqb elem "" then out
  else if String.eqb elem "." then out
  else if String.eqb elem ".." then
    match out with
    | top :: out' => if String.eqb top ".." then elem :: out else out'
    | [] => if rooted then [] else [elem]
    end
  else elem :: out.

(** [filepath.Clean]: the shortest path name equivalent to [path] by purely
    lexical processing; the empty result is ["."]. *)
Definition Clean (path : string) : string :=
  let rooted := HasPrefix path "/" in
  let out := fold_left (clean_elem rooted) (strings.Split path "/") [] in
  if rooted then "/" ++ strings.Join (rev out) "/"
  else match out with
       | [] => "."
       | _ => strings.Join (rev out) "/"
       end.

(** [filepath.Join(a, b)]: empty elements are ignored, the rest is joined
    with a separator and cleaned. *)
Definition Join (a b : string) : string :=
  if negb (String.eqb a "") then Clean (a ++ "/" ++ b)
  else if negb (String.eqb b "") then Clean b
  else "".

End filepath.

(** ** Results of fallible calls

    A Go call returning [(T, error)] returns [Ok v] or [Err msg], where [msg]
    is the text of the error. *)
Inductive result (A : Type) : Type :=
| Ok (v : A)
| Err (msg : string).
Arguments Ok {A} v.
Arguments Err {A} msg.

(** ** time

    An instant is the number of nanoseconds since the Unix epoch (the
    location is always UTC here: the code calls [time.Now().UTC()]); a
    [Duration] is an [int64] count of nanoseconds. *)
Module time.
Local Open Scope Z_scope.

Definition Time := Z.
Definition Duration := Z.

Definition Second : Duration := 1000000000.
Definition Minute : Duration := 60 * Second.
Definition Hour : Duration := 60 * Minute.

Definition minDuration : Duration := - 2 ^ 63.
Definition maxDuration : Duration := 2 ^ 63 - 1.

(** [t.Add(d)] *)
Definition Add (t : Time) (d : Duration) : Time := t + d.

(** [t.Sub(u)]: the difference, or the largest (smallest) [Duration] when
    it does not fit. *)
Definition Sub (t u : Time) : Duration :=
  if t - u <? minDuration then minDuration
  else if maxDuration <? t - u then maxDuration
  else t - u.

(** Days since the epoch, and seconds into the day. *)
Definition unix_days (t : Time) : Z := t / (86400 * Second).
Definition day_seconds (t : Time) : Z := (t / Second) mod 86400.

(** The date of day [doe] of a 400-year era that starts on 0000-03-01, the
    year counted within the era. *)
Definition era_date (doe : Z) : Z * Z * Z :=
  let yoe := (doe - doe / 1460 + doe / 36524 - doe / 146096) / 365 in
  let doy := doe - (365 * yoe + yoe / 4 - yoe / 100) in
  let mp := (5 * doy + 2) / 153 in
  let d := doy - (153 * mp + 2) / 5 + 1 in
  let m := if mp <? 10 then mp + 3 else mp - 9 in
  (if m <=? 2 then yoe + 1 else yoe, m, d).

(** The proleptic Gregorian date of the day [z] days after 1970-01-01. *)
Definition civil (z : Z) : Z * Z * Z :=
  let z := z + 719468 in
  let era := z / 146097 in
  let '(y, m, d) := era_date (z - era * 146097) in
  (y + era * 400, m, d).

(** [year, month, day := t.Date()] *)
Definition Date (t : Time) : Z * Z * Z := civil (unix_days t).

Definition digit (n : Z) : ascii :=
  ascii_of_nat (48 + Z.to_nat (n mod 10)).

Fixpoint utoa (fuel : nat) (u : Z) (acc : string) : string :=
  let acc' := String (digit u) acc in
  match fuel with
  | O => acc'
  | S f => if u <? 10 then acc' else utoa f (u / 10) acc'
  end.

Fixpoint zeros (n : nat) : string :=
  match n with O => EmptyString | S n' => String "0" (zeros n') end.

(** [appendInt(b, x, width)]: a minus sign for a negative [x], then the
    decimal digits of the magnitude, zero-padded to [width]. *)
Definition appendInt (x : Z) (width : nat) : string :=
  let u := Z.abs x in
  let ds := utoa (Z.to_nat (Z.log2 u)) u EmptyString in
  let sign := if x <? 0 then "-"%string else EmptyString in
  (sign ++ zeros (width - String.length ds) ++ ds)%string.

(** [t.Format("2006/01/02")] *)
Definition Format_date (t : Time) : string :=
  let '(y, m, d) := Date t in
  (appendInt y 4 ++ "/" ++ appendInt m 2 ++ "/" ++ appendInt d 2)%string.

(** [t.Format(time.RFC3339)] for a UTC time: [2006-01-02T15:04:05Z]. *)
Definition Format_RFC3339 (t : Time) : string :=
  let '(y, m, d) := Date t in
  let s := day_seconds t in
  (appendInt y 4 ++ "-" ++ appendInt m 2 ++ "-" ++ appendInt d 2 ++ "T" ++
   appendInt (s / 3600) 2 ++ ":" ++ appendInt (s / 60 mod 60) 2 ++ ":" ++
   appendInt (s mod 60) 2 ++ "Z")%string.

(** [t.Format("20060102_150405")], for an instant already shifted to its
    time zone. *)
Definition Format_stamp (t : Time) : string :=
  let '(y, m, d) := Date t in
  let s := day_seconds t in
  (appendInt y 4 ++ appendInt m 2 ++ appendInt d 2 ++ "_" ++
   appendInt (s / 3600) 2 ++ appendInt (s / 60 mod 60) 2 ++
   appendInt (s mod 60) 2)%string.

End time.

(** ** net/url

    [Parse] as far as the fields [parseEndpoint] reads ([Scheme], [Host]),
    the opaque part and the error.  Parsing of the authority (user
    information, host, port) is the parameter [parseAuthority]. *)
Module url.

Record URL := mkURL {
  Scheme : string;
  Opaque : string;
  Host : string }.

(** [strconv.Quote], for a string with no character to escape. *)
Definition Quote (s : string) : string :=
  String (ascii_of_nat 34) (s ++ String (ascii_of_nat 34) EmptyString).

Definition is_alpha (c : ascii) : bool :=
  let n := nat_of_ascii c in
  ((97 <=? n) && (n <=? 122) || (65 <=? n) && (n <=? 90))%nat.

Definition is_digit (c : ascii) : bool :=
  let n := nat_of_ascii c in ((48 <=? n) && (n <=? 57))%nat.

Definition ishex (c : ascii) : bool :=
  let n := nat_of_ascii c in
  (is_digit c || (97 <=? n) && (n <=? 102) || (65 <=? n) && (n <=? 70))%nat.

Definition stringContainsCTLByte (s : string) : bool :=
  existsb (fun c => let n := nat_of_ascii c in ((n <? 32) || (n =? 127))%nat)
          (list_ascii_of_string s).

(** The loop of [getScheme] at index [i], [s] being [rawURL[i:]]. *)
Fixpoint getScheme_at (i : nat) (s rawURL : string) : result (string * string) :=
  match s with
  | EmptyString => Ok (EmptyString, rawURL)
  | String c rest =>
      if is_alpha c then getScheme_at (S i) rest rawURL
      else if is_digit c || Ascii.eqb c "+" || Ascii.eqb c "-" || Ascii.eqb c "." then
        match i with
        | O => Ok (EmptyString, rawURL)
        | _ => getScheme_at (S i) rest rawURL
        end
      else if Ascii.eqb c ":" then
        match i with
        | O => Err "missing protocol scheme"
        | _ => Ok (slice_to rawURL i, rest)
        end
      else Ok (EmptyString, rawURL)
  end.

Definition getScheme (rawURL : string) : result (string * string) :=
  getScheme_at 0 rawURL rawURL.

(** The error of [unescape] (modes [encodePath] and [encodeFragment]): the
    first [%] that is not followed by two hexadecimal digits, with up to two
    characters after it. *)
Fixpoint badEscape (s : string) : option string :=
  match s with
  | EmptyString => None
  | String c rest =>
      if Ascii.eqb c "%" then
        match rest with
        | String a (String b rest') =>
            if ishex a && ishex b then badEscape rest'
            else Some (String c (String a (String b EmptyString)))
        | _ => Some s
        end
      else badEscape rest
  end.

Definition EscapeError (e : string) : string := "invalid URL escape " ++ Quote e.

Section Parse.
Variable parseAuthority : string -> result string.

(** [url.setPath(p)], as far as the error. *)
Definition setPath (u : URL) (p : string) : result URL :=
  match badEscape p with
  | None => Ok u
  | Some e => Err (EscapeError e)
  end.

(** [parse(rawURL, viaRequest = false)] *)
Definition parse (rawURL : string) : result URL :=
  if stringContainsCTLByte rawURL then
    Err "net/url: invalid control character in URL"
  else if String.eqb rawURL "*" then Ok (mkURL "" "" "")
  else
    match getScheme rawURL with
    | Err e => Err e
    | Ok (scheme, rest) =>
        let scheme := strings.ToLower scheme in
        let rest :=
          if strings.HasSuffix rest "?" && Nat.eqb (strings.Count rest "?") 1
          then slice_to rest (String.length rest - 1)
          else (strings.Cut rest "?").1.1 in
        if negb (HasPrefix rest "/") && negb (String.eqb scheme "") then
          (* rootless paths are opaque *)
          Ok (mkURL scheme rest "")
        else if negb (HasPrefix rest "/")
                && strings.Contains (strings.Cut rest "/").1.1 ":" then
          Err "first path segment in URL cannot contain colon"
        else if (negb (String.eqb scheme "") || negb (HasPrefix rest "///"))
                && HasPrefix rest "//" then
          let authority := String.substring 2 (String.length rest - 2) rest in
          let '(authority, rest) :=
            match strings.IndexByte authority "/" with
            | Some i => (slice_to authority i,
                         String.substring i (String.length authority - i) authority)
            | None => (authority, EmptyString)
            end in
          match parseAuthority authority with
          | Err e => Err e
          | Ok host => setPath (mkURL scheme "" host) rest
          end
        else setPath (mkURL scheme "" "") rest
    end.

(** [url.Parse(rawURL)] *)
Definition Parse (rawURL : string) : result URL :=
  let '(u, frag, _) := strings.Cut rawURL "#" in
  match parse u with
  | Err e => Err ("parse " ++ Quote u ++ ": " ++ e)
  | Ok url =>
      if String.eqb frag "" then Ok url
      else match badEscape frag with
           | None => Ok url
           | Some e => Err ("parse " ++ Quote rawURL ++ ": " ++ EscapeError e)
           end
  end.
End Parse.

(** An authority parser for plain [host] and [host:port] authorities: the
    port, when there is one, must be decimal. *)
Definition hostport_authority (authority : string) : result string :=
  match strings.Cut authority ":" with
  | (_, port, true) =>
      if forallb is_digit (list_ascii_of_string port) then Ok authority
      else Err ("invalid port after host")
  | _ => Ok authority
  end.

End url.

(** ** strconv *)
Module strconv.

(** [strconv.ParseBool(str)]; the error is only ever tested for [nil]. *)
Definition ParseBool (str : string) : option bool :=
  if existsb (String.eqb str) ["1"; "t"; "T"; "TRUE"; "true"; "True"] then Some true
  else if existsb (String.eqb str) ["0"; "f"; "F"; "FALSE"; "false"; "False"] then Some false
  else None.

End strconv.

(** ** encoding/base64 *)
Module base64.
Local Open Scope Z_scope.

(** [encodeStd], the alphabet of [StdEncoding]. *)
Definition encodeStd : string :=
  "ABCDEFGHIJKLMNOPQRSTUVWXYZabcdefghijklmnopqrstuvwxyz0123456789+/".

(** [enc.decodeMap[in]]; [None] stands for [0xff]. *)
Definition decodeMap (c : ascii) : option Z :=
  Z.of_nat <$> strings.IndexByte encodeStd c.

Definition padChar : ascii := "=".

Definition is_newline (c : ascii) : bool :=
  Ascii.eqb c (ascii_of_nat 10) || Ascii.eqb c (ascii_of_nat 13).

(** [CorruptInputError(n).Error()] *)
Definition CorruptInputError (n : nat) : string :=
  ("illegal base64 data at input byte " ++ time.appendInt (Z.of_nat n) 0)%string.

(** The bytes of a quantum of [dlen] characters, the missing ones counting
    for zero: [dlen - 1] bytes of
    [dbuf[0]<<18 | dbuf[1]<<12 | dbuf[2]<<6 | dbuf[3]]. *)
Definition quantum_bytes (dbuf : list Z) : bytes :=
  let d i := nth i dbuf 0 in
  let val := Z.lor (Z.lor (Z.lor (Z.shiftl (d 0%nat) 18) (Z.shiftl (d 1%nat) 12))
                      (Z.shiftl (d 2%nat) 6)) (d 3%nat) in
  take (length dbuf - 1)
       [byte_of_Z (Z.shiftr val 16); byte_of_Z (Z.shiftr val 8); byte_of_Z val].

(** Skipping newlines: how many there are at the front, and what follows. *)
Fixpoint skip_newlines (src : list ascii) : nat * list ascii :=
  match src with
  | c :: rest =>
      if is_newline c then let '(k, r) := skip_newlines rest in (S k, r)
      else (O, src)
  | [] => (O, [])
  end.

(** After the padding of the last quantum: only newlines may follow. *)
Definition after_padding (rest : list ascii) (si : nat) (dbuf : list Z)
    (out : bytes) : result bytes :=
  let '(k, rest') := skip_newlines rest in
  match rest' with
  | [] => Ok (out ++ quantum_bytes dbuf)%list
  | _ => Err (CorruptInputError (si + k))            (* trailing garbage *)
  end.

(** [enc.Decode], one character at a time: [si] is the index of the
    character read, [dbuf] holds the values of the quantum so far. *)
Fixpoint decode (src : list ascii) (si : nat) (dbuf : list Z) (out : bytes)
  : result bytes :=
  match src with
  | [] =>
      match dbuf with
      | [] => Ok out
      | _ => Err (CorruptInputError (si - length dbuf))
      end
  | c :: rest =>
      match decodeMap c with
      | Some v =>
          let dbuf' := (dbuf ++ [v])%list in
          if (length dbuf' =? 4)%nat
          then decode rest (S si) [] (out ++ quantum_bytes dbuf')%list
          else decode rest (S si) dbuf' out
      | None =>
          if is_newline c then decode rest (S si) dbuf out
          else if negb (Ascii.eqb c padChar) then Err (CorruptInputError si)
          else
            match length dbuf with
            | 0%nat | 1%nat => Err (CorruptInputError si)    (* incorrect padding *)
            | 2%nat =>
                (* a second [=] is expected *)
                let '(k, rest') := skip_newlines rest in
                match rest' with
                | [] => Err (CorruptInputError (S si + k))   (* not enough padding *)
                | c' :: rest'' =>
                    if negb (Ascii.eqb c' padChar)
                    then Err (CorruptInputError (S si + k - 1))
                    else after_padding rest'' (S (S si + k)) dbuf out
                end
            | _ => after_padding rest (S si) dbuf out
            end
      end
  end.

(** [base64.StdEncoding.DecodeString(s)], as far as the handler uses it: the
    data, or the error. *)
Definition DecodeString (s : string) : result bytes :=
  decode (list_ascii_of_string s) 0 [] [].

End base64.

(** ** os: the file system

    The tree is a finite map from absolute paths, as lists of elements, to
    nodes; the root (the empty list) is always a directory.  Names are
    resolved lexically against the working directory; there are no symbolic
    links and no permissions. *)
Module os.

Inductive errno := ENOENT | ENOTDIR | EISDIR | ENOTEMPTY | EBUSY.

Definition errno_Error (e : errno) : string :=
  match e with
  | ENOENT => "no such file or directory"
  | ENOTDIR => "not a directory"
  | EISDIR => "is a directory"
  | ENOTEMPTY => "directory not empty"
  | EBUSY => "device or resource busy"
  end.

(** [&PathError{Op, Path, Err}] *)
Record PathError := mkPathError { Op : string; Path : string; Errno : errno }.

Definition Error (e : PathError) : string :=
  Op e ++ " " ++ Path e ++ ": " ++ errno_Error (Errno e).

(** [os.IsNotExist(err)]: of the system errors, only [ENOENT]. *)
Definition IsNotExist (err : option PathError) : bool :=
  match err with
  | Some (mkPathError _ _ ENOENT) => true
  | _ => false
  end.

Inductive node := File (data : bytes) | Dir.

Record FS := mkFS { nodes : gmap (list string) node; cwd : string }.

Definition non_empty (e : string) : bool := negb (String.eqb e "").

(** The elements of the absolute, cleaned form of [name]. *)
Definition resolve (fs : FS) (name : string) : list string :=
  let abs := if HasPrefix name "/" then name else cwd fs ++ "/" ++ name in
  List.filter non_empty (strings.Split (filepath.Clean abs) "/").

Definition node_at (fs : FS) (p : list string) : option node :=
  match p with
  | [] => Some Dir
  | _ => nodes fs !! p
  end.

(** Path lookup from the directory [pre] along [rest]: every element but
    the last must name a directory. *)
Fixpoint walk (fs : FS) (pre rest : list string) : errno + node :=
  match rest with
  | [] => match node_at fs pre with
          | Some n => inr n
          | None => inl ENOENT
          end
  | e :: rest' =>
      match node_at fs pre with
      | Some Dir => walk fs (pre ++ [e]) rest'
      | Some (File _) => inl ENOTDIR
      | None => inl ENOENT
      end
  end.

Definition lookup (fs : FS) (name : string) : errno + node :=
  if String.eqb name "" then inl ENOENT else walk fs [] (resolve fs name).

(** [_, err := os.Stat(name)] *)
Definition Stat (fs : FS) (name : string) : option PathError :=
  match lookup fs name with
  | inl e => Some (mkPathError "stat" name e)
  | inr _ => None
  end.

Definition has_entries (fs : FS) (p : list string) : bool :=
  existsb (fun k => bool_decide (k ≠ [] ∧ removelast k = p))
          (map_to_list (nodes fs)).*1.

Definition remove_node (fs : FS) (name : string) : FS :=
  mkFS (delete (resolve fs name) (nodes fs)) (cwd fs).

(** [syscall.Unlink(name)] *)
Definition Unlink (fs : FS) (name : string) : FS * option errno :=
  match lookup fs name with
  | inl e => (fs, Some e)
  | inr Dir => (fs, Some EISDIR)
  | inr (File _) => (remove_node fs name, None)
  end.

(** [syscall.Rmdir(name)] *)
Definition Rmdir (fs : FS) (name : string) : FS * option errno :=
  match lookup fs name with
  | inl e => (fs, Some e)
  | inr (File _) => (fs, Some ENOTDIR)
  | inr Dir =>
      match resolve fs name with
      | [] => (fs, Some EBUSY)
      | p => if has_entries fs p then (fs, Some ENOTEMPTY)
             else (remove_node fs name, None)
      end
  end.

(** [os.Remove(name)]: try [Unlink], then [Rmdir]; when both fail, report
    the error of [Rmdir] unless that one is [ENOTDIR]. *)
Definition Remove (fs : FS) (name : string) : FS * option PathError :=
  match Unlink fs name with
  | (fs', None) => (fs', None)
  | (_, Some e) =>
      match Rmdir fs name with
      | (fs', None) => (fs', None)
      | (_, Some e1) =>
          let e := match e1 with ENOTDIR => e | _ => e1 end in
          (fs, Some (mkPathError "remove" name e))
      end
  end.

(** [os.WriteFile(name, data, perm)]: open with [O_WRONLY|O_CREATE|O_TRUNC]
    and write [data]. *)
Definition WriteFile (fs : FS) (name : string) (data : bytes)
  : FS * option PathError :=
  if String.eqb name "" then (fs, Some (mkPathError "open" name ENOENT))
  else
    let p := resolve fs name in
    match walk fs [] (removelast p) with
    | inl e => (fs, Some (mkPathError "open" name e))
    | inr (File _) => (fs, Some (mkPathError "open" name ENOTDIR))
    | inr Dir =>
        match node_at fs p with
        | Some Dir => (fs, Some (mkPathError "open" name EISDIR))
        | _ => (mkFS (<[p := File data]> (nodes fs)) (cwd fs), None)
        end
    end.

(** Directory creation along [rest] below the directory [pre]. *)
Fixpoint mkdir_along (m : gmap (list string) node) (pre rest : list string)
  : option (gmap (list string) node) :=
  match rest with
  | [] => Some m
  | e :: rest' =>
      let p := (pre ++ [e])%list in
      match m !! p with
      | Some (File _) => None
      | Some Dir => mkdir_along m p rest'
      | None => mkdir_along (<[p := Dir]> m) p rest'
      end
  end.

(** [os.MkdirAll(path, perm)] *)
Definition MkdirAll (fs : FS) (path : string) : FS * option PathError :=
  if String.eqb path "" then (fs, Some (mkPathError "mkdir" path ENOENT))
  else
    match mkdir_along (nodes fs) [] (resolve fs path) with
    | Some m => (mkFS m (cwd fs), None)
    | None => (fs, Some (mkPathError "mkdir" path ENOTDIR))
    end.

(** [os.ReadFile(name)] *)
Definition ReadFile (fs : FS) (name : string) : result bytes :=
  match lookup fs name with
  | inl e => Err (Error (mkPathError "open" name e))
  | inr Dir => Err (Error (mkPathError "read" name EISDIR))
  | inr (File data) => Ok data
  end.

End os.

(** ** minio-go: the object store

    [Service] is the state of the S3 service behind a client: the objects of
    every bucket, and the requests it refuses (transport failures, denied
    access, ...), each with the error it answers. *)
Module minio.
Import time.
Local Open Scope Z_scope.

Record Object := mkObject {
  content : bytes;
  contentType : string;
  userMetadata : list (string * string);
  lastModified : Time }.

Inductive request :=
| ReqBucketExists (bucket : string)
| ReqMakeBucket (bucket : string)
| ReqPut (bucket key : string)
| ReqGet (bucket key : string)
| ReqRemove (bucket key : string)
| ReqList (bucket : string).

Record Service := mkService {
  buckets : gmap string (gmap string Object);
  refuses : request -> option string;
  (* how many entries a refused listing delivers before its error *)
  list_cut : nat;
  (* the signed URL of an object, valid for a duration *)
  sign : string -> string -> Duration -> string }.

Definition with_buckets (svc : Service) (b : gmap string (gmap string Object)) : Service :=
  mkService b (refuses svc) (list_cut svc) (sign svc).

Record Options := mkOptions {
  AccessKeyID : string;
  SecretAccessKey : string;
  Secure : bool;
  Region : string }.

Record Client := mkClient { endpoint : string; options : Options }.

Record PutObjectOptions := mkPutObjectOptions {
  ContentType : string;
  UserMetadata : list (string * string) }.

Definition NoSuchBucket : string := "The specified bucket does not exist".

(** [client.BucketExists(ctx, bucket)] *)
Definition BucketExists (svc : Service) (bucket : string) : result bool :=
  match refuses svc (ReqBucketExists bucket) with
  | Some e => Err e
  | None => Ok (bool_decide (is_Some (buckets svc !! bucket)))
  end.

(** [client.MakeBucket(ctx, bucket, opts)] *)
Definition MakeBucket (svc : Service) (bucket : string) : Service * option string :=
  match refuses svc (ReqMakeBucket bucket) with
  | Some e => (svc, Some e)
  | None =>
      match buckets svc !! bucket with
      | Some _ => (svc, Some "Your previous request to create the named bucket succeeded and you already own it.")
      | None => (with_buckets svc (<[bucket := ∅]> (buckets svc)), None)
      end
  end.

(** [client.PutObject(ctx, bucket, key, reader, size, opts)]; the object is
    stamped with the time of the upload. *)
Definition PutObject (svc : Service) (now : Time) (bucket key : string)
    (data : bytes) (opts : PutObjectOptions) : Service * option string :=
  match refuses svc (ReqPut bucket key) with
  | Some e => (svc, Some e)
  | None =>
      match buckets svc !! bucket with
      | None => (svc, Some NoSuchBucket)
      | Some objs =>
          let o := mkObject data (ContentType opts) (UserMetadata opts) now in
          (with_buckets svc (<[bucket := <[key := o]> objs]> (buckets svc)), None)
      end
  end.

(** [client.GetObject] followed by reading the whole object. *)
Definition GetObject (svc : Service) (bucket key : string) : result bytes :=
  match refuses svc (ReqGet bucket key) with
  | Some e => Err e
  | None =>
      match buckets svc !! bucket with
      | None => Err NoSuchBucket
      | Some objs =>
          match objs !! key with
          | None => Err "The specified key does not exist."
          | Some o => Ok (content o)
          end
      end
  end.

(** [client.RemoveObject(ctx, bucket, key, opts)]: removing a key that has
    no object is a success (S3 [DeleteObject]). *)
Definition RemoveObject (svc : Service) (bucket key : string) : Service * option string :=
  match refuses svc (ReqRemove bucket key) with
  | Some e => (svc, Some e)
  | None =>
      match buckets svc !! bucket with
      | None => (svc, Some NoSuchBucket)
      | Some objs =>
          (with_buckets svc (<[bucket := delete key objs]> (buckets svc)), None)
      end
  end.

(** [isValidExpiry]: between one second and seven days. *)
Definition isValidExpiry (expires : Duration) : option string :=
  let expireSeconds := Z.quot expires Second in
  if expireSeconds <? 1 then Some "Expires cannot be lesser than 1 second."
  else if 604800 <? expireSeconds then Some "Expires cannot be greater than 7 days."
  else None.

(** [client.PresignedGetObject(ctx, bucket, key, expires, reqParams)],
    rendered with [String()]. *)
Definition PresignedGetObject (svc : Service) (bucket key : string)
    (expires : Duration) : result string :=
  match isValidExpiry expires with
  | Some e => Err e
  | None => Ok (sign svc bucket key expires)
  end.

(** The entries sent on the channel of [ListObjects]. *)
Record ObjectInfo := mkObjectInfo {
  Key : string;
  LastModified : Time;
  Size : Z;
  Err : option string }.

Definition info (kv : string * Object) : ObjectInfo :=
  mkObjectInfo kv.1 (lastModified kv.2) (Z.of_nat (length (content kv.2))) None.

Definition error_entry (e : string) : ObjectInfo := mkObjectInfo "" 0 0 (Some e).

(** [client.ListObjects(ctx, bucket, ListObjectsOptions{Recursive: true})],
    as the list of the entries received from the channel: one per object,
    and a last entry carrying the error when the listing fails. *)
Definition ListObjects (svc : Service) (bucket : string) : list ObjectInfo :=
  match buckets svc !! bucket with
  | None => [error_entry NoSuchBucket]
  | Some objs =>
      let entries := info <$> map_to_list objs in
      match refuses svc (ReqList bucket) with
      | Some e => (take (list_cut svc) entries ++ [error_entry e])%list
      | None => entries
      end
  end.

End minio.

(** ** Channels and panics *)
Inductive chan_state := ChanOpen | ChanClosed.

(** What a call does: it returns, or it panics. *)
Inductive outcome (A : Type) : Type :=
| Returns (v : A)
| Panics (msg : string).
Arguments Returns {A} v.
Arguments Panics {A} msg.

(** [close(c)] on the state of the channel [c]. *)
Definition close_chan (c : option chan_state) : outcome chan_state :=
  match c with
  | Some ChanOpen => Returns ChanClosed
  | Some ChanClosed => Panics "close of closed channel"
  | None => Panics "close of nil channel"
  end.

(** ** package storage: storage.go *)

Record StorageResult := mkStorageResult {
  Location : string;
  ObjectKey : string;
  ContentHash : string;
  ExpiresAt : option time.Time;
  MIMEType : string;
  Size : Z }.

Definition ExtensionFromMIME (mimeType : string) : string :=
  if String.eqb mimeType "image/png" then ".png"
  else if String.eqb mimeType "image/jpeg" then ".jpg"
  else if String.eqb mimeType "image/webp" then ".webp"
  else if String.eqb mimeType "image/gif" then ".gif"
  else if String.eqb mimeType "video/mp4" then ".mp4"
  else if String.eqb mimeType "video/webm" then ".webm"
  else if String.eqb mimeType "application/json" then ".json"
  else "".

(** The release action returned by [Retrieve]: a [func()] value. *)
Inductive cleanup_func :=
| cleanup_nothing                    (* [func() {}] *)
| cleanup_remove (path : string).    (* removes a transient file *)

Definition run_cleanup (c : cleanup_func) (fs : os.FS) : os.FS :=
  match c with
  | cleanup_nothing => fs
  | cleanup_remove path => (os.Remove fs path).1
  end.

(** ** package storage: local.go *)

Record LocalStorage := mkLocalStorage { baseDir : string }.

Definition NewLocalStorage (baseDir : string) (fs : os.FS) : os.FS * result LocalStorage :=
  match os.MkdirAll fs baseDir with
  | (fs', Some err) =>
      (fs', Err ("failed to create storage directory: " ++ os.Error err))
  | (fs', None) => (fs', Ok (mkLocalStorage baseDir))
  end.

(** The methods of [LocalStorage], on the file system. *)
Module LocalStorage.

(** [Store] saves content to the local file system. *)
Definition Store (s : LocalStorage) (fs : os.FS)
    (data : bytes) (mimeType prefix : string) : os.FS * result StorageResult :=
  let hash := sha256.Sum256 data in
  let contentHash := hex.EncodeToString hash in
  let ext := ExtensionFromMIME mimeType in
  let filename := prefix ++ "_" ++ slice_to contentHash 16 ++ ext in
  let outputPath := filepath.Join (baseDir s) filename in
  match os.WriteFile fs outputPath data with
  | (fs', Some err) => (fs', Err ("failed to write file: " ++ os.Error err))
  | (fs', None) =>
      (fs', Ok {| Location := outputPath;
                  ObjectKey := filename;
                  ContentHash := contentHash;
                  MIMEType := mimeType;
                  Size := Z.of_nat (length data);
                  ExpiresAt := None |})
  end.

(** [Retrieve] returns the local file path for a given object key; no
    download is needed, the file only has to exist. *)
Definition Retrieve (s : LocalStorage) (fs : os.FS) (objectKey : string)
  : result (string * option cleanup_func) :=
  let filePath := filepath.Join (baseDir s) objectKey in
  let err := os.Stat fs filePath in
  if os.IsNotExist err then Err ("file not found: " ++ objectKey)
  else match err with
       | Some e => Err ("failed to stat file: " ++ os.Error e)
       | None => Ok (filePath, Some cleanup_nothing)
       end.

(** [Delete] removes a file from local storage. *)
Definition Delete (s : LocalStorage) (fs : os.FS) (objectKey : string)
  : os.FS * option string :=
  let filePath := filepath.Join (baseDir s) objectKey in
  let '(fs', err) := os.Remove fs filePath in
  match err with
  | Some e =>
      if negb (os.IsNotExist err)
      then (fs', Some ("failed to delete file: " ++ os.Error e))
      else (fs', None)
  | None => (fs', None)
  end.

(** [Close] is a no-op for local storage. *)
Definition Close (s : LocalStorage) : option string := None.

Definition IsRemote (s : LocalStorage) : bool := false.

End LocalStorage.

(** ** package storage: s3.go *)

Record S3Storage := mkS3Storage {
  client : minio.Client;
  bucket : string;
  presignTTL : time.Duration;
  objectTTL : time.Duration;
  cleanupInterval : time.Duration;
  stopCleanup : nat (* the channel, by its address *) }.

Record S3Config := mkS3Config {
  Endpoint : string;
  AccessKeyID : string;
  SecretAccessKey : string;
  Region : string;
  Bucket : string;
  UseSSL : bool;
  PresignTTL : time.Duration;
  ObjectTTL : time.Duration;
  CleanupInterval : time.Duration }.

(** The cleanup goroutine of a storage: blocked in its [select], or returned. *)
Record routine := mkRoutine {
  owner : S3Storage;
  tick_ready : bool;   (* a tick is waiting in [ticker.C] *)
  exited : bool }.

(** The state the program runs in. *)
Record World := mkWorld {
  fs : os.FS;
  s3 : minio.Service;
  clock : time.Time;
  chans : gmap nat chan_state;
  routines : gmap nat routine;   (* by the address of their stop channel *)
  temp_seq : nat }.

Definition with_fs (w : World) (x : os.FS) : World :=
  mkWorld x (s3 w) (clock w) (chans w) (routines w) (temp_seq w).
Definition with_s3 (w : World) (x : minio.Service) : World :=
  mkWorld (fs w) x (clock w) (chans w) (routines w) (temp_seq w).
Definition with_chans (w : World) (x : gmap nat chan_state) : World :=
  mkWorld (fs w) (s3 w) (clock w) x (routines w) (temp_seq w).
Definition with_routines (w : World) (x : gmap nat routine) : World :=
  mkWorld (fs w) (s3 w) (clock w) (chans w) x (temp_seq w).

(** What one sweep reports: the two counters and the lines it logs. *)
Record SweepReport := mkSweepReport {
  deletedCount : nat;
  errorCount : nat;
  logged : list string }.

(** Construction.  The authority parser of [net/url] and the endpoint
    validation of [minio.New] are parameters; log output is not modelled. *)
Section Construction.
Variable parseAuthority : string -> result string.
Variable validEndpoint : string -> bool.

(** [parseEndpoint] extracts host:port from an endpoint that may include a
    protocol. *)
Definition parseEndpoint (endpoint : string) (defaultUseSSL : bool)
  : string * bool :=
  let useSSL := defaultUseSSL in
  match url.Parse parseAuthority endpoint with
  | Ok parsed =>
      if negb (String.eqb (url.Scheme parsed) "") then
        let useSSL := String.eqb (url.Scheme parsed) "https" in
        let host := url.Host parsed in
        if String.eqb host "" then (endpoint, useSSL) else (host, useSSL)
      else (endpoint, useSSL)
  | Err _ => (endpoint, useSSL)
  end.

(** [minio.New(endpoint, opts)] *)
Definition minio_New (endpoint : string) (opts : minio.Options)
  : result minio.Client :=
  if validEndpoint endpoint then Ok (minio.mkClient endpoint opts)
  else Err ("Endpoint: " ++ endpoint ++ " does not follow ip address or domain name standards.").

Definition NewS3Storage (cfg : S3Config) (w : World) : World * result S3Storage :=
  let '(endpoint, useSSL) := parseEndpoint (Endpoint cfg) (UseSSL cfg) in
  match minio_New endpoint
          (minio.mkOptions (AccessKeyID cfg) (SecretAccessKey cfg) useSSL (Region cfg)) with
  | Err err => (w, Err ("failed to create S3 client: " ++ err)%string)
  | Ok client =>
      match minio.BucketExists (s3 w) (Bucket cfg) with
      | Err err => (w, Err ("failed to check bucket existence: " ++ err)%string)
      | Ok exists_ =>
          match (if exists_ : bool then (s3 w, None)
                 else minio.MakeBucket (s3 w) (Bucket cfg)) with
          | (_, Some err) =>
              (w, Err ("failed to create bucket " ++ Bucket cfg ++ ": " ++ err)%string)
          | (svc, None) =>
              let c := fresh (dom (chans w)) in
              let s := mkS3Storage client (Bucket cfg) (PresignTTL cfg)
                         (ObjectTTL cfg) (CleanupInterval cfg) c in
              (* [make(chan struct{})] and [go s.startCleanupRoutine()] *)
              (mkWorld (fs w) svc (clock w) (<[c := ChanOpen]> (chans w))
                 (<[c := mkRoutine s false false]> (routines w)) (temp_seq w),
               Ok s)
          end
      end
  end.
End Construction.

(** The methods of [S3Storage], on the world. *)
Module S3Storage.
Local Open Scope Z_scope.

(** [Store] saves content to S3 and returns a presigned URL. *)
Definition Store (s : S3Storage) (w : World)
    (data : bytes) (mimeType prefix : string) : World * result StorageResult :=
  let hash := sha256.Sum256 data in
  let contentHash := hex.EncodeToString hash in
  let now := clock w in
  let datePath := time.Format_date now in
  let ext := ExtensionFromMIME mimeType in
  let filename := (prefix ++ "_" ++ slice_to contentHash 16 ++ ext)%string in
  let objectKey := (datePath ++ "/" ++ filename)%string in
  let opts := minio.mkPutObjectOptions mimeType
                [ ("created-at"%string, time.Format_RFC3339 now);
                  ("expires-at"%string, time.Format_RFC3339 (time.Add now (objectTTL s))) ] in
  match minio.PutObject (s3 w) now (bucket s) objectKey data opts with
  | (svc, Some err) => (with_s3 w svc, Err ("failed to upload to S3: " ++ err)%string)
  | (svc, None) =>
      match minio.PresignedGetObject svc (bucket s) objectKey (presignTTL s) with
      | Err err =>
          (with_s3 w svc, Err ("failed to generate presigned URL: " ++ err)%string)
      | Ok presignedURL =>
          let expiresAt := time.Add now (presignTTL s) in
          (with_s3 w svc,
           Ok {| Location := presignedURL;
                 ObjectKey := objectKey;
                 ContentHash := contentHash;
                 MIMEType := mimeType;
                 Size := Z.of_nat (length data);
                 ExpiresAt := Some expiresAt |})
      end
  end.

(** [Delete] removes an object from S3. *)
Definition Delete (s : S3Storage) (w : World) (objectKey : string)
  : World * option string :=
  match minio.RemoveObject (s3 w) (bucket s) objectKey with
  | (svc, Some err) => (with_s3 w svc, Some ("failed to delete object: " ++ err)%string)
  | (svc, None) => (with_s3 w svc, None)
  end.

(** [Close] stops the cleanup routine: [close(s.stopCleanup)]. *)
Definition Close (s : S3Storage) (w : World) : World * outcome (option string) :=
  match close_chan (chans w !! stopCleanup s) with
  | Returns c => (with_chans w (<[stopCleanup s := c]> (chans w)), Returns None)
  | Panics msg => (w, Panics msg)
  end.

Definition IsRemote (s : S3Storage) : bool := true.

(** The body of the loop of [cleanupExpiredObjects] for one entry received
    from the listing. *)
Definition sweep_entry (s : S3Storage) (now : time.Time)
    (acc : minio.Service * SweepReport) (object : minio.ObjectInfo)
  : minio.Service * SweepReport :=
  let '(svc, r) := acc in
  match minio.Err object with
  | Some err =>
      (svc, mkSweepReport (deletedCount r) (S (errorCount r))
              (logged r ++ [("Error listing objects: " ++ err)%string]))
  | None =>
      let age := time.Sub now (minio.LastModified object) in
      if objectTTL s <? age then
        match minio.RemoveObject svc (bucket s) (minio.Key object) with
        | (svc', Some err) =>
            (svc', mkSweepReport (deletedCount r) (S (errorCount r))
                     (logged r ++ [("Failed to delete expired object "
                                    ++ minio.Key object ++ ": " ++ err)%string]))
        | (svc', None) =>
            (svc', mkSweepReport (S (deletedCount r)) (errorCount r) (logged r))
        end
      else acc
  end.

Definition summary (r : SweepReport) : list string :=
  if ((0 <? deletedCount r) || (0 <? errorCount r))%nat then
    [("S3 cleanup completed: deleted "
      ++ time.appendInt (Z.of_nat (deletedCount r)) 0 ++ " objects, "
      ++ time.appendInt (Z.of_nat (errorCount r)) 0 ++ " errors")%string]
  else [].

(** [cleanupExpiredObjects] removes objects that have exceeded their TTL. *)
Definition cleanupExpiredObjects (s : S3Storage) (w : World) : World * SweepReport :=
  let now := clock w in
  let objectCh := minio.ListObjects (s3 w) (bucket s) in
  let '(svc, r) :=
    fold_left (sweep_entry s now) objectCh (s3 w, mkSweepReport 0 0 []) in
  (with_s3 w svc,
   mkSweepReport (deletedCount r) (errorCount r) (logged r ++ summary r)).

(** Modelled from the spec: the method [Retrieve] of [S3Storage], which
    main.go calls and the sources do not contain.  It downloads the object
    to a transient local file and returns the path of that file with a
    cleanup action that deletes it. *)
Definition Retrieve (s : S3Storage) (w : World) (objectKey : string)
  : World * result (string * option cleanup_func) :=
  match minio.GetObject (s3 w) (bucket s) objectKey with
  | Err err => (w, Err ("failed to download object: " ++ err)%string)
  | Ok data =>
      let tmp := ("/tmp/s3-retrieve-" ++ time.appendInt (Z.of_nat (temp_seq w)) 0)%string in
      match os.WriteFile (fs w) tmp data with
      | (_, Some err) => (w, Err ("failed to write temp file: " ++ os.Error err)%string)
      | (fs', None) =>
          (mkWorld fs' (s3 w) (clock w) (chans w) (routines w) (S (temp_seq w)),
           Ok (tmp, Some (cleanup_remove tmp)))
      end
  end.

End S3Storage.

(** ** The cleanup goroutine

    [startCleanupRoutine] sits in a [select] over the ticker and the stop
    channel.  One step of the system is: the ticker of a routine fires; a
    routine receives a tick and sweeps; a routine receives from its closed
    stop channel and returns; or time passes. *)
Inductive step : World -> World -> Prop :=
| step_ticker w c r :
    routines w !! c = Some r ->
    exited r = false ->
    step w (with_routines w (<[c := mkRoutine (owner r) true false]> (routines w)))
| step_sweep w c r :
    routines w !! c = Some r ->
    exited r = false ->
    tick_ready r = true ->
    step w (with_routines (S3Storage.cleanupExpiredObjects (owner r) w).1
              (<[c := mkRoutine (owner r) false false]> (routines w)))
| step_stop w c r :
    routines w !! c = Some r ->
    exited r = false ->
    chans w !! c = Some ChanClosed ->
    step w (with_routines w (<[c := mkRoutine (owner r) (tick_ready r) true]> (routines w)))
| step_time w (d : Z) :
    (0 <= d)%Z ->
    step w (mkWorld (fs w) (s3 w) (clock w + d)%Z (chans w) (routines w) (temp_seq w)).

(** ** The storage interface (storage.go, with the [Retrieve] that main.go
    calls) *)
Class Storage (B : Type) := {
  Store : B -> World -> bytes -> string -> string -> World * result StorageResult;
  Retrieve : B -> World -> string -> World * result (string * option cleanup_func);
  Delete : B -> World -> string -> World * option string;
  Close : B -> World -> World * outcome (option string);
  IsRemote : B -> bool }.

#[export] Instance LocalStorage_Storage : Storage LocalStorage := {
  Store s w data mimeType prefix :=
    let '(fs', r) := LocalStorage.Store s (fs w) data mimeType prefix in (with_fs w fs', r);
  Retrieve s w objectKey := (w, LocalStorage.Retrieve s (fs w) objectKey);
  Delete s w objectKey :=
    let '(fs', r) := LocalStorage.Delete s (fs w) objectKey in (with_fs w fs', r);
  Close s w := (w, Returns (LocalStorage.Close s));
  IsRemote := LocalStorage.IsRemote }.

#[export] Instance S3Storage_Storage : Storage S3Storage := {
  Store := S3Storage.Store;
  Retrieve := S3Storage.Retrieve;
  Delete := S3Storage.Delete;
  Close := S3Storage.Close;
  IsRemote := S3Storage.IsRemote }.

(** ** main.go: the [upload_media] tool *)

Module UploadMediaInput.
Record t := mk {
  Data : string;
  URL : string;
  MIMEType : string;
  Prefix : string }.
End UploadMediaInput.

Module UploadMediaOutput.
Record t := mk {
  ObjectKey : string;
  DownloadURL : string;
  ExpiresAt : string;
  MIMEType : string;
  Size : Z;
  Message : string;
  UploadedAt : string }.
End UploadMediaOutput.

(** ** main.go: the input-path resolver *)

(** The calls [resolveInputPath] makes, in order. *)
Inductive call :=
| call_Stat (name : string)
| call_Retrieve (objectKey : string).

Record Server (B : Type) := mkServer { storage : B }.
Arguments storage {B} _.

Module Server.

Definition resolveInputPath {B} `{Storage B} (s : Server B) (w : World)
    (inputPath : string)
  : World * list call * result (string * option cleanup_func) :=
  if HasPrefix inputPath "/" then
    match os.Stat (fs w) inputPath with
    | None => (w, [call_Stat inputPath], Ok (inputPath, None))
    | Some _ =>
        (w, [call_Stat inputPath], Err ("local file not found: " ++ inputPath))
    end
  else if IsRemote (storage s) then
    match Retrieve (storage s) w inputPath with
    | (w', Err err) =>
        (w', [call_Retrieve inputPath], Err ("failed to retrieve from storage: " ++ err))
    | (w', Ok (localPath, cleanup)) =>
        (w', [call_Retrieve inputPath], Ok (localPath, cleanup))
    end
  else
    match Retrieve (storage s) w inputPath with
    | (w', Err _) =>
        match os.Stat (fs w') inputPath with
        | None =>
            (w', [call_Retrieve inputPath; call_Stat inputPath], Ok (inputPath, None))
        | Some _ =>
            (w', [call_Retrieve inputPath; call_Stat inputPath],
             Err ("file not found: " ++ inputPath))
        end
    | (w', Ok (localPath, cleanup)) =>
        (w', [call_Retrieve inputPath], Ok (localPath, cleanup))
    end.

(** [handleUploadMedia] stores media given as base64 data or fetched from a
    URL; it returns the text of the tool result and the output.  Fetching
    and the local time zone are parameters. *)
Section Upload.
Context {B : Type} `{Storage B}.
(** [http.Get(url)] followed by [io.ReadAll(resp.Body)]: the error of the
    request, or the status code and the body or the error of reading it. *)
Variable http_Get : string -> result (Z * result bytes).
(** The offset of the local time zone, in seconds east of UTC. *)
Variable zone_offset : time.Time -> Z.

Definition newline : string := String (ascii_of_nat 10) "".

Definition handleUploadMedia (s : Server B) (w : World) (input : UploadMediaInput.t)
  : World * result (string * UploadMediaOutput.t) :=
  if String.eqb (UploadMediaInput.Data input) "" && String.eqb (UploadMediaInput.URL input) "" then
    (w, Err "one of 'data' (base64) or 'url' is required")
  else if String.eqb (UploadMediaInput.MIMEType input) "" then
    (w, Err "mime_type is required")
  else
    let mimeType := UploadMediaInput.MIMEType input in
    let fetched : result bytes :=
      if negb (String.eqb (UploadMediaInput.Data input) "") then
        match base64.DecodeString (UploadMediaInput.Data input) with
        | Err err => Err ("failed to decode base64 data: " ++ err)
        | Ok data => Ok data
        end
      else
        match http_Get (UploadMediaInput.URL input) with
        | Err err => Err ("failed to download from URL: " ++ err)
        | Ok (status, body) =>
            if negb (status =? 200)%Z then
              Err ("failed to download from URL: status " ++ time.appendInt status 0)
            else match body with
                 | Err err => Err ("failed to read response body: " ++ err)
                 | Ok data => Ok data
                 end
        end in
    match fetched with
    | Err err => (w, Err err)
    | Ok data =>
        let prefix := if String.eqb (UploadMediaInput.Prefix input) "" then "upload"
                      else UploadMediaInput.Prefix input in
        match Store (storage s) w data mimeType prefix with
        | (w', Err err) => (w', Err ("failed to store media: " ++ err))
        | (w', Ok result) =>
            let now := clock w' in
            let timestamp := time.Format_stamp (now + zone_offset now * time.Second)%Z in
            let '(expiresAt, downloadURL) :=
              if IsRemote (storage s) then
                (match ExpiresAt result with
                 | Some t => time.Format_RFC3339 t
                 | None => ""
                 end, Location result)
              else ("", "") in
            let contentText :=
              if IsRemote (storage s) then
                "Media uploaded successfully." ++ newline ++ "Object Key: "
                ++ ObjectKey result ++ newline ++ "Download URL: " ++ downloadURL
                ++ (if negb (String.eqb expiresAt "")
                    then newline ++ "URL expires at: " ++ expiresAt else "")
              else
                "Media uploaded successfully." ++ newline ++ "Stored at: "
                ++ Location result in
            let contentText :=
              contentText ++ newline ++ newline ++ "Use object_key '" ++ ObjectKey result
              ++ "' with gemini_image_edit, gemini_multi_image, or veo_image_to_video tools." in
            (w', Ok (contentText,
                     {| UploadMediaOutput.ObjectKey := ObjectKey result;
                        UploadMediaOutput.DownloadURL := downloadURL;
                        UploadMediaOutput.ExpiresAt := expiresAt;
                        UploadMediaOutput.MIMEType := mimeType;
                        UploadMediaOutput.Size := Size result;
                        UploadMediaOutput.Message := "Media uploaded successfully";
                        UploadMediaOutput.UploadedAt := timestamp |}))
        end
    end.
End Upload.

End Server.

(** ** The backend in use

    [NewStorage] returns one of the two backends behind the interface. *)
Inductive Backend :=
| Local (s : LocalStorage)
| Remote (s : S3Storage).

#[export] Instance Backend_Storage : Storage Backend := {
  Store b := match b with Local s => Store s | Remote s => Store s end;
  Retrieve b := match b with Local s => Retrieve s | Remote s => Retrieve s end;
  Delete b := match b with Local s => Delete s | Remote s => Delete s end;
  Close b := match b with Local s => Close s | Remote s => Close s end;
  IsRemote b := match b with Local s => IsRemote s | Remote s => IsRemote s end }.

(** The part of [common.Config] that [NewStorage] reads. *)
Record Config := mkConfig {
  OutputDir : string;
  S3Endpoint : string;
  S3Bucket : string;
  S3Region : string;
  S3AccessKeyID : string;
  S3SecretAccessKey : string;
  S3UseSSL : bool;
  S3PresignTTL : time.Duration;
  S3ObjectTTL : time.Duration;
  S3CleanupInterval : time.Duration;
  S3Enabled : bool }.

Definition NewStorage (parseAuthority : string -> result string)
    (validEndpoint : string -> bool) (config : Config) (w : World)
  : World * result Backend :=
  if S3Enabled config then
    match NewS3Storage parseAuthority validEndpoint
            (mkS3Config (S3Endpoint config) (S3AccessKeyID config)
               (S3SecretAccessKey config) (S3Region config) (S3Bucket config)
               (S3UseSSL config) (S3PresignTTL config) (S3ObjectTTL config)
               (S3CleanupInterval config)) w with
    | (w', Ok s) => (w', Ok (Remote s))
    | (w', Err err) => (w', Err err)
    end
  else
    match NewLocalStorage (OutputDir config) (fs w) with
    | (fs', Ok stor) => (with_fs w fs', Ok (Local stor))
    | (fs', Err err) =>
        (with_fs w fs', Err ("failed to create local storage: " ++ err))
    end.

(** ** package common: config.go *)
Module common.

(** The environment of the process; [os.Getenv] gives the empty string for
    a variable that is not set. *)
Definition Env := gmap string string.

Definition Getenv (env : Env) (key : string) : string := default "" (env !! key).

Record Config := mkConfig {
  APIKey : string;
  ProjectID : string;
  Location : string;
  Port : string;
  Transport : string;
  OutputDir : string;
  GenmediaBucket : string;
  ServiceTokens : list string;
  AuthEnabled : bool;
  S3Endpoint : string;
  S3Bucket : string;
  S3Region : string;
  S3AccessKeyID : string;
  S3SecretAccessKey : string;
  S3UseSSL : bool;
  S3PresignTTL : time.Duration;
  S3ObjectTTL : time.Duration;
  S3CleanupInterval : time.Duration;
  S3Enabled : bool }.

(** [parseServiceTokens] parses a comma-separated list of tokens. *)
Definition parseServiceTokens (tokensStr : string) : list string :=
  if String.eqb tokensStr "" then []
  else
    let tokens := strings.Split tokensStr "," in
    fold_left (fun result t =>
                 let t := strings.TrimSpace t in
                 if negb (String.eqb t "") then (result ++ [t])%list else result)
              tokens [].

Definition getEnvOrDefault (env : Env) (key defaultValue : string) : string :=
  let value := Getenv env key in
  if negb (String.eqb value "") then value else defaultValue.

Definition getEnvOrDefaultBool (env : Env) (key : string) (defaultValue : bool) : bool :=
  let value := Getenv env key in
  if negb (String.eqb value "") then
    match strconv.ParseBool value with
    | None => defaultValue
    | Some parsed => parsed
    end
  else defaultValue.

(** [time.ParseDuration] is a parameter; its error is only tested for [nil]. *)
Section Load.
Variable ParseDuration : string -> option time.Duration.

Definition getEnvOrDefaultDuration (env : Env) (key : string)
    (defaultValue : time.Duration) : time.Duration :=
  let value := Getenv env key in
  if negb (String.eqb value "") then
    match ParseDuration value with
    | None => defaultValue
    | Some parsed => parsed
    end
  else defaultValue.

(** [LoadConfig] reads the environment and, when files are kept locally,
    creates the output directory; it returns the configuration and the
    lines it prints. *)
Definition LoadConfig (env : Env) (fs : os.FS) : os.FS * Config * list string :=
  let serviceTokens := parseServiceTokens (Getenv env "SERVICE_TOKENS") in
  let transport := getEnvOrDefault env "TRANSPORT" "stdio" in
  let outputDir := getEnvOrDefault env "OUTPUT_DIR" "/tmp/gemini-mcp" in
  let s3Endpoint := Getenv env "S3_ENDPOINT" in
  let s3AccessKeyID := Getenv env "S3_ACCESS_KEY_ID" in
  let s3SecretAccessKey := Getenv env "S3_SECRET_ACCESS_KEY" in
  let authEnabled := (0 <? length serviceTokens)%nat in
  let s3Enabled :=
    negb (String.eqb s3Endpoint "") && negb (String.eqb s3AccessKeyID "")
    && negb (String.eqb s3SecretAccessKey "")
    && (String.eqb transport "http" || String.eqb transport "sse") in
  let config :=
    {| APIKey := Getenv env "GOOGLE_API_KEY";
       ProjectID := Getenv env "GOOGLE_PROJECT_ID";
       Location := getEnvOrDefault env "GOOGLE_LOCATION" "us-central1";
       Port := getEnvOrDefault env "PORT" "8080";
       Transport := transport;
       OutputDir := outputDir;
       GenmediaBucket := Getenv env "GENMEDIA_BUCKET";
       ServiceTokens := serviceTokens;
       AuthEnabled := authEnabled;
       S3Endpoint := s3Endpoint;
       S3Bucket := getEnvOrDefault env "S3_BUCKET" "gemini-media";
       S3Region := getEnvOrDefault env "S3_REGION" "us-east-1";
       S3AccessKeyID := s3AccessKeyID;
       S3SecretAccessKey := s3SecretAccessKey;
       S3UseSSL := getEnvOrDefaultBool env "S3_USE_SSL" true;
       S3PresignTTL := getEnvOrDefaultDuration env "S3_PRESIGN_TTL" (24 * time.Hour)%Z;
       S3ObjectTTL := getEnvOrDefaultDuration env "S3_OBJECT_TTL" (24 * time.Hour)%Z;
       S3CleanupInterval := getEnvOrDefaultDuration env "S3_CLEANUP_INTERVAL" (1 * time.Hour)%Z;
       S3Enabled := s3Enabled |} in
  if negb (String.eqb outputDir "") && negb s3Enabled then
    match os.MkdirAll fs outputDir with
    | (fs', Some err) =>
        (fs', config, ["Warning: Failed to create output directory: " ++ os.Error err])
    | (fs', None) => (fs', config, [])
    end
  else (fs, config, []).
End Load.

Definition Validate (c : Config) : option string :=
  if String.eqb (APIKey c) "" then Some "GOOGLE_API_KEY environment variable is required"
  else None.

End common.

(** What [NewStorage] reads of the configuration. *)
Definition storage_config (c : common.Config) : Config :=
  mkConfig (common.OutputDir c) (common.S3Endpoint c) (common.S3Bucket c)
    (common.S3Region c) (common.S3AccessKeyID c) (common.S3SecretAccessKey c)
    (common.S3UseSSL c) (common.S3PresignTTL c) (common.S3ObjectTTL c)
    (common.S3CleanupInterval c) (common.S3Enabled c).

(** ** package middleware: auth.go *)
Module middleware.

(** What [http.Error(w, error, code)] leaves in the response: it replaces
    the content type, and writes the text and a newline. *)
Record Response := mkResponse {
  StatusCode : Z;
  Header : gmap string string;
  Body : string }.

Definition http_Error (header : gmap string string) (error : string) (code : Z)
  : Response :=
  mkResponse code
    (<["X-Content-Type-Options" := "nosniff"]>
       (<["Content-Type" := "text/plain; charset=utf-8"]>
          (delete "Content-Length" header)))
    (error ++ String (ascii_of_nat 10) "").

Definition StatusUnauthorized : Z := 401.

(** The handler either passes the request on to [next], or answers it. *)
Inductive handled :=
| Next
| Answered (resp : Response).

Definition quote : string := String (ascii_of_nat 34) "".

(** The three bodies of the source, which differ in the message:
    a JSON-RPC error object with code -32001. *)
Definition error_body (message : string) : string :=
  "{" ++ quote ++ "jsonrpc" ++ quote ++ ":" ++ quote ++ "2.0" ++ quote ++ ","
  ++ quote ++ "error" ++ quote ++ ":{" ++ quote ++ "code" ++ quote ++ ":-32001,"
  ++ quote ++ "message" ++ quote ++ ":" ++ quote ++ message ++ quote ++ "}}".

(** [AuthMiddleware(validTokens, next)] applied to a request whose
    [Authorization] header is [authHeader] (empty when there is none). *)
Definition AuthMiddleware (validTokens : list string) (authHeader : string) : handled :=
  let tokenSet : gset string :=
    fold_left (fun tokenSet token => {[ token ]} ∪ tokenSet) validTokens ∅ in
  if (size tokenSet =? 0)%nat then Next
  else if String.eqb authHeader "" then
    Answered (http_Error {[ "Content-Type" := "application/json" ]}
                (error_body "Authorization header required") StatusUnauthorized)
  else if negb (HasPrefix authHeader "Bearer ") then
    Answered (http_Error {[ "Content-Type" := "application/json" ]}
                (error_body "Bearer token required") StatusUnauthorized)
  else
    let token := strings.TrimPrefix authHeader "Bearer " in
    let token := strings.TrimSpace token in
    if negb (bool_decide (token ∈ tokenSet)) then
      Answered (http_Error {[ "Content-Type" := "application/json" ]}
                  (error_body "Invalid token") StatusUnauthorized)
    else Next.

End middleware.

(** main.go, [runHTTPServer]: the handler is wrapped with the
    authentication middleware if tokens are configured. *)
Definition httpHandler (config : common.Config) (authHeader : string)
  : middleware.handled :=
  if common.AuthEnabled config && (0 <? length (common.ServiceTokens config))%nat
  then middleware.AuthMiddleware (common.ServiceTokens config) authHeader
  else middleware.Next.

(** ** Notions used by the properties *)

(** A lowercase hexadecimal digit. *)
Definition lower_hex_digit (c : ascii) : bool :=
  let n := nat_of_ascii c in
  ((48 <=? n) && (n <=? 57) || (97 <=? n) && (n <=? 102))%nat.

Definition unhex (c : ascii) : Z :=
  let n := Z.of_nat (nat_of_ascii c) in
  (if n <? 58 then n - 48 else n - 87)%Z.

(** Reading a hexadecimal string back, two digits per byte. *)
Fixpoint hex_decode (s : string) : bytes :=
  match s with
  | String a (String b rest) => byte_of_Z (16 * unhex a + unhex b) :: hex_decode rest
  | _ => []
  end.

(** The MIME type to extension table, as the specification gives it; any
    other MIME type has the empty extension. *)
Definition mime_table : list (string * string) :=
  [ ("image/png", ".png"); ("image/jpeg", ".jpg"); ("image/webp", ".webp");
    ("image/gif", ".gif"); ("video/mp4", ".mp4"); ("video/webm", ".webm");
    ("application/json", ".json") ].

Definition table_extension (mimeType : string) : string :=
  default "" ((list_to_map mime_table : gmap string string) !! mimeType).

(** The calendar, counted forwards: leap years, the lengths of the months,
    and the number of days from 1970-01-01 to a date. *)
Definition is_leap (y : Z) : bool :=
  ((y mod 4 =? 0) && (negb (y mod 100 =? 0) || (y mod 400 =? 0)))%Z.

Definition days_in_month (y m : Z) : Z :=
  match m with
  | 2 => if is_leap y then 29 else 28
  | 4 | 6 | 9 | 11 => 30
  | _ => 31
  end%Z.

(** Leap years among the years [1 .. y-1]. *)
Definition leap_years_before (y : Z) : Z :=
  ((y - 1) / 4 - (y - 1) / 100 + (y - 1) / 400)%Z.

Definition days_before_year (y : Z) : Z :=
  (365 * (y - 1970) + (leap_years_before y - leap_years_before 1970))%Z.

Definition days_before_month (y m : Z) : Z :=
  fold_right Z.add 0%Z
    (List.map (fun k => days_in_month y (Z.of_nat k)) (seq 1 (Z.to_nat m - 1))).

Definition days_from_civil (y m d : Z) : Z :=
  (days_before_year y + days_before_month y m + (d - 1))%Z.

Definition valid_date (y m d : Z) : Prop :=
  (1 <= m <= 12 /\ 1 <= d <= days_in_month y m)%Z.

(** The number written by a string of decimal digits. *)
Definition decimal (s : string) : Z :=
  fold_left (fun acc c => (10 * acc + (Z.of_nat (nat_of_ascii c) - 48))%Z)
    (list_ascii_of_string s) 0%Z.

(** A check over the [n] integers from [lo] on. *)
Fixpoint all_from (P : Z -> bool) (lo : Z) (n : nat) : bool :=
  match n with
  | O => true
  | S n' => P lo && all_from P (lo + 1)%Z n'
  end.

(** What is checked of [era_date] on every day of an era. *)
Definition date_checks (doe : Z) : bool :=
  let '(y, m, d) := time.era_date doe in
  ((1 <=? m) && (m <=? 12) && (1 <=? d) && (d <=? days_in_month y m)
   && (days_from_civil y m d =? doe - 719468))%Z.

(** What is checked of a zero-padded decimal field. *)
Definition field_checks (width : nat) (x : Z) : bool :=
  Nat.eqb (String.length (time.appendInt x width)) width
  && (decimal (time.appendInt x width) =? x)%Z.

(** The object stored under [key] in [bucket], if any. *)
Definition object_at (w : World) (bucket key : string) : option minio.Object :=
  minio.buckets (s3 w) !! bucket ≫= (.!! key).

(** The service answers a request on a bucket: the bucket exists and the
    request is not refused. *)
Definition serves (w : World) (bucket : string) (req : minio.request) : Prop :=
  is_Some (minio.buckets (s3 w) !! bucket) ∧ minio.refuses (s3 w) req = None.

(** The object of [key] is absent from a backend: the file system reports
    that its path does not exist; the bucket holds no object under it. *)
Definition absent (b : Backend) (w : World) (key : string) : Prop :=
  match b with
  | Local s =>
      os.IsNotExist (os.Stat (fs w) (filepath.Join (baseDir s) key)) = true
  | Remote s => object_at w (bucket s) key = None
  end.

(** The removal request of a key is served (the local backend makes none). *)
Definition removal_served (b : Backend) (w : World) (key : string) : Prop :=
  match b with
  | Local _ => True
  | Remote s => serves w (bucket s) (minio.ReqRemove (bucket s) key)
  end.

(** [path] is the directory [dir] or lies below it. *)
Definition inside (dir path : string) : bool :=
  String.eqb path (filepath.Clean dir) || HasPrefix path (filepath.Clean dir ++ "/").

(** The entry of a listing is an object older than the object TTL. *)
Definition expired (s : S3Storage) (now : time.Time) (o : minio.ObjectInfo) : bool :=
  (objectTTL s <? time.Sub now (minio.LastModified o))%Z.

(** The characters of a scheme after the first ([getScheme]), which are also
    those of a host name. *)
Definition scheme_char (c : ascii) : bool :=
  url.is_alpha c || url.is_digit c || Ascii.eqb c "+" || Ascii.eqb c "-" || Ascii.eqb c ".".

Definition all_chars (P : ascii -> bool) (s : string) : bool :=
  forallb P (list_ascii_of_string s).

(** The sweep asks for the removal of [key]: the listing has an entry for
    it, without error, that is expired. *)
Definition removal_requested (s : S3Storage) (now : time.Time)
    (listing : list minio.ObjectInfo) (key : string) : bool :=
  existsb (fun o => bool_decide (minio.Err o = None) && expired s now o
                    && String.eqb (minio.Key o) key) listing.

(** The elements [Clean] keeps of [path], in order. *)
Definition clean_elems (rooted : bool) (path : string) : list string :=
  rev (fold_left (filepath.clean_elem rooted) (strings.Split path "/") []).

(** No separator in a string. *)
Definition no_slash (s : string) : bool :=
  all_chars (fun a => negb (Ascii.eqb a "/")) s.

(** A path element that [Clean] keeps: not empty, not [.], no separator. *)
Definition kept_elem (e : string) : bool :=
  negb (String.eqb e "") && negb (String.eqb e ".") && no_slash e.

(** A file or directory name: a kept element other than [..]. *)
Definition plain_name (e : string) : bool :=
  kept_elem e && negb (String.eqb e "..").

(** The absolute form of a name, as [resolve] builds it. *)
Definition absolute (fs : os.FS) (name : string) : string :=
  if HasPrefix name "/" then name else os.cwd fs ++ "/" ++ name.

(** Without [..] among the elements, the kept ones are pushed in order. *)
Definition skipped (e : string) : bool := String.eqb e "" || String.eqb e ".".

(** The metadata [Store] attaches to an object uploaded at [now]. *)
Definition stored_object (s : S3Storage) (now : time.Time) (data : bytes)
    (mimeType : string) : minio.Object :=
  minio.mkObject data mimeType
    [ ("created-at", time.Format_RFC3339 now);
      ("expires-at", time.Format_RFC3339 (time.Add now (objectTTL s))) ] now.

(** The keys a listing delivers. *)
Definition listed_keys (listing : list minio.ObjectInfo) : list string :=
  omap (fun o => match minio.Err o with
                 | None => Some (minio.Key o)
                 | Some _ => None
                 end) listing.

(** The characters of a plain authority: those of a host name, and the
    colon before the port. *)
Definition host_char (c : ascii) : bool := scheme_char c || Ascii.eqb c ":".

(** A white-space rune leads the list, for the runes of [trim_runes]. *)
Definition leading_space (two : ascii -> ascii -> bool)
    (three : ascii -> ascii -> ascii -> bool) (l : list ascii) : bool :=
  match l with
  | [] => false
  | a :: l1 =>
      strings.asciiSpace a
      || match l1 with
         | [] => false
         | b :: l2 =>
             two a b
             || match l2 with
                | [] => false
                | c :: _ => three a b c
                end
         end
  end.

(** The two passes of [TrimSpace]. *)
Definition trim_left (l : list ascii) : list ascii :=
  strings.trim_runes strings.space2 strings.space3 l.

Definition trim_right (l : list ascii) : list ascii :=
  rev (strings.trim_runes (fun b a => strings.space2 a b)
         (fun c b a => strings.space3 a b c) (rev l)).

Definition is_error {A : Type} (r : result A) : bool :=
  match r with Err _ => true | Ok _ => false end.

(** The media [handleUploadMedia] stores: the decoded data, or the body of
    the answer with status 200. *)
Definition media_of (http_Get : string -> result (Z * result bytes))
    (input : UploadMediaInput.t) (data : bytes) : Prop :=
  (UploadMediaInput.Data input <> ""
   /\ base64.DecodeString (UploadMediaInput.Data input) = Ok data)
  \/ (UploadMediaInput.Data input = ""
      /\ http_Get (UploadMediaInput.URL input) = Ok (200%Z, Ok data)).

(** The prefix [handleUploadMedia] stores under. *)
Definition upload_prefix (input : UploadMediaInput.t) : string :=
  if String.eqb (UploadMediaInput.Prefix input) "" then "upload"
  else UploadMediaInput.Prefix input.

(** ** Fixtures *)
Module fixtures.

Definition hello : bytes := bytes_of_string "hello world!".

(** [/srv/out] is the base directory; [/srv/secret.txt] lies outside it. *)
Definition disk : os.FS :=
  os.mkFS (list_to_map
             [ (["srv"], os.Dir); (["srv"; "out"], os.Dir);
               (["srv"; "out"; "a.png"], os.File hello);
               (["srv"; "secret.txt"], os.File hello);
               (["tmp"], os.Dir) ]) "/srv".

Definition local : LocalStorage := mkLocalStorage "/srv/out".

Definition day : Z := (86400 * time.Second)%Z.

(** 2024-12-23 13:02:03 UTC *)
Definition noon : time.Time := (1734958923 * time.Second)%Z.

Definition old_object : minio.Object :=
  minio.mkObject hello "image/png" [] (noon - 2 * day)%Z.
Definition new_object : minio.Object :=
  minio.mkObject hello "image/png" [] (noon - time.Hour)%Z.

Definition service : minio.Service :=
  minio.mkService
    {[ "media" := {[ "2024/12/21/a.png" := old_object;
                     "2024/12/23/b.png" := new_object ]} ]}
    (fun _ => None) 0
    (fun bucket key _ => "http://minio:9000/" ++ bucket ++ "/" ++ key ++ "?X-Amz-Signature=0").

Definition remote : S3Storage :=
  mkS3Storage
    (minio.mkClient "minio:9000" (minio.mkOptions "key" "secret" false "us-east-1"))
    "media" (24 * time.Hour)%Z (24 * time.Hour)%Z time.Hour 0.

Definition world : World :=
  mkWorld disk service noon {[ 0 := ChanOpen ]}
          {[ 0 := mkRoutine remote false false ]} 0.

(** The same service when the credentials may not delete: every removal is
    refused. *)
Definition denying_service : minio.Service :=
  minio.mkService (minio.buckets service)
    (fun req => match req with
                | minio.ReqRemove _ _ => Some "Access Denied."
                | _ => None
                end)
    0 (minio.sign service).

Definition denying_world : World :=
  mkWorld disk denying_service noon {[ 0 := ChanOpen ]}
          {[ 0 := mkRoutine remote false false ]} 0.

(** A configuration with a bare [host:port] endpoint and TLS asked for. *)
Definition minio_config : S3Config :=
  mkS3Config "minio:9000" "key" "secret" "us-east-1" "media" true
    (24 * time.Hour)%Z (24 * time.Hour)%Z time.Hour.

End fixtures.


(** * Properties *)

(** ** Test vectors of the library models *)

Example Sum256_abc :
  hex.EncodeToString (sha256.Sum256 (bytes_of_string "abc"))
  = "ba7816bf8f01cfea414140de5dae2223b00361a396177a9cb410ff61f20015ad".
Proof. vm_compute. reflexivity. Qed.

Example Sum256_empty :
  hex.EncodeToString (sha256.Sum256 [])
  = "e3b0c44298fc1c149afbf4c8996fb92427ae41e4649b934ca495991b7852b855".
Proof. vm_compute. reflexivity. Qed.

Example Sum256_two_blocks :
  hex.EncodeToString (sha256.Sum256 (bytes_of_string
    "abcdbcdecdefdefgefghfghighijhijkijkljklmklmnlmnomnopnopq"))
  = "248d6a61d20638b8e5c026930c3e6039a33ce45964ff2167f6ecedd419db06c1".
Proof. vm_compute. reflexivity. Qed.

Example Clean_examples :
  filepath.Clean "/srv/out/../secret.txt" = "/srv/secret.txt"
  /\ filepath.Clean "a//b/./c/.." = "a/b"
  /\ filepath.Clean "../../a" = "../../a"
  /\ filepath.Clean "/../a/" = "/a"
  /\ filepath.Clean "a/../.." = ".."
  /\ filepath.Clean "" = "."
  /\ filepath.Clean "/" = "/".
Proof. repeat split. Qed.

(** The cases of the test table of [path/filepath] for [Clean]. *)
Example Clean_table :
  forallb (fun t => String.eqb (filepath.Clean t.1) t.2)
    [ ("abc", "abc"); ("abc/def", "abc/def"); ("a/b/c", "a/b/c"); (".", ".");
      ("..", ".."); ("../..", "../.."); ("../../abc", "../../abc");
      ("/abc", "/abc"); ("/", "/"); ("", "."); ("abc/", "abc");
      ("abc/def/", "abc/def"); ("a/b/c/", "a/b/c"); ("./", "."); ("../", "..");
      ("../../", "../.."); ("/abc/", "/abc"); ("abc//def//ghi", "abc/def/ghi");
      ("//abc", "/abc"); ("///abc", "/abc"); ("//abc//", "/abc"); ("abc//", "abc");
      ("abc/./def", "abc/def"); ("/./abc/def", "/abc/def"); ("abc/.", "abc");
      ("abc/def/ghi/../jkl", "abc/def/jkl"); ("abc/def/../ghi/../jkl", "abc/jkl");
      ("abc/def/..", "abc"); ("abc/def/../..", "."); ("/abc/def/../..", "/");
      ("abc/def/../../..", ".."); ("/abc/def/../../..", "/");
      ("abc/def/../../../ghi/jkl/../../../mno", "../../mno"); ("/../abc", "/abc");
      ("abc/./../def", "def"); ("abc//./../def", "def");
      ("abc/../../././../def", "../../def") ]
  = true.
Proof. vm_compute. reflexivity. Qed.

Example Join_examples :
  filepath.Join "./output" "test_ab.png" = "output/test_ab.png"
  /\ filepath.Join "/srv/out" "" = "/srv/out"
  /\ filepath.Join "" "../x" = "../x"
  /\ filepath.Join "" "" = "".
Proof. repeat split. Qed.

Example Format_examples :
  time.Format_date 0%Z = "1970/01/01"
  /\ time.Format_date (-1)%Z = "1969/12/31"
  /\ time.Format_date (1709251199 * time.Second)%Z = "2024/02/29"
  /\ time.Format_date (1709251200 * time.Second)%Z = "2024/03/01"
  /\ time.Format_date fixtures.noon = "2024/12/23"
  /\ time.Format_RFC3339 fixtures.noon = "2024-12-23T13:02:03Z"
  /\ time.Format_date (253402300800 * time.Second)%Z = "10000/01/01".
Proof. repeat split. Qed.

Example Parse_examples :
  url.Parse url.hostport_authority "https://s3.amazonaws.com"
  = Ok (url.mkURL "https" "" "s3.amazonaws.com")
  /\ url.Parse url.hostport_authority "HTTP://minio:9000/x?y#z"
     = Ok (url.mkURL "http" "" "minio:9000")
  /\ url.Parse url.hostport_authority "s3.amazonaws.com"
     = Ok (url.mkURL "" "" "")
  /\ url.Parse url.hostport_authority "127.0.0.1:9000"
     = Err ("parse " ++ url.Quote "127.0.0.1:9000"
            ++ ": first path segment in URL cannot contain colon")
  /\ url.Parse url.hostport_authority "mailto:webmaster@golang.org"
     = Ok (url.mkURL "mailto" "webmaster@golang.org" "")
  /\ url.Parse url.hostport_authority "localhost:8080"
     = Ok (url.mkURL "localhost" "8080" "")
  /\ url.Parse url.hostport_authority ":9000"
     = Err ("parse " ++ url.Quote ":9000" ++ ": missing protocol scheme")
  /\ url.Parse url.hostport_authority "http://minio:9000/a%zz"
     = Err ("parse " ++ url.Quote "http://minio:9000/a%zz" ++ ": "
            ++ url.EscapeError "%zz").
Proof. repeat split. Qed.

Example parseEndpoint_examples :
  parseEndpoint url.hostport_authority "https://s3.amazonaws.com" false
  = ("s3.amazonaws.com", true)
  /\ parseEndpoint url.hostport_authority "http://minio:9000" true = ("minio:9000", false)
  /\ parseEndpoint url.hostport_authority "s3.amazonaws.com" true = ("s3.amazonaws.com", true)
  /\ parseEndpoint url.hostport_authority "127.0.0.1:9000" true = ("127.0.0.1:9000", true).
Proof. repeat split. Qed.

Example os_examples :
  os.Stat fixtures.disk "/srv/out/a.png" = None
  /\ os.Stat fixtures.disk "out/a.png" = None
  /\ os.Stat fixtures.disk "/srv/out/b.png"
     = Some (os.mkPathError "stat" "/srv/out/b.png" os.ENOENT)
  /\ os.Stat fixtures.disk "/srv/out/a.png/b"
     = Some (os.mkPathError "stat" "/srv/out/a.png/b" os.ENOTDIR)
  /\ (os.Remove fixtures.disk "/srv/out").2
     = Some (os.mkPathError "remove" "/srv/out" os.ENOTEMPTY)
  /\ (os.Remove (os.Remove fixtures.disk "/srv/out/a.png").1 "/srv/out").2 = None
  /\ (os.WriteFile fixtures.disk "/srv/nodir/x" []).2
     = Some (os.mkPathError "open" "/srv/nodir/x" os.ENOENT).
Proof. repeat split; vm_compute; reflexivity. Qed.

(** Scenario 1 of the specification: [Store] of the twelve bytes of
    [hello world!] as [image/png] with the prefix [test] on the local backend
    creates [test_<16 hex characters>.png] under the base directory, holding
    exactly those bytes. *)
Example local_Store_hello :
  (LocalStorage.Store fixtures.local fixtures.disk fixtures.hello "image/png" "test").2
  = Ok (mkStorageResult "/srv/out/test_7509e5bda0c762d2.png"
          "test_7509e5bda0c762d2.png"
          "7509e5bda0c762d2bac7f90d758b5b2263fa01ccbc542ab5e3df163be08e6ca9"
          None "image/png" 12)
  /\ os.lookup
       (LocalStorage.Store fixtures.local fixtures.disk fixtures.hello "image/png" "test").1
       "/srv/out/test_7509e5bda0c762d2.png"
     = inr (os.File fixtures.hello)
  /\ length fixtures.hello = 12.
Proof. repeat split; vm_compute; reflexivity. Qed.

(** The cleanup action of a remote [Retrieve] removes the transient file
    the call wrote. *)
Example remote_Retrieve_cleanup :
  let r := S3Storage.Retrieve fixtures.remote fixtures.world "2024/12/21/a.png" in
  r.2 = Ok ("/tmp/s3-retrieve-0", Some (cleanup_remove "/tmp/s3-retrieve-0"))
  /\ os.lookup (fs r.1) "/tmp/s3-retrieve-0" = inr (os.File fixtures.hello)
  /\ os.lookup (run_cleanup (cleanup_remove "/tmp/s3-retrieve-0") (fs r.1))
       "/tmp/s3-retrieve-0" = inl os.ENOENT.
Proof. repeat split; vm_compute; reflexivity. Qed.

Example sweep_report :
  (S3Storage.cleanupExpiredObjects fixtures.remote fixtures.world).2
  = mkSweepReport 1 0 ["S3 cleanup completed: deleted 1 objects, 0 errors"].
Proof. vm_compute. reflexivity. Qed.


(** ** Strings, hexadecimal encoding and the digest *)

Lemma append_empty_r (s : string) : s ++ "" = s.
Proof.
  induction s as [|c s IH]; [reflexivity |].
  change (String c (s ++ "") = String c s). f_equal. exact IH.
Qed.

Lemma append_assoc (s1 s2 s3 : string) : (s1 ++ s2) ++ s3 = s1 ++ (s2 ++ s3).
Proof.
  induction s1 as [|c s1 IH]; [reflexivity |].
  change (String c ((s1 ++ s2) ++ s3) = String c (s1 ++ (s2 ++ s3))).
  f_equal. exact IH.
Qed.

Lemma slice_to_length (s : string) (n : nat) :
  n <= String.length s -> String.length (slice_to s n) = n.
Proof.
  unfold slice_to. revert n.
  induction s as [|c s IH]; intros [|n] Hn; simpl in *; try reflexivity; try lia.
  rewrite IH; [reflexivity | lia].
Qed.

Lemma slice_to_prefix (s : string) (n : nat) :
  HasPrefix s (slice_to s n) = true.
Proof.
  unfold HasPrefix, slice_to. revert n.
  induction s as [|c s IH]; intros [|n]; simpl; try reflexivity.
  destruct (ascii_dec c c) as [_|Hne]; [apply IH | congruence].
Qed.

Lemma EncodeToString_length (src : bytes) :
  String.length (hex.EncodeToString src) = 2 * length src.
Proof. induction src as [|v src IH]; simpl; [reflexivity | rewrite IH; lia]. Qed.

Lemma hextable_lower (n : Z) : lower_hex_digit (hex.hextable n) = true.
Proof.
  unfold hex.hextable.
  repeat match goal with
         | |- context [match ?x with _ => _ end] => destruct x
         end; reflexivity.
Qed.

Lemma EncodeToString_lower (src : bytes) :
  forallb lower_hex_digit (list_ascii_of_string (hex.EncodeToString src)) = true.
Proof.
  induction src as [|v src IH]; simpl; [reflexivity |].
  rewrite !hextable_lower, IH. reflexivity.
Qed.

Lemma hex_digits_of_byte (v : byte) :
  byte_of_Z (16 * unhex (hex.hextable (Z.shiftr (byte_to_Z v) 4))
             + unhex (hex.hextable (Z.land (byte_to_Z v) 15))) = v.
Proof. destruct v; vm_compute; reflexivity. Qed.

Lemma hex_decode_encode (src : bytes) :
  hex_decode (hex.EncodeToString src) = src.
Proof.
  induction src as [|v src IH]; [reflexivity |].
  cbn [hex.EncodeToString hex_decode]. rewrite hex_digits_of_byte, IH. reflexivity.
Qed.

Lemma be_bytes_length (n : nat) (x : Z) : length (sha256.be_bytes n x) = n.
Proof. unfold sha256.be_bytes. rewrite length_map, length_rev, length_seq. reflexivity. Qed.

(** [Sum256] returns a [[32]byte]. *)
Lemma Sum256_length (data : bytes) : length (sha256.Sum256 data) = 32.
Proof.
  unfold sha256.Sum256, sha256.digest.
  rewrite length_map, !length_app, !be_bytes_length. reflexivity.
Qed.

(** The content hash has 64 characters, so [contentHash[:16]] never panics
    and has 16 of them. *)
Lemma content_hash_length (data : bytes) :
  String.length (hex.EncodeToString (sha256.Sum256 data)) = 64.
Proof. rewrite EncodeToString_length, Sum256_length. reflexivity. Qed.

Lemma hash16_length (data : bytes) :
  String.length (slice_to (hex.EncodeToString (sha256.Sum256 data)) 16) = 16.
Proof. apply slice_to_length. rewrite content_hash_length. lia. Qed.

(** The padded message is a whole number of 64-byte blocks. *)
Lemma pad_length (msg : list Z) : (64 | length (sha256.pad msg)).
Proof.
  unfold sha256.pad. rewrite !length_app, repeat_length, be_bytes_length. simpl length.
  set (len := Z.of_nat (length msg)).
  assert (H : (0 <= (55 - len) mod 64 < 64)%Z) by (apply Z.mod_pos_bound; lia).
  assert (Hd : (64 | len + 1 + (55 - len) mod 64 + 8)%Z).
  { exists ((len + 9 + (55 - len) mod 64) / 64)%Z.
    pose proof (Z.div_mod (55 - len) 64 ltac:(lia)) as E.
    pose proof (Z.div_mod (len + 9 + (55 - len) mod 64) 64 ltac:(lia)) as E2.
    assert ((len + 9 + (55 - len) mod 64) mod 64 = 0)%Z; [| lia].
    replace (len + 9 + (55 - len) mod 64)%Z
      with (((55 - len) mod 64 - (55 - len)) + 64)%Z by lia.
    rewrite <- Z.add_mod_idemp_r by lia. simpl (64 mod 64)%Z.
    rewrite Z.add_0_r, Zminus_mod_idemp_l, Z.sub_diag. reflexivity. }
  destruct Hd as [k Hk]. exists (Z.to_nat k). unfold len in *. lia.
Qed.

(* The digest is a black box from here on: proofs never compute it on a
   symbolic payload. *)
#[global] Opaque sha256.Sum256.

(** ** The MIME table *)

(** [ExtensionFromMIME] is the lookup in the table of the specification. *)
Lemma ExtensionFromMIME_table (mimeType : string) :
  ExtensionFromMIME mimeType = table_extension mimeType.
Proof.
  unfold ExtensionFromMIME, table_extension.
  repeat match goal with
         | |- context [String.eqb ?a ?b] =>
             destruct (String.eqb_spec a b) as [-> | ?]; [vm_compute; reflexivity |]
         end.
  rewrite (not_elem_of_list_to_map_1 (M := gmap string)); [reflexivity |].
  unfold mime_table. cbn [fmap list_fmap fst].
  rewrite !elem_of_cons, elem_of_nil. intuition congruence.
Qed.

Lemma ExtensionFromMIME_unknown (mimeType : string) :
  mimeType ∉ mime_table.*1 -> ExtensionFromMIME mimeType = "".
Proof.
  intros H. rewrite ExtensionFromMIME_table. unfold table_extension.
  rewrite (not_elem_of_list_to_map_1 (M := gmap string)); [reflexivity | exact H].
Qed.

(** ** What a successful [Store] returns *)

Lemma LocalStorage_Store_ok (s : LocalStorage) (fs fs' : os.FS)
    (data : bytes) (mimeType prefix : string) (r : StorageResult) :
  LocalStorage.Store s fs data mimeType prefix = (fs', Ok r) ->
  let contentHash := hex.EncodeToString (sha256.Sum256 data) in
  let filename := prefix ++ "_" ++ slice_to contentHash 16 ++ ExtensionFromMIME mimeType in
  r = mkStorageResult (filepath.Join (baseDir s) filename) filename contentHash
        None mimeType (Z.of_nat (length data))
  /\ os.WriteFile fs (filepath.Join (baseDir s) filename) data = (fs', None).
Proof.
  unfold LocalStorage.Store. cbv zeta. intros H.
  destruct (os.WriteFile _ _ _) as [fs1 [err|]] eqn:E; inversion H; subst.
  split; reflexivity.
Qed.

Lemma S3Storage_Store_ok (s : S3Storage) (w w' : World)
    (data : bytes) (mimeType prefix : string) (r : StorageResult) :
  S3Storage.Store s w data mimeType prefix = (w', Ok r) ->
  let contentHash := hex.EncodeToString (sha256.Sum256 data) in
  let objectKey := (time.Format_date (clock w) ++ "/" ++ prefix ++ "_"
                    ++ slice_to contentHash 16 ++ ExtensionFromMIME mimeType) in
  exists presignedURL,
    r = mkStorageResult presignedURL objectKey contentHash
          (Some (time.Add (clock w) (presignTTL s))) mimeType (Z.of_nat (length data))
    /\ minio.PresignedGetObject (s3 w') (bucket s) objectKey (presignTTL s) = Ok presignedURL
    /\ object_at w' (bucket s) objectKey <> None.
Proof.
  unfold S3Storage.Store. cbv zeta. intros H.
  destruct (minio.PutObject _ _ _ _ _ _) as [svc [err|]] eqn:Eput; [inversion H |].
  destruct (minio.PresignedGetObject _ _ _ _) as [u|err] eqn:Esign; inversion H; subst.
  exists u. split; [reflexivity |]. split; [exact Esign |].
  unfold minio.PutObject in Eput.
  destruct (minio.refuses _ _); [inversion Eput |].
  destruct (minio.buckets (s3 w) !! bucket s) as [objs|] eqn:Eb; inversion Eput; subst.
  unfold object_at. cbn. rewrite lookup_insert_eq. cbn. rewrite lookup_insert_eq. discriminate.
Qed.

Lemma Backend_Store_ok (b : Backend) (w w' : World)
    (data : bytes) (mimeType prefix : string) (r : StorageResult) :
  Store b w data mimeType prefix = (w', Ok r) ->
  match b with
  | Local s => exists fs', LocalStorage.Store s (fs w) data mimeType prefix = (fs', Ok r)
  | Remote s => S3Storage.Store s w data mimeType prefix = (w', Ok r)
  end.
Proof.
  destruct b as [s|s]; cbn; intros H; [| exact H].
  destruct (LocalStorage.Store _ _ _ _ _) as [fs' r'] eqn:E.
  inversion H; subst. exists fs'. reflexivity.
Qed.

Lemma Store_ContentHash (b : Backend) (w w' : World)
    (data : bytes) (mimeType prefix : string) (r : StorageResult) :
  Store b w data mimeType prefix = (w', Ok r) ->
  ContentHash r = hex.EncodeToString (sha256.Sum256 data).
Proof.
  intros H. apply Backend_Store_ok in H. destruct b as [s|s].
  - destruct H as [fs' H]. apply LocalStorage_Store_ok in H as [-> _]. reflexivity.
  - apply S3Storage_Store_ok in H as (u & -> & _). reflexivity.
Qed.

(** C1: on either backend a successful [Store] of the payload [d] returns as
    content hash the lowercase hexadecimal encoding of SHA-256 of [d] (64
    digits that read back as the digest), and any other successful [Store]
    of the same payload returns the same content hash. *)
Theorem store_content_hash (b1 b2 : Backend) (w1 w1' w2 w2' : World)
    (d : bytes) (m1 p1 m2 p2 : string) (r1 r2 : StorageResult) :
  Store b1 w1 d m1 p1 = (w1', Ok r1) ->
  Store b2 w2 d m2 p2 = (w2', Ok r2) ->
  ContentHash r1 = hex.EncodeToString (sha256.Sum256 d)
  /\ hex_decode (ContentHash r1) = sha256.Sum256 d
  /\ forallb lower_hex_digit (list_ascii_of_string (ContentHash r1)) = true
  /\ String.length (ContentHash r1) = 64
  /\ ContentHash r2 = ContentHash r1.
Proof.
  intros H1 H2. apply Store_ContentHash in H1, H2. rewrite H1, H2.
  split; [reflexivity |].
  split; [apply hex_decode_encode |].
  split; [apply EncodeToString_lower |].
  split; [apply content_hash_length | reflexivity].
Qed.

Lemma store_content_hash_witness :
  ContentHash (mkStorageResult "/srv/out/test_7509e5bda0c762d2.png"
                 "test_7509e5bda0c762d2.png"
                 "7509e5bda0c762d2bac7f90d758b5b2263fa01ccbc542ab5e3df163be08e6ca9"
                 None "image/png" 12)
  = hex.EncodeToString (sha256.Sum256 fixtures.hello).
Proof.
  refine (proj1 (store_content_hash
            (Local fixtures.local) (Remote fixtures.remote)
            fixtures.world
            (Store (Local fixtures.local) fixtures.world fixtures.hello "image/png" "test").1
            fixtures.world
            (Store (Remote fixtures.remote) fixtures.world fixtures.hello "video/mp4" "clip").1
            fixtures.hello "image/png" "test" "video/mp4" "clip" _
            (mkStorageResult
               "http://minio:9000/media/2024/12/23/clip_7509e5bda0c762d2.mp4?X-Amz-Signature=0"
               "2024/12/23/clip_7509e5bda0c762d2.mp4"
               "7509e5bda0c762d2bac7f90d758b5b2263fa01ccbc542ab5e3df163be08e6ca9"
               (Some (fixtures.noon + 24 * time.Hour)%Z) "video/mp4" 12) _ _));
    vm_compute; reflexivity.
Defined.

(** C5: a successful local [Store] returns as object key the prefix, an
    underscore, the first 16 hexadecimal characters of SHA-256 of the payload
    and the extension of the MIME type in the table (empty for a type that is
    not in it); a second [Store] of the same bytes, prefix and MIME type
    returns the same object key. *)
Theorem local_object_key (s1 s2 : LocalStorage) (fs1 fs1' fs2 fs2' : os.FS)
    (d : bytes) (m p : string) (r1 r2 : StorageResult) :
  LocalStorage.Store s1 fs1 d m p = (fs1', Ok r1) ->
  LocalStorage.Store s2 fs2 d m p = (fs2', Ok r2) ->
  let hash16 := slice_to (hex.EncodeToString (sha256.Sum256 d)) 16 in
  ObjectKey r1 = p ++ "_" ++ hash16 ++ table_extension m
  /\ String.length hash16 = 16
  /\ HasPrefix (ContentHash r1) hash16 = true
  /\ (m ∉ mime_table.*1 -> ObjectKey r1 = p ++ "_" ++ hash16)
  /\ ObjectKey r2 = ObjectKey r1.
Proof.
  intros H1 H2 hash16.
  apply LocalStorage_Store_ok in H1 as [-> _], H2 as [-> _]. cbn [ObjectKey ContentHash].
  fold hash16. split; [rewrite ExtensionFromMIME_table; reflexivity |].
  split; [apply hash16_length |].
  split; [apply slice_to_prefix |].
  split; [| reflexivity].
  intros Hm. rewrite (ExtensionFromMIME_unknown m Hm).
  rewrite (append_empty_r hash16). reflexivity.
Qed.

Lemma local_object_key_witness :
  ObjectKey (mkStorageResult "/srv/out/test_7509e5bda0c762d2.png"
               "test_7509e5bda0c762d2.png"
               "7509e5bda0c762d2bac7f90d758b5b2263fa01ccbc542ab5e3df163be08e6ca9"
               None "image/png" 12)
  = "test" ++ "_" ++ slice_to (hex.EncodeToString (sha256.Sum256 fixtures.hello)) 16
    ++ table_extension "image/png".
Proof.
  refine (proj1 (local_object_key fixtures.local (mkLocalStorage "/srv")
            fixtures.disk
            (LocalStorage.Store fixtures.local fixtures.disk fixtures.hello "image/png" "test").1
            fixtures.disk
            (LocalStorage.Store (mkLocalStorage "/srv") fixtures.disk fixtures.hello "image/png" "test").1
            fixtures.hello "image/png" "test" _
            (mkStorageResult "/srv/test_7509e5bda0c762d2.png"
               "test_7509e5bda0c762d2.png"
               "7509e5bda0c762d2bac7f90d758b5b2263fa01ccbc542ab5e3df163be08e6ca9"
               None "image/png" 12) _ _));
    vm_compute; reflexivity.
Defined.

(** C9: a successful [Store] on the local backend returns no expiry, and on
    the remote backend the expiry is the time of the [Store] call plus the
    presign TTL of the storage. *)
Theorem store_expires_at (b : Backend) (w w' : World)
    (d : bytes) (m p : string) (r : StorageResult) :
  Store b w d m p = (w', Ok r) ->
  ExpiresAt r = match b with
                | Local _ => None
                | Remote s => Some (clock w + presignTTL s)%Z
                end.
Proof.
  intros H. apply Backend_Store_ok in H. destruct b as [s|s].
  - destruct H as [fs' H]. apply LocalStorage_Store_ok in H as [-> _]. reflexivity.
  - apply S3Storage_Store_ok in H as (u & -> & _). reflexivity.
Qed.

Lemma store_expires_at_witness :
  ExpiresAt (mkStorageResult "/srv/out/test_7509e5bda0c762d2.png"
               "test_7509e5bda0c762d2.png"
               "7509e5bda0c762d2bac7f90d758b5b2263fa01ccbc542ab5e3df163be08e6ca9"
               None "image/png" 12) = None
  /\ ExpiresAt (mkStorageResult
               "http://minio:9000/media/2024/12/23/clip_7509e5bda0c762d2.mp4?X-Amz-Signature=0"
               "2024/12/23/clip_7509e5bda0c762d2.mp4"
               "7509e5bda0c762d2bac7f90d758b5b2263fa01ccbc542ab5e3df163be08e6ca9"
               (Some (fixtures.noon + 24 * time.Hour)%Z) "video/mp4" 12)
     = Some (clock fixtures.world + presignTTL fixtures.remote)%Z.
Proof.
  split.
  - refine (store_expires_at (Local fixtures.local) fixtures.world
              (Store (Local fixtures.local) fixtures.world fixtures.hello "image/png" "test").1
              fixtures.hello "image/png" "test" _ _).
    vm_compute; reflexivity.
  - refine (store_expires_at (Remote fixtures.remote) fixtures.world
              (Store (Remote fixtures.remote) fixtures.world fixtures.hello "video/mp4" "clip").1
              fixtures.hello "video/mp4" "clip" _ _).
    vm_compute; reflexivity.
Defined.


(** ** The calendar *)

Lemma all_from_spec (P : Z -> bool) (n : nat) (lo : Z) :
  all_from P lo n = true -> forall x, (lo <= x < lo + Z.of_nat n)%Z -> P x = true.
Proof.
  revert lo. induction n as [|n IH]; intros lo H x Hx; [lia |].
  cbn [all_from] in H. apply andb_true_iff in H as [H0 H1].
  destruct (Z.eq_dec x lo) as [-> | Hne]; [exact H0 |].
  apply (IH (lo + 1)%Z H1). lia.
Qed.

Lemma era_date_checked (doe : Z) :
  (0 <= doe < 146097)%Z -> date_checks doe = true.
Proof.
  intros H. apply (all_from_spec date_checks (Z.to_nat 146097) 0%Z); [| lia].
  vm_compute. reflexivity.
Qed.

Lemma appendInt_2_checked (x : Z) : (0 <= x < 100)%Z -> field_checks 2 x = true.
Proof.
  intros H. apply (all_from_spec (field_checks 2) 100 0%Z); [| lia].
  vm_compute. reflexivity.
Qed.

Lemma appendInt_4_checked (x : Z) : (0 <= x < 10000)%Z -> field_checks 4 x = true.
Proof.
  intros H. apply (all_from_spec (field_checks 4) (Z.to_nat 10000) 0%Z); [| lia].
  vm_compute. reflexivity.
Qed.

Lemma is_leap_period (y k : Z) : is_leap (y + k * 400) = is_leap y.
Proof.
  unfold is_leap.
  replace (y + k * 400)%Z with (y + (k * 100) * 4)%Z at 1 by lia.
  replace (y + k * 400)%Z with (y + (k * 4) * 100)%Z at 1 by lia.
  rewrite !Z_mod_plus_full. reflexivity.
Qed.

Lemma leap_years_before_period (y k : Z) :
  leap_years_before (y + k * 400) = (leap_years_before y + 97 * k)%Z.
Proof.
  unfold leap_years_before.
  replace (y + k * 400 - 1)%Z with (y - 1 + (k * 100) * 4)%Z at 1 by lia.
  replace (y + k * 400 - 1)%Z with (y - 1 + (k * 4) * 100)%Z at 1 by lia.
  replace (y + k * 400 - 1)%Z with (y - 1 + k * 400)%Z by lia.
  rewrite !Z.div_add by lia. lia.
Qed.

Lemma days_in_month_period (y k m : Z) :
  days_in_month (y + k * 400) m = days_in_month y m.
Proof. unfold days_in_month. rewrite is_leap_period. reflexivity. Qed.

Lemma days_from_civil_period (y k m d : Z) :
  days_from_civil (y + k * 400) m d = (days_from_civil y m d + 146097 * k)%Z.
Proof.
  unfold days_from_civil, days_before_year, days_before_month.
  rewrite leap_years_before_period.
  rewrite (List.map_ext _ (fun k0 => days_in_month y (Z.of_nat k0)))
    by (intros; apply days_in_month_period).
  lia.
Qed.

(** The date computed for a day is a date of the calendar, and it is that
    day's date: counting the days up to it gives the day back. *)
Lemma civil_spec (z y m d : Z) :
  time.civil z = (y, m, d) -> valid_date y m d /\ days_from_civil y m d = z.
Proof.
  unfold time.civil.
  set (z' := (z + 719468)%Z). set (era := (z' / 146097)%Z).
  assert (Hdoe : (0 <= z' - era * 146097 < 146097)%Z).
  { pose proof (Z.div_mod z' 146097 ltac:(lia)).
    pose proof (Z.mod_pos_bound z' 146097 ltac:(lia)). unfold era. lia. }
  pose proof (era_date_checked _ Hdoe) as Hc. unfold date_checks in Hc.
  destruct (time.era_date _) as [[y0 m0] d0].
  intros [= <- <- <-].
  rewrite !andb_true_iff in Hc. destruct Hc as ((((H1 & H2) & H3) & H4) & H5).
  unfold valid_date. rewrite days_in_month_period, days_from_civil_period.
  lia.
Qed.

Lemma Format_date_fields (t : time.Time) (y m d : Z) :
  time.Date t = (y, m, d) ->
  time.Format_date t
  = time.appendInt y 4 ++ "/" ++ time.appendInt m 2 ++ "/" ++ time.appendInt d 2.
Proof. unfold time.Format_date. intros ->. reflexivity. Qed.

Lemma days_in_month_le (y m : Z) : (days_in_month y m <= 31)%Z.
Proof.
  unfold days_in_month.
  repeat match goal with
         | |- context [match ?x with _ => _ end] => destruct x
         end; lia.
Qed.

(** C4: a successful remote [Store] returns the object key
    [<YYYY>/<MM>/<DD>/<prefix>_<hash16><ext>]: the three date fields are the
    year, month and day of the UTC calendar date of the clock at the call,
    in decimal, zero-padded to four, two and two digits; [hash16] is the
    first 16 hexadecimal characters of SHA-256 of the payload; [ext] is the
    extension of the MIME type in the table. *)
Theorem remote_object_key (s : S3Storage) (w w' : World)
    (d : bytes) (m p : string) (r : StorageResult) (year month day : Z) :
  S3Storage.Store s w d m p = (w', Ok r) ->
  time.Date (clock w) = (year, month, day) ->
  let hash16 := slice_to (hex.EncodeToString (sha256.Sum256 d)) 16 in
  ObjectKey r = time.appendInt year 4 ++ "/" ++ time.appendInt month 2 ++ "/"
                ++ time.appendInt day 2 ++ "/" ++ p ++ "_" ++ hash16 ++ table_extension m
  /\ String.length hash16 = 16
  /\ (valid_date year month day
      /\ days_from_civil year month day = time.unix_days (clock w))
  /\ (String.length (time.appendInt month 2) = 2
      /\ decimal (time.appendInt month 2) = month)
  /\ (String.length (time.appendInt day 2) = 2
      /\ decimal (time.appendInt day 2) = day)
  /\ ((0 <= year <= 9999)%Z ->
      String.length (time.appendInt year 4) = 4
      /\ decimal (time.appendInt year 4) = year).
Proof.
  intros H Hdate hash16.
  apply S3Storage_Store_ok in H as (u & -> & _). cbn [ObjectKey].
  rewrite (Format_date_fields _ _ _ _ Hdate), ExtensionFromMIME_table.
  unfold time.Date in Hdate. apply civil_spec in Hdate as [[Hm Hd] Hdays].
  pose proof (days_in_month_le year month) as Hle.
  assert (Hfield : forall width x, field_checks width x = true ->
            String.length (time.appendInt x width) = width
            /\ decimal (time.appendInt x width) = x).
  { unfold field_checks. intros width x Hx.
    apply andb_true_iff in Hx as [H1 H2].
    apply Nat.eqb_eq in H1. apply Z.eqb_eq in H2. split; assumption. }
  split; [rewrite !append_assoc; reflexivity |].
  split; [apply hash16_length |].
  split; [split; [split; assumption | exact Hdays] |].
  split; [apply Hfield, appendInt_2_checked; lia |].
  split; [apply Hfield, appendInt_2_checked; lia |].
  intros Hy. apply Hfield, appendInt_4_checked; lia.
Qed.

Lemma remote_object_key_witness :
  ObjectKey (mkStorageResult
               "http://minio:9000/media/2024/12/23/clip_7509e5bda0c762d2.mp4?X-Amz-Signature=0"
               "2024/12/23/clip_7509e5bda0c762d2.mp4"
               "7509e5bda0c762d2bac7f90d758b5b2263fa01ccbc542ab5e3df163be08e6ca9"
               (Some (fixtures.noon + 24 * time.Hour)%Z) "video/mp4" 12)
  = time.appendInt 2024 4 ++ "/" ++ time.appendInt 12 2 ++ "/" ++ time.appendInt 23 2
    ++ "/" ++ "clip" ++ "_"
    ++ slice_to (hex.EncodeToString (sha256.Sum256 fixtures.hello)) 16
    ++ table_extension "video/mp4".
Proof.
  refine (proj1 (remote_object_key fixtures.remote fixtures.world
            (S3Storage.Store fixtures.remote fixtures.world fixtures.hello "video/mp4" "clip").1
            fixtures.hello "video/mp4" "clip" _ 2024 12 23 _ _));
    vm_compute; reflexivity.
Defined.

(** ** The file system *)

Lemma resolve_remove_node (fs : os.FS) (name name' : string) :
  os.resolve (os.remove_node fs name) name' = os.resolve fs name'.
Proof. reflexivity. Qed.

Lemma node_at_remove_ne (fs : os.FS) (name : string) (q : list string) :
  q <> os.resolve fs name ->
  os.node_at (os.remove_node fs name) q = os.node_at fs q.
Proof.
  intros Hne. destruct q as [|e q]; [reflexivity |].
  cbn. apply lookup_delete_ne. congruence.
Qed.

(** A path that was found is gone once its node is removed: the directories
    leading to it are still there, the last element is not. *)
Lemma walk_remove_node (fs : os.FS) (name : string) (rest pre : list string) (n : os.node) :
  (pre ++ rest)%list = os.resolve fs name ->
  os.resolve fs name <> [] ->
  os.walk fs pre rest = inr n ->
  os.walk (os.remove_node fs name) pre rest = inl os.ENOENT.
Proof.
  revert pre. induction rest as [|e rest IH]; intros pre Hp Hne Hw.
  - rewrite app_nil_r in Hp. subst pre. cbn.
    destruct (os.resolve fs name) as [|e q] eqn:E; [congruence |].
    cbn. rewrite E, lookup_delete_eq. reflexivity.
  - cbn in Hw |- *.
    rewrite node_at_remove_ne.
    2:{ intros Heq. rewrite <- Hp in Heq.
        apply (f_equal length) in Heq. rewrite length_app in Heq. cbn in Heq. lia. }
    destruct (os.node_at fs pre) as [[data|]|]; try discriminate.
    apply IH; [rewrite <- app_assoc; exact Hp | exact Hne | exact Hw].
Qed.

Lemma lookup_remove_node (fs : os.FS) (name : string) (n : os.node) :
  os.lookup fs name = inr n ->
  os.resolve fs name <> [] ->
  os.lookup (os.remove_node fs name) name = inl os.ENOENT.
Proof.
  unfold os.lookup. destruct (String.eqb name ""); [discriminate |].
  intros Hw Hne. rewrite resolve_remove_node.
  apply (walk_remove_node fs name _ [] n); [reflexivity | exact Hne | exact Hw].
Qed.

Lemma lookup_File_not_root (fs : os.FS) (name : string) (data : bytes) :
  os.lookup fs name = inr (os.File data) -> os.resolve fs name <> [].
Proof.
  unfold os.lookup. destruct (String.eqb name ""); [discriminate |].
  intros Hw Hnil. rewrite Hnil in Hw. discriminate.
Qed.

(** [os.Remove] on a path that does not exist changes nothing and reports
    [ENOENT]. *)
Lemma Remove_ENOENT (fs : os.FS) (name : string) :
  os.lookup fs name = inl os.ENOENT ->
  os.Remove fs name = (fs, Some (os.mkPathError "remove" name os.ENOENT)).
Proof. intros H. unfold os.Remove, os.Unlink, os.Rmdir. rewrite H. reflexivity. Qed.

(** Whenever [os.Remove] succeeds, or fails because the path does not exist,
    the path does not exist afterwards. *)
Lemma Remove_gone (fs fs' : os.FS) (name : string) (err : option os.PathError) :
  os.Remove fs name = (fs', err) ->
  err = None \/ os.IsNotExist err = true ->
  os.lookup fs' name = inl os.ENOENT.
Proof.
  unfold os.Remove, os.Unlink, os.Rmdir.
  destruct (os.lookup fs name) as [e|[data|]] eqn:El.
  - intros [= <- <-] [Hn|Hn]; [discriminate |].
    destruct e; cbn in Hn; try discriminate. exact El.
  - intros [= <- <-] _. eapply lookup_remove_node; [exact El |].
    eapply lookup_File_not_root; exact El.
  - destruct (os.resolve fs name) as [|e q] eqn:Er.
    + intros [= <- <-] [Hn|Hn]; discriminate.
    + destruct (os.has_entries fs (e :: q)).
      * intros [= <- <-] [Hn|Hn]; discriminate.
      * intros [= <- <-] _. eapply lookup_remove_node; [exact El | congruence].
Qed.

Lemma Stat_IsNotExist (fs : os.FS) (name : string) :
  os.IsNotExist (os.Stat fs name) = true <-> os.lookup fs name = inl os.ENOENT.
Proof.
  unfold os.Stat. destruct (os.lookup fs name) as [[]|n]; cbn; split; congruence.
Qed.

Lemma with_fs_same (w : World) : with_fs w (fs w) = w.
Proof. destruct w; reflexivity. Qed.

Lemma with_s3_same (w : World) : with_s3 w (s3 w) = w.
Proof. destruct w; reflexivity. Qed.

(** ** [Delete] *)

Lemma LocalStorage_Delete_absent (s : LocalStorage) (fs : os.FS) (key : string) :
  os.IsNotExist (os.Stat fs (filepath.Join (baseDir s) key)) = true ->
  LocalStorage.Delete s fs key = (fs, None).
Proof.
  intros H. apply Stat_IsNotExist in H.
  unfold LocalStorage.Delete. rewrite (Remove_ENOENT _ _ H). reflexivity.
Qed.

Lemma LocalStorage_Delete_ok (s : LocalStorage) (fs fs' : os.FS) (key : string) :
  LocalStorage.Delete s fs key = (fs', None) ->
  os.IsNotExist (os.Stat fs' (filepath.Join (baseDir s) key)) = true.
Proof.
  unfold LocalStorage.Delete.
  destruct (os.Remove fs _) as [fs1 err] eqn:E.
  intros H. apply Stat_IsNotExist.
  destruct err as [e|].
  - destruct (os.IsNotExist (Some e)) eqn:Ei; cbn in H; [| discriminate].
    injection H as <-. eapply Remove_gone; [exact E | right; exact Ei].
  - injection H as <-. eapply Remove_gone; [exact E | left; reflexivity].
Qed.

Lemma RemoveObject_absent (svc : minio.Service) (bucket key : string) :
  is_Some (minio.buckets svc !! bucket) ->
  minio.refuses svc (minio.ReqRemove bucket key) = None ->
  minio.buckets svc !! bucket ≫= (.!! key) = None ->
  minio.RemoveObject svc bucket key = (svc, None).
Proof.
  intros [objs Hb] Hr Hk. unfold minio.RemoveObject. rewrite Hr, Hb.
  rewrite Hb in Hk. cbn in Hk.
  rewrite (delete_id _ _ Hk), (insert_id _ _ _ Hb).
  destruct svc; reflexivity.
Qed.

Lemma RemoveObject_ok (svc svc' : minio.Service) (bucket key : string) :
  minio.RemoveObject svc bucket key = (svc', None) ->
  is_Some (minio.buckets svc' !! bucket)
  /\ minio.refuses svc' (minio.ReqRemove bucket key) = None
  /\ minio.buckets svc' !! bucket ≫= (.!! key) = None.
Proof.
  unfold minio.RemoveObject.
  destruct (minio.refuses svc _) eqn:Hr; [discriminate |].
  destruct (minio.buckets svc !! bucket) as [objs|] eqn:Hb; [| discriminate].
  intros [= <-]. cbn. rewrite lookup_insert_eq. cbn. rewrite lookup_delete_eq.
  split; [eexists; reflexivity |]. split; [exact Hr | reflexivity].
Qed.

(** C6, as amended: on either backend, [Delete] of a key whose object the
    backend finds absent (the file system reports that its path does not
    exist; the bucket holds no object under the key) returns success and
    changes nothing, the object store serving the request; and after a
    [Delete] that returned success the object is absent and a second
    [Delete] of the same key returns success again. *)
Theorem delete_idempotent (b : Backend) (w : World) (key : string) :
  (absent b w key -> removal_served b w key -> Delete b w key = (w, None))
  /\ (forall w1, Delete b w key = (w1, None) ->
        absent b w1 key /\ Delete b w1 key = (w1, None)).
Proof.
  destruct b as [s|s]; cbn.
  - split.
    + intros H _. rewrite (LocalStorage_Delete_absent _ _ _ H). apply (f_equal (fun x => (x, None))), with_fs_same.
    + intros w1 H.
      destruct (LocalStorage.Delete s (fs w) key) as [fs1 r] eqn:E.
      injection H as <- ->. apply LocalStorage_Delete_ok in E.
      split; [exact E |].
      cbn. rewrite (LocalStorage_Delete_absent _ _ _ E). reflexivity.
  - unfold S3Storage.Delete, object_at, serves. split.
    + intros Ha [Hb Hr]. rewrite (RemoveObject_absent _ _ _ Hb Hr Ha).
      apply (f_equal (fun x => (x, None))), with_s3_same.
    + intros w1 H.
      destruct (minio.RemoveObject (s3 w) (bucket s) key) as [svc [e|]] eqn:E;
        [discriminate |].
      injection H as <-.
      apply RemoveObject_ok in E as (Hb & Hr & Ha). cbn.
      split; [exact Ha |].
      rewrite (RemoveObject_absent _ _ _ Hb Hr Ha). reflexivity.
Qed.

Lemma delete_idempotent_witness :
  Delete (Local fixtures.local) fixtures.world "never.png" = (fixtures.world, None)
  /\ Delete (Remote fixtures.remote) fixtures.world "never.png" = (fixtures.world, None)
  /\ Delete (Local fixtures.local)
       (Delete (Local fixtures.local) fixtures.world "a.png").1 "a.png"
     = ((Delete (Local fixtures.local) fixtures.world "a.png").1, None)
  /\ Delete (Remote fixtures.remote)
       (Delete (Remote fixtures.remote) fixtures.world "2024/12/21/a.png").1
       "2024/12/21/a.png"
     = ((Delete (Remote fixtures.remote) fixtures.world "2024/12/21/a.png").1, None).
Proof.
  split; [| split; [| split]].
  - apply (proj1 (delete_idempotent (Local fixtures.local) fixtures.world "never.png"));
      [vm_compute; reflexivity | exact I].
  - apply (proj1 (delete_idempotent (Remote fixtures.remote) fixtures.world "never.png"));
      [vm_compute; reflexivity |].
    split; [eexists; vm_compute; reflexivity | reflexivity].
  - refine (proj2 (proj2 (delete_idempotent (Local fixtures.local) fixtures.world "a.png")
                     _ _)).
    vm_compute; reflexivity.
  - refine (proj2 (proj2 (delete_idempotent (Remote fixtures.remote) fixtures.world
                            "2024/12/21/a.png") _ _)).
    vm_compute; reflexivity.
Defined.

(** C6 as stated fails, on either backend.  On the local backend the key
    [a.png/b] has no object (its path runs through the regular file
    [a.png]), and [Delete] returns the [not a directory] error of
    [os.Remove], which is not a not-exist error.  On the remote backend a
    key without object is deleted with an error when the object store
    refuses the request. *)
Lemma delete_absent_can_fail :
  (os.lookup (fs fixtures.world) "/srv/out/a.png/b" = inl os.ENOTDIR
   /\ Delete (Local fixtures.local) fixtures.world "a.png/b"
      = (fixtures.world,
         Some "failed to delete file: remove /srv/out/a.png/b: not a directory"))
  /\ (object_at fixtures.denying_world (bucket fixtures.remote) "never.png" = None
      /\ Delete (Remote fixtures.remote) fixtures.denying_world "never.png"
         = (fixtures.denying_world, Some "failed to delete object: Access Denied.")).
Proof. repeat split; vm_compute; reflexivity. Qed.

(** ** The local backend and paths outside the base directory *)

(** C10: [Retrieve] and [Delete] of the local backend act on the path
    obtained by joining the base directory and the object key, whatever that
    path is: [Retrieve] answers from [os.Stat] of the joined path alone and
    [Delete] leaves the file system as [os.Remove] of the joined path does;
    and for a key with a [..] element they reach a file outside the base
    directory: [Retrieve] returns its path and [Delete] removes it. *)
Theorem local_key_escapes_base_dir :
  (forall (s : LocalStorage) (fs : os.FS) (key : string),
      LocalStorage.Retrieve s fs key
      = match os.Stat fs (filepath.Join (baseDir s) key) with
        | None => Ok (filepath.Join (baseDir s) key, Some cleanup_nothing)
        | Some e =>
            if os.IsNotExist (Some e) then Err ("file not found: " ++ key)
            else Err ("failed to stat file: " ++ os.Error e)
        end)
  /\ (forall (s : LocalStorage) (fs : os.FS) (key : string),
        (LocalStorage.Delete s fs key).1
        = (os.Remove fs (filepath.Join (baseDir s) key)).1)
  /\ (exists (s : LocalStorage) (fs fs' : os.FS) (key path : string) (data : bytes),
        In ".." (strings.Split key "/")
        /\ inside (baseDir s) path = false
        /\ os.lookup fs path = inr (os.File data)
        /\ LocalStorage.Retrieve s fs key = Ok (path, Some cleanup_nothing)
        /\ LocalStorage.Delete s fs key = (fs', None)
        /\ os.lookup fs' path = inl os.ENOENT).
Proof.
  split; [| split].
  - intros s fs key. unfold LocalStorage.Retrieve.
    destruct (os.Stat fs _) as [[op path []]|]; reflexivity.
  - intros s fs key. unfold LocalStorage.Delete.
    destruct (os.Remove fs _) as [fs' [e|]]; [| reflexivity].
    destruct (negb (os.IsNotExist (Some e))); reflexivity.
  - exists fixtures.local, fixtures.disk,
      (LocalStorage.Delete fixtures.local fixtures.disk "../secret.txt").1,
      "../secret.txt", "/srv/secret.txt", fixtures.hello.
    split; [left; reflexivity |].
    repeat split; vm_compute; reflexivity.
Qed.

(** ** The input-path resolver *)

(** C7: for an identifier that starts with [/] the resolver only calls
    [os.Stat] on it, never [Retrieve]: it returns the identifier unchanged
    with no cleanup when the file exists and fails with [local file not
    found] otherwise.  For any other identifier it calls [Retrieve]; when
    that fails, a local backend falls back to [os.Stat] of the identifier as
    a relative path and only then reports [file not found], and a remote
    backend fails at once, without looking at the file system. *)
Theorem resolve_input_path {B : Type} `{Storage B} (srv : Server B) (w : World)
    (inputPath : string) :
  (HasPrefix inputPath "/" = true ->
     Server.resolveInputPath srv w inputPath
     = (w, [call_Stat inputPath],
        match os.Stat (fs w) inputPath with
        | None => Ok (inputPath, None)
        | Some _ => Err ("local file not found: " ++ inputPath)
        end))
  /\ (HasPrefix inputPath "/" = false ->
      forall (w' : World) (err : string),
        Retrieve (storage srv) w inputPath = (w', Err err) ->
        Server.resolveInputPath srv w inputPath
        = if IsRemote (storage srv)
          then (w', [call_Retrieve inputPath],
                Err ("failed to retrieve from storage: " ++ err))
          else (w', [call_Retrieve inputPath; call_Stat inputPath],
                match os.Stat (fs w') inputPath with
                | None => Ok (inputPath, None)
                | Some _ => Err ("file not found: " ++ inputPath)
                end)).
Proof.
  unfold Server.resolveInputPath. split.
  - intros ->. destruct (os.Stat (fs w) inputPath); reflexivity.
  - intros -> w' err ->.
    destruct (IsRemote (storage srv)); [reflexivity |].
    destruct (os.Stat (fs w') inputPath); reflexivity.
Qed.

Lemma resolve_input_path_witness :
  Server.resolveInputPath (mkServer _ (Remote fixtures.remote)) fixtures.world
    "/srv/secret.txt"
  = (fixtures.world, [call_Stat "/srv/secret.txt"], Ok ("/srv/secret.txt", None))
  /\ Server.resolveInputPath (mkServer _ (Local fixtures.local)) fixtures.world
       "out/a.png"
     = (fixtures.world, [call_Retrieve "out/a.png"; call_Stat "out/a.png"],
        Ok ("out/a.png", None))
  /\ Server.resolveInputPath (mkServer _ (Remote fixtures.remote)) fixtures.world
       "out/a.png"
     = (fixtures.world, [call_Retrieve "out/a.png"],
        Err "failed to retrieve from storage: failed to download object: The specified key does not exist.").
Proof.
  split; [| split].
  - rewrite (proj1 (resolve_input_path (mkServer _ (Remote fixtures.remote))
                      fixtures.world "/srv/secret.txt") eq_refl).
    vm_compute; reflexivity.
  - rewrite (proj2 (resolve_input_path (mkServer _ (Local fixtures.local))
                      fixtures.world "out/a.png") eq_refl fixtures.world
               "file not found: out/a.png");
      vm_compute; reflexivity.
  - rewrite (proj2 (resolve_input_path (mkServer _ (Remote fixtures.remote))
                      fixtures.world "out/a.png") eq_refl fixtures.world
               "failed to download object: The specified key does not exist.");
      vm_compute; reflexivity.
Defined.

(** ** The sweep *)

Lemma Sub_exact (t u : time.Time) :
  (time.minDuration <= t - u <= time.maxDuration)%Z -> time.Sub t u = (t - u)%Z.
Proof.
  unfold time.Sub. intros H.
  destruct (Z.ltb_spec (t - u) time.minDuration); [lia |].
  destruct (Z.ltb_spec time.maxDuration (t - u)); [lia | reflexivity].
Qed.

(** Below the largest duration, comparing the saturated age with a TTL is
    comparing the exact difference with it. *)
Lemma Sub_gt (t u : time.Time) (ttl : time.Duration) :
  (time.minDuration <= ttl < time.maxDuration)%Z ->
  (ttl < time.Sub t u <-> ttl < t - u)%Z.
Proof.
  unfold time.Sub. intros H.
  destruct (Z.ltb_spec (t - u) time.minDuration); [lia |].
  destruct (Z.ltb_spec time.maxDuration (t - u)); lia.
Qed.

Lemma ListObjects_entry (svc : minio.Service) (bucket : string) (o : minio.ObjectInfo) :
  o ∈ minio.ListObjects svc bucket ->
  minio.Err o = None ->
  exists objs obj,
    minio.buckets svc !! bucket = Some objs
    /\ objs !! minio.Key o = Some obj
    /\ o = minio.info (minio.Key o, obj).
Proof.
  unfold minio.ListObjects. intros Hin Herr.
  destruct (minio.buckets svc !! bucket) as [objs|] eqn:Hb.
  2:{ apply list_elem_of_singleton in Hin. subst o. discriminate. }
  assert (Hentries : o ∈ minio.info <$> map_to_list objs).
  { destruct (minio.refuses svc _); [| exact Hin].
    apply elem_of_app in Hin as [Hin | Hin].
    - eapply subseteq_take; exact Hin.
    - apply list_elem_of_singleton in Hin. subst o. discriminate. }
  apply list_elem_of_fmap in Hentries as ([k obj] & -> & Hkv).
  apply elem_of_map_to_list in Hkv.
  exists objs, obj. auto.
Qed.

Lemma ListObjects_unique (svc : minio.Service) (bucket : string) (o o' : minio.ObjectInfo) :
  o ∈ minio.ListObjects svc bucket -> minio.Err o = None ->
  o' ∈ minio.ListObjects svc bucket -> minio.Err o' = None ->
  minio.Key o' = minio.Key o -> o' = o.
Proof.
  intros H1 E1 H2 E2 Hk.
  destruct (ListObjects_entry _ _ _ H1 E1) as (objs & obj & Hb & Ho & ->).
  destruct (ListObjects_entry _ _ _ H2 E2) as (objs' & obj' & Hb' & Ho' & ->).
  cbn in *. congruence.
Qed.

Lemma removal_requested_listed (s : S3Storage) (now : time.Time)
    (svc : minio.Service) (o : minio.ObjectInfo) :
  o ∈ minio.ListObjects svc (bucket s) -> minio.Err o = None ->
  removal_requested s now (minio.ListObjects svc (bucket s)) (minio.Key o)
  = expired s now o.
Proof.
  intros Hin Herr. unfold removal_requested.
  destruct (expired s now o) eqn:Hex.
  - apply existsb_exists. exists o. split; [apply list_elem_of_In; exact Hin |].
    rewrite Hex, String.eqb_refl, bool_decide_true by exact Herr. reflexivity.
  - apply not_true_is_false. intros H.
    apply existsb_exists in H as (o' & Hin' & H).
    rewrite !andb_true_iff in H. destruct H as [[He Hx] Hk].
    apply bool_decide_eq_true in He. apply String.eqb_eq in Hk.
    apply list_elem_of_In in Hin'.
    rewrite (ListObjects_unique _ _ _ _ Hin Herr Hin' He Hk) in Hx. congruence.
Qed.

(** The sweep over a listing leaves in the bucket exactly the objects whose
    removal it did not ask for, or asked for and was refused. *)
Lemma sweep_fold (s : S3Storage) (now : time.Time) (listing : list minio.ObjectInfo) :
  forall (svc : minio.Service) (r : SweepReport) (objs : gmap string minio.Object),
    minio.buckets svc !! bucket s = Some objs ->
    exists objs',
      minio.buckets (fold_left (S3Storage.sweep_entry s now) listing (svc, r)).1
        !! bucket s = Some objs'
      /\ forall key,
          objs' !! key
          = if removal_requested s now listing key
               && bool_decide (minio.refuses svc (minio.ReqRemove (bucket s) key) = None)
            then None else objs !! key.
Proof.
  induction listing as [|o listing IH]; intros svc r objs Hb.
  - exists objs. split; [exact Hb | reflexivity].
  - cbn [fold_left]. unfold S3Storage.sweep_entry at 2.
    unfold removal_requested. cbn [existsb]. fold (removal_requested s now listing).
    destruct (minio.Err o) as [e|] eqn:Herr.
    { destruct (IH svc (mkSweepReport (deletedCount r) (S (errorCount r))
                          (logged r ++ ["Error listing objects: " ++ e])) objs Hb)
        as (objs' & H1 & H2).
      exists objs'. split; [exact H1 |]. intros key. rewrite H2.
      rewrite (bool_decide_false (Some e = None)) by discriminate. reflexivity. }
    rewrite (bool_decide_true (None = None)) by reflexivity. cbn [andb].
    fold (expired s now o). destruct (expired s now o) eqn:Hex.
    2:{ destruct (IH svc r objs Hb) as (objs' & H1 & H2).
        exists objs'. split; [exact H1 |]. intros key. rewrite H2. reflexivity. }
    unfold minio.RemoveObject. rewrite Hb.
    destruct (minio.refuses svc (minio.ReqRemove (bucket s) (minio.Key o))) as [e|] eqn:Hr.
    + destruct (IH svc (mkSweepReport (deletedCount r) (S (errorCount r))
                          (logged r ++ ["Failed to delete expired object "
                                        ++ minio.Key o ++ ": " ++ e])) objs Hb)
        as (objs' & H1 & H2).
      exists objs'. split; [exact H1 |]. intros key. rewrite H2. cbn [andb].
      destruct (String.eqb_spec (minio.Key o) key) as [<- | Hne]; [| reflexivity].
      rewrite (bool_decide_false (_ = None)) by congruence.
      rewrite !andb_false_r. reflexivity.
    + set (svc1 := minio.with_buckets svc _).
      destruct (IH svc1 (mkSweepReport (S (deletedCount r)) (errorCount r) (logged r))
                  (delete (minio.Key o) objs)) as (objs' & H1 & H2).
      { unfold svc1. cbn. apply lookup_insert_eq. }
      exists objs'. split; [exact H1 |]. intros key. rewrite H2.
      change (minio.refuses svc1) with (minio.refuses svc). cbn [andb].
      destruct (String.eqb_spec (minio.Key o) key) as [<- | Hne].
      * rewrite (bool_decide_true (_ = None)) by exact Hr. cbn [orb andb].
        rewrite lookup_delete_eq. destruct (_ && _); reflexivity.
      * cbn [orb]. rewrite lookup_delete_ne by exact Hne. reflexivity.
Qed.

Lemma cleanupExpiredObjects_s3 (s : S3Storage) (w : World) :
  s3 (S3Storage.cleanupExpiredObjects s w).1
  = (fold_left (S3Storage.sweep_entry s (clock w))
       (minio.ListObjects (s3 w) (bucket s)) (s3 w, mkSweepReport 0 0 [])).1.
Proof.
  unfold S3Storage.cleanupExpiredObjects.
  destruct (fold_left _ _ _) as [svc r]. reflexivity.
Qed.

(** C2, as amended: in a sweep tick, an object listed from the bucket is
    gone after the tick if and only if its age (the clock at the tick minus
    its last-modified time) strictly exceeds the object TTL and the object
    store serves its removal; an object whose age is at most the object TTL,
    or whose removal is refused, is still in the bucket, unchanged. *)
Theorem sweep_deletes_expired (s : S3Storage) (w : World) (o : minio.ObjectInfo) :
  o ∈ minio.ListObjects (s3 w) (bucket s) ->
  minio.Err o = None ->
  let w' := (S3Storage.cleanupExpiredObjects s w).1 in
  let age := time.Sub (clock w) (minio.LastModified o) in
  let refusal := minio.refuses (s3 w) (minio.ReqRemove (bucket s) (minio.Key o)) in
  (exists obj, object_at w (bucket s) (minio.Key o) = Some obj
               /\ minio.LastModified o = minio.lastModified obj)
  /\ (object_at w' (bucket s) (minio.Key o) = None
      <-> (objectTTL s < age)%Z /\ refusal = None)
  /\ ((age <= objectTTL s)%Z ->
      object_at w' (bucket s) (minio.Key o) = object_at w (bucket s) (minio.Key o))
  /\ (refusal <> None ->
      object_at w' (bucket s) (minio.Key o) = object_at w (bucket s) (minio.Key o))
  /\ ((time.minDuration <= objectTTL s < time.maxDuration)%Z ->
      (objectTTL s < age <-> objectTTL s < clock w - minio.LastModified o)%Z).
Proof.
  intros Hin Herr w' age refusal.
  destruct (ListObjects_entry _ _ _ Hin Herr) as (objs & obj & Hb & Ho & Hinfo).
  destruct (sweep_fold s (clock w) (minio.ListObjects (s3 w) (bucket s))
              (s3 w) (mkSweepReport 0 0 []) objs Hb) as (objs' & Hb' & Hk).
  specialize (Hk (minio.Key o)).
  rewrite (removal_requested_listed s (clock w) (s3 w) o Hin Herr) in Hk.
  assert (Hat : object_at w (bucket s) (minio.Key o) = Some obj).
  { unfold object_at. rewrite Hb. exact Ho. }
  assert (Hat' : object_at w' (bucket s) (minio.Key o) = objs' !! minio.Key o).
  { unfold object_at, w'. rewrite cleanupExpiredObjects_s3, Hb'. reflexivity. }
  rewrite Hat', Hat, Hk, Ho. unfold expired. fold age. fold refusal.
  split; [exists obj; split; [reflexivity | rewrite Hinfo; reflexivity] |].
  split; [| split; [| split]].
  - destruct (Z.ltb_spec (objectTTL s) age) as [Hlt | Hge]; cbn [andb].
    + destruct refusal as [e|].
      * rewrite bool_decide_false by discriminate.
        split; [discriminate | intros [_ H]; discriminate H].
      * rewrite bool_decide_true by reflexivity. split; auto.
    + split; [discriminate | intros [H _]; lia].
  - intros Hle. destruct (Z.ltb_spec (objectTTL s) age); [lia | reflexivity].
  - intros Hr. rewrite (bool_decide_false (refusal = None)) by exact Hr.
    rewrite andb_false_r. reflexivity.
  - intros Hrange. apply Sub_gt. exact Hrange.
Qed.

Lemma sweep_deletes_expired_witness :
  object_at (S3Storage.cleanupExpiredObjects fixtures.remote fixtures.world).1
    "media" "2024/12/21/a.png" = None
  /\ object_at (S3Storage.cleanupExpiredObjects fixtures.remote fixtures.world).1
       "media" "2024/12/23/b.png" = Some fixtures.new_object.
Proof.
  split.
  - refine (proj2 (proj1 (proj2
              (sweep_deletes_expired fixtures.remote fixtures.world
                 (minio.info ("2024/12/21/a.png", fixtures.old_object)) _ _))) _).
    + apply list_elem_of_In. vm_compute. auto.
    + reflexivity.
    + split; vm_compute; reflexivity.
  - refine (eq_trans (proj1 (proj2 (proj2
              (sweep_deletes_expired fixtures.remote fixtures.world
                 (minio.info ("2024/12/23/b.png", fixtures.new_object)) _ _))) _) _).
    + apply list_elem_of_In. vm_compute. auto.
    + reflexivity.
    + vm_compute. discriminate.
    + vm_compute. reflexivity.
Defined.

(** C2 as stated fails: when the object store refuses the removal, a listed
    object whose age strictly exceeds the object TTL (two days against 24
    hours) is still in the bucket after the tick; the sweep counts one
    error. *)
Lemma sweep_refused_removal_keeps_object :
  let o := minio.info ("2024/12/21/a.png", fixtures.old_object) in
  let w' := (S3Storage.cleanupExpiredObjects fixtures.remote fixtures.denying_world).1 in
  o ∈ minio.ListObjects (s3 fixtures.denying_world) (bucket fixtures.remote)
  /\ minio.Err o = None
  /\ (objectTTL fixtures.remote
      < time.Sub (clock fixtures.denying_world) (minio.LastModified o))%Z
  /\ object_at w' (bucket fixtures.remote) (minio.Key o) = Some fixtures.old_object
  /\ (S3Storage.cleanupExpiredObjects fixtures.remote fixtures.denying_world).2
     = mkSweepReport 0 1
         [ "Failed to delete expired object 2024/12/21/a.png: Access Denied.";
           "S3 cleanup completed: deleted 0 objects, 1 errors" ].
Proof.
  cbv zeta. split; [apply list_elem_of_In; vm_compute; auto |].
  repeat split; vm_compute; reflexivity.
Qed.

(** ** Endpoints *)

(** With a scheme found by [url.Parse], TLS is on exactly for [https]. *)
Lemma parseEndpoint_scheme (parseAuthority : string -> result string)
    (endpoint : string) (flag : bool) (u : url.URL) :
  url.Parse parseAuthority endpoint = Ok u ->
  url.Scheme u <> "" ->
  (parseEndpoint parseAuthority endpoint flag).2
  = String.eqb (url.Scheme u) "https".
Proof.
  intros Hp Hs. unfold parseEndpoint. rewrite Hp.
  destruct (String.eqb_spec (url.Scheme u) "") as [E | _]; [contradiction |].
  cbn [negb]. destruct (String.eqb (url.Host u) ""); reflexivity.
Qed.

(** Without one, or when [url.Parse] fails, the endpoint and the flag are
    used as they are. *)
Lemma parseEndpoint_no_scheme (parseAuthority : string -> result string)
    (endpoint : string) (flag : bool) :
  match url.Parse parseAuthority endpoint with
  | Ok u => url.Scheme u = ""
  | Err _ => True
  end ->
  parseEndpoint parseAuthority endpoint flag = (endpoint, flag).
Proof.
  unfold parseEndpoint.
  destruct (url.Parse parseAuthority endpoint) as [u|e]; [| reflexivity].
  intros ->. reflexivity.
Qed.

Lemma slice_to_app (a b : string) : slice_to (a ++ b) (String.length a) = a.
Proof.
  unfold slice_to. induction a as [|c a IH]; [destruct b; reflexivity |].
  change (String c (String.substring 0 (String.length a) (a ++ b)) = String c a).
  f_equal. exact IH.
Qed.

Lemma scheme_char_cases (c : ascii) :
  scheme_char c = true ->
  (url.is_alpha c = true
   \/ (url.is_alpha c = false
       /\ (url.is_digit c || Ascii.eqb c "+" || Ascii.eqb c "-" || Ascii.eqb c ".") = true))
  /\ Ascii.eqb c ":" = false /\ Ascii.eqb c "#" = false /\ Ascii.eqb c "?" = false
  /\ Ascii.eqb c "/" = false /\ Ascii.eqb c "*" = false
  /\ ((nat_of_ascii c <? 32) || (nat_of_ascii c =? 127))%nat = false.
Proof.
  destruct c as [[] [] [] [] [] [] [] []]; vm_compute; intros H;
    try discriminate H; repeat split; auto.
Qed.

Lemma getScheme_at_name (cs port raw : string) (i : nat) :
  all_chars scheme_char cs = true ->
  url.getScheme_at (S i) (cs ++ ":" ++ port) raw
  = Ok (slice_to raw (S i + String.length cs), port).
Proof.
  revert i. induction cs as [|c cs IH]; intros i H.
  - cbn. rewrite Nat.add_0_r. reflexivity.
  - unfold all_chars in H. cbn in H. apply andb_true_iff in H as [Hc Hcs].
    change (String c cs ++ ":" ++ port) with (String c (cs ++ ":" ++ port)).
    cbn [url.getScheme_at].
    destruct (scheme_char_cases c Hc) as ([Ha | [Ha Hd]] & _).
    + rewrite Ha, (IH (S i) Hcs). cbn [String.length]. do 3 f_equal. lia.
    + rewrite Ha, Hd, (IH (S i) Hcs). cbn [String.length]. do 3 f_equal. lia.
Qed.

(** [getScheme] reads the host of [host:port] as a scheme. *)
Lemma getScheme_host_port (c : ascii) (cs port : string) :
  url.is_alpha c = true ->
  all_chars scheme_char cs = true ->
  url.getScheme (String c cs ++ ":" ++ port) = Ok (String c cs, port).
Proof.
  intros Hc Hcs. unfold url.getScheme.
  change (String c cs ++ ":" ++ port) with (String c (cs ++ ":" ++ port)) at 1.
  cbn [url.getScheme_at]. rewrite Hc, (getScheme_at_name _ _ _ 0 Hcs).
  change (1 + String.length cs) with (String.length (String c cs)).
  rewrite slice_to_app. reflexivity.
Qed.

Lemma digits_plain (port : string) :
  all_chars url.is_digit port = true -> all_chars scheme_char port = true.
Proof.
  unfold all_chars. induction port as [|c port IH]; [reflexivity |].
  cbn. rewrite !andb_true_iff. intros [Hc Hp]. split; [| exact (IH Hp)].
  unfold scheme_char. rewrite Hc. destruct (url.is_alpha c); reflexivity.
Qed.

Lemma all_chars_app (P : ascii -> bool) (a b : string) :
  all_chars P (a ++ b) = all_chars P a && all_chars P b.
Proof.
  unfold all_chars. induction a as [|c a IH]; [reflexivity |].
  change (String c a ++ b) with (String c (a ++ b)). cbn. rewrite IH, andb_assoc. reflexivity.
Qed.

Lemma Cut_without (s : string) (c : ascii) :
  all_chars (fun a => negb (Ascii.eqb a c)) s = true ->
  strings.Cut s c = (s, EmptyString, false).
Proof.
  unfold all_chars. induction s as [|a s IH]; [reflexivity |].
  cbn. rewrite andb_true_iff, negb_true_iff. intros [-> Hs].
  rewrite (IH Hs). reflexivity.
Qed.

Lemma Count_without (s : string) (c : ascii) :
  all_chars (fun a => negb (Ascii.eqb a c)) s = true -> strings.Count s c = 0.
Proof.
  unfold all_chars. induction s as [|a s IH]; [reflexivity |].
  cbn. rewrite andb_true_iff, negb_true_iff. intros [-> Hs].
  rewrite (IH Hs). reflexivity.
Qed.

Lemma all_chars_impl (P Q : ascii -> bool) (s : string) :
  (forall c, P c = true -> Q c = true) ->
  all_chars P s = true -> all_chars Q s = true.
Proof.
  unfold all_chars. intros HPQ. induction s as [|a s IH]; [reflexivity |].
  cbn. rewrite !andb_true_iff. intros [Ha Hs]. split; [apply HPQ, Ha | apply IH, Hs].
Qed.

Lemma no_CTL (s : string) :
  all_chars (fun c => negb ((nat_of_ascii c <? 32) || (nat_of_ascii c =? 127))%nat) s = true ->
  url.stringContainsCTLByte s = false.
Proof.
  unfold all_chars, url.stringContainsCTLByte.
  induction (list_ascii_of_string s) as [|a l IH]; [reflexivity |].
  cbn. rewrite andb_true_iff, negb_true_iff. intros [-> Hl]. exact (IH Hl).
Qed.

(** For every endpoint [host:port] whose host is a name (a letter, then
    letters, digits, [+], [-] and [.]) and whose port is decimal,
    [url.Parse] succeeds with the host as scheme, and [parseEndpoint]
    returns the endpoint with TLS on only for the host [https], whatever
    the configured flag. *)
Lemma parseEndpoint_host_port (parseAuthority : string -> result string)
    (c : ascii) (cs port : string) (flag : bool) :
  url.is_alpha c = true ->
  all_chars scheme_char cs = true ->
  all_chars url.is_digit port = true ->
  let endpoint := String c cs ++ ":" ++ port in
  url.Parse parseAuthority endpoint
  = Ok (url.mkURL (strings.ToLower (String c cs)) port "")
  /\ parseEndpoint parseAuthority endpoint flag
     = (endpoint, String.eqb (strings.ToLower (String c cs)) "https").
Proof.
  intros Hc Hcs Hport endpoint.
  assert (Hplain : all_chars (fun a => scheme_char a || Ascii.eqb a ":") endpoint = true).
  { unfold endpoint. rewrite !all_chars_app, !andb_true_iff. repeat split.
    - unfold all_chars. cbn. rewrite andb_true_iff. split.
      + unfold scheme_char. rewrite Hc. reflexivity.
      + eapply (all_chars_impl scheme_char); [| exact Hcs].
        intros a ->. reflexivity.
    - eapply (all_chars_impl scheme_char); [| exact (digits_plain _ Hport)].
      intros a ->. reflexivity. }
  assert (Hchar : forall a, (scheme_char a || Ascii.eqb a ":") = true ->
            Ascii.eqb a "#" = false /\ Ascii.eqb a "*" = false
            /\ ((nat_of_ascii a <? 32) || (nat_of_ascii a =? 127))%nat = false).
  { intros a Ha. apply orb_true_iff in Ha as [Ha | Ha].
    - destruct (scheme_char_cases a Ha) as (_ & _ & ? & _ & _ & ? & ?). auto.
    - apply Ascii.eqb_eq in Ha. subst a. repeat split. }
  assert (Hdigit : forall a, scheme_char a = true ->
            Ascii.eqb a "?" = false /\ Ascii.eqb a "/" = false).
  { intros a Ha. destruct (scheme_char_cases a Ha) as (_ & _ & _ & ? & ? & _). auto. }
  assert (Hparse : url.Parse parseAuthority endpoint
                   = Ok (url.mkURL (strings.ToLower (String c cs)) port "")).
  { unfold url.Parse.
    rewrite (Cut_without endpoint "#").
    2:{ eapply all_chars_impl; [| exact Hplain]. intros a Ha.
        destruct (Hchar a Ha) as (-> & _). reflexivity. }
    unfold url.parse.
    rewrite (no_CTL endpoint).
    2:{ eapply all_chars_impl; [| exact Hplain]. intros a Ha.
        destruct (Hchar a Ha) as (_ & _ & ->). reflexivity. }
    replace (String.eqb endpoint "*") with false.
    2:{ unfold endpoint. change (String c cs ++ ":" ++ port) with (String c (cs ++ ":" ++ port)).
        cbn. destruct (Hchar c) as (_ & Hs & _); [unfold scheme_char; rewrite Hc; reflexivity |].
        rewrite Hs. reflexivity. }
    unfold endpoint. rewrite (getScheme_host_port c cs port Hc Hcs).
    assert (Hq : all_chars (fun a => negb (Ascii.eqb a "?")) port = true).
    { eapply all_chars_impl; [| exact (digits_plain _ Hport)]. intros a Ha.
      destruct (Hdigit a Ha) as (-> & _). reflexivity. }
    rewrite (Count_without port "?" Hq), andb_false_r, (Cut_without port "?" Hq).
    cbn [fst].
    replace (HasPrefix port "/") with false.
    2:{ destruct port as [|a port]; [reflexivity |].
        unfold all_chars in Hport. cbn in Hport. apply andb_true_iff in Hport as [Ha _].
        destruct (Hdigit a) as (_ & Hs).
        { unfold scheme_char. rewrite Ha. destruct (url.is_alpha a); reflexivity. }
        unfold HasPrefix. apply Ascii.eqb_neq in Hs.
        change (String.prefix "/" (String a port))
          with (if ascii_dec "/" a then String.prefix "" port else false).
        destruct (ascii_dec "/" a) as [E | _]; [congruence | reflexivity]. }
    cbn [negb andb].
    replace (String.eqb (strings.ToLower (String c cs)) "") with false by reflexivity.
    reflexivity. }
  split; [exact Hparse |].
  unfold parseEndpoint. rewrite Hparse. cbn. reflexivity.
Qed.

Lemma NewS3Storage_host_port_not_secure
    (parseAuthority : string -> result string) (validEndpoint : string -> bool)
    (w w' : World) (s : S3Storage) :
  NewS3Storage parseAuthority validEndpoint fixtures.minio_config w = (w', Ok s) ->
  minio.Secure (minio.options (client s)) = false.
Proof.
  unfold NewS3Storage.
  change (parseEndpoint parseAuthority (Endpoint fixtures.minio_config)
            (UseSSL fixtures.minio_config))
    with ("minio:9000", false).
  cbv iota beta. unfold minio_New.
  destruct (validEndpoint "minio:9000"); [| discriminate].
  destruct (minio.BucketExists _ _) as [ex|e]; [| discriminate].
  destruct (if ex then _ else _) as [svc [e|]]; [discriminate |].
  intros [= <- <-]. reflexivity.
Qed.

(** C8, evaluated: for the bare endpoint [minio:9000], [url.Parse] takes
    [minio] for the scheme, so [parseEndpoint] turns TLS off although the
    configured flag is on, and the client that [NewS3Storage] builds from
    that configuration is not secure. *)
Theorem parseEndpoint_host_port_drops_flag (parseAuthority : string -> result string) :
  url.Parse parseAuthority "minio:9000" = Ok (url.mkURL "minio" "9000" "")
  /\ parseEndpoint parseAuthority "minio:9000" true = ("minio:9000", false)
  /\ Endpoint fixtures.minio_config = "minio:9000"
  /\ UseSSL fixtures.minio_config = true
  /\ exists w' s,
       NewS3Storage parseAuthority (fun _ => true) fixtures.minio_config fixtures.world
       = (w', Ok s)
       /\ minio.Secure (minio.options (client s)) = false.
Proof.
  split; [reflexivity |]. split; [reflexivity |].
  split; [reflexivity |]. split; [reflexivity |].
  destruct (NewS3Storage parseAuthority (fun _ => true) fixtures.minio_config
              fixtures.world) as [w' [s|e]] eqn:E.
  - exists w', s. split; [reflexivity |].
    eapply NewS3Storage_host_port_not_secure. exact E.
  - exfalso. revert E. vm_compute. discriminate.
Qed.

(** ** [Close] and the cleanup goroutine *)

Lemma Close_closes (s : S3Storage) (w w1 : World) (r : option string) :
  S3Storage.Close s w = (w1, Returns r) ->
  r = None
  /\ chans w !! stopCleanup s = Some ChanOpen
  /\ w1 = with_chans w (<[stopCleanup s := ChanClosed]> (chans w)).
Proof.
  unfold S3Storage.Close.
  destruct (chans w !! stopCleanup s) as [[|]|]; cbn; intros H; inversion H; auto.
Qed.

(** C3, evaluated: after a [Close] that returned, a second [Close] of the
    same storage panics, closing a closed channel. *)
Theorem Close_twice_panics (s : S3Storage) (w w1 : World) (r : option string) :
  S3Storage.Close s w = (w1, Returns r) ->
  S3Storage.Close s w1 = (w1, Panics "close of closed channel").
Proof.
  intros H. apply Close_closes in H as (_ & _ & ->).
  unfold S3Storage.Close. cbn. rewrite lookup_insert_eq. reflexivity.
Qed.

Lemma Close_twice_panics_witness :
  S3Storage.Close fixtures.remote (S3Storage.Close fixtures.remote fixtures.world).1
  = ((S3Storage.Close fixtures.remote fixtures.world).1,
     Panics "close of closed channel").
Proof.
  refine (Close_twice_panics fixtures.remote fixtures.world _ None _).
  vm_compute; reflexivity.
Defined.

Lemma cleanupExpiredObjects_world (s : S3Storage) (w : World) :
  (S3Storage.cleanupExpiredObjects s w).1
  = with_s3 w (fold_left (S3Storage.sweep_entry s (clock w))
                 (minio.ListObjects (s3 w) (bucket s)) (s3 w, mkSweepReport 0 0 [])).1.
Proof.
  unfold S3Storage.cleanupExpiredObjects.
  destruct (fold_left _ _ _) as [svc r]. reflexivity.
Qed.

(** No step of the system reopens or closes a channel. *)
Lemma step_chans (w w' : World) : step w w' -> chans w' = chans w.
Proof.
  intros H. destruct H; try reflexivity.
  rewrite cleanupExpiredObjects_world. reflexivity.
Qed.

Lemma steps_chans (w w' : World) : rtc step w w' -> chans w' = chans w.
Proof.
  induction 1 as [|w w1 w2 H _ IH]; [reflexivity |].
  rewrite IH. apply step_chans, H.
Qed.

(** Once the stop channel is closed the goroutine is never blocked: however
    the system moves on, while the routine has not returned it can take the
    stop branch of its [select], and then it has returned. *)
Lemma closed_routine_can_stop (s : S3Storage) (w w1 w2 : World)
    (res : option string) (r : routine) :
  S3Storage.Close s w = (w1, Returns res) ->
  rtc step w1 w2 ->
  routines w2 !! stopCleanup s = Some r ->
  exited r = false ->
  exists w3 r3,
    step w2 w3 /\ routines w3 !! stopCleanup s = Some r3 /\ exited r3 = true.
Proof.
  intros Hc Hsteps Hr He.
  apply Close_closes in Hc as (_ & _ & ->). apply steps_chans in Hsteps.
  eexists _, _. split.
  - eapply (step_stop w2 (stopCleanup s) r); [exact Hr | exact He |].
    rewrite Hsteps. cbn. apply lookup_insert_eq.
  - cbn. rewrite lookup_insert_eq. split; reflexivity.
Qed.

(** A routine that has returned stays so, whatever happens next. *)
Lemma exited_stable (w w' : World) (c : nat) (r : routine) :
  step w w' ->
  routines w !! c = Some r -> exited r = true ->
  exists r', routines w' !! c = Some r' /\ exited r' = true.
Proof.
  intros H Hr He.
  destruct H as [w c0 r0 H0 E0 | w c0 r0 H0 E0 T0 | w c0 r0 H0 E0 C0 | w d Hd]; cbn.
  - destruct (decide (c0 = c)) as [-> | Hne]; [congruence |].
    rewrite lookup_insert_ne by exact Hne. eauto.
  - destruct (decide (c0 = c)) as [-> | Hne]; [congruence |].
    rewrite lookup_insert_ne by exact Hne. eauto.
  - destruct (decide (c0 = c)) as [-> | Hne]; [congruence |].
    rewrite lookup_insert_ne by exact Hne. eauto.
  - eauto.
Qed.

(** When every routine has returned no step changes the object store: no
    sweep runs any more. *)
Lemma sweeps_need_a_live_routine (w w' : World) :
  step w w' ->
  (forall c r, routines w !! c = Some r -> exited r = true) ->
  s3 w' = s3 w.
Proof.
  intros H Hall.
  destruct H as [w c0 r0 H0 E0 | w c0 r0 H0 E0 T0 | w c0 r0 H0 E0 C0 | w d Hd];
    try reflexivity.
  rewrite (Hall _ _ H0) in E0. discriminate.
Qed.

(** ** Paths: what [Clean] and [Join] keep *)

Lemma Split_not_nil (s : string) (c : ascii) : strings.Split s c <> [].
Proof.
  destruct s as [|a s]; cbn; [discriminate |].
  destruct (Ascii.eqb a c); [discriminate |].
  destruct (strings.Split s c); discriminate.
Qed.

Lemma Split_app (a b : string) (c : ascii) :
  strings.Split (a ++ String c b) c = (strings.Split a c ++ strings.Split b c)%list.
Proof.
  induction a as [|x a IH].
  - change ("" ++ String c b) with (String c b). cbn.
    rewrite Ascii.eqb_refl. reflexivity.
  - change (String x a ++ String c b) with (String x (a ++ String c b)). cbn.
    rewrite IH. destruct (Ascii.eqb x c); [reflexivity |].
    destruct (strings.Split a c) as [|y ys] eqn:E; [| reflexivity].
    exfalso. exact (Split_not_nil _ _ E).
Qed.

Lemma Split_without (s : string) (c : ascii) :
  all_chars (fun a => negb (Ascii.eqb a c)) s = true -> strings.Split s c = [s].
Proof.
  unfold all_chars. induction s as [|a s IH]; cbn; [reflexivity |].
  intros [Ha Hs]%andb_prop. rewrite (negb_true_iff _) in Ha. rewrite Ha, (IH Hs).
  reflexivity.
Qed.

Lemma Split_pieces (s : string) (c : ascii) :
  Forall (fun x => all_chars (fun a => negb (Ascii.eqb a c)) x = true) (strings.Split s c).
Proof.
  unfold all_chars. induction s as [|a s IH]; cbn.
  - constructor; [reflexivity | constructor].
  - destruct (Ascii.eqb a c) eqn:E.
    + constructor; [reflexivity | exact IH].
    + destruct (strings.Split s c) as [|y ys]; [repeat constructor; cbn; rewrite E; reflexivity |].
      inversion IH; subst. constructor; [| assumption].
      cbn. rewrite E. assumption.
Qed.

Lemma Split_Join (es : list string) (c : ascii) :
  es <> [] ->
  Forall (fun x => all_chars (fun a => negb (Ascii.eqb a c)) x = true) es ->
  strings.Split (strings.Join es (String c "")) c = es.
Proof.
  induction es as [|x es IH]; [congruence |]. intros _ H.
  inversion H as [|? ? Hx Hes]; subst.
  destruct es as [|y es].
  - cbn. apply Split_without, Hx.
  - change (strings.Join (x :: y :: es) (String c ""))
      with (x ++ String c "" ++ strings.Join (y :: es) (String c "")).
    change (String c "" ++ ?t) with (String c t).
    rewrite Split_app, (Split_without _ _ Hx), IH by (congruence || assumption).
    reflexivity.
Qed.

Lemma kept_elem_cases (e : string) :
  kept_elem e = true ->
  String.eqb e "" = false /\ String.eqb e "." = false /\ no_slash e = true.
Proof.
  unfold kept_elem. intros [[H1 H2]%andb_prop H3]%andb_prop.
  apply negb_true_iff in H1, H2. auto.
Qed.

Lemma plain_name_cases (e : string) :
  plain_name e = true ->
  String.eqb e "" = false /\ String.eqb e "." = false
  /\ String.eqb e ".." = false /\ no_slash e = true.
Proof.
  unfold plain_name. intros [H1 H2]%andb_prop.
  apply kept_elem_cases in H1 as (? & ? & ?). apply negb_true_iff in H2. auto.
Qed.

(** One step of [Clean] keeps the output made of kept elements, and of plain
    names when the path is rooted. *)
Lemma clean_elem_kept (rooted : bool) (out : list string) (e : string) :
  no_slash e = true ->
  Forall (fun x => kept_elem x = true) out ->
  Forall (fun x => kept_elem x = true) (filepath.clean_elem rooted out e).
Proof.
  intros He Hout. unfold filepath.clean_elem.
  destruct (String.eqb e "") eqn:E1; [exact Hout |].
  destruct (String.eqb e ".") eqn:E2; [exact Hout |].
  assert (Hk : kept_elem e = true) by (unfold kept_elem; rewrite E1, E2, He; reflexivity).
  destruct (String.eqb e "..") eqn:E3.
  - destruct out as [|top out'].
    + destruct rooted; repeat constructor; exact Hk.
    + destruct (String.eqb top ".."); [constructor; assumption |].
      inversion Hout; assumption.
  - constructor; assumption.
Qed.

Lemma clean_elem_plain (out : list string) (e : string) :
  no_slash e = true ->
  Forall (fun x => plain_name x = true) out ->
  Forall (fun x => plain_name x = true) (filepath.clean_elem true out e).
Proof.
  intros He Hout. unfold filepath.clean_elem.
  destruct (String.eqb e "") eqn:E1; [exact Hout |].
  destruct (String.eqb e ".") eqn:E2; [exact Hout |].
  destruct (String.eqb e "..") eqn:E3.
  - destruct out as [|top out']; [constructor |].
    inversion Hout as [|? ? Ht Ho]; subst.
    apply plain_name_cases in Ht as (_ & _ & -> & _). exact Ho.
  - constructor; [| exact Hout].
    unfold plain_name, kept_elem. rewrite E1, E2, E3, He. reflexivity.
Qed.

Lemma fold_clean_kept (rooted : bool) (xs out : list string) :
  Forall (fun x => no_slash x = true) xs ->
  Forall (fun x => kept_elem x = true) out ->
  Forall (fun x => kept_elem x = true) (fold_left (filepath.clean_elem rooted) xs out).
Proof.
  revert out. induction xs as [|x xs IH]; intros out Hxs Hout; [exact Hout |].
  inversion Hxs; subst. cbn. apply IH; [assumption |].
  apply clean_elem_kept; assumption.
Qed.

Lemma fold_clean_plain (xs out : list string) :
  Forall (fun x => no_slash x = true) xs ->
  Forall (fun x => plain_name x = true) out ->
  Forall (fun x => plain_name x = true) (fold_left (filepath.clean_elem true) xs out).
Proof.
  revert out. induction xs as [|x xs IH]; intros out Hxs Hout; [exact Hout |].
  inversion Hxs; subst. cbn. apply IH; [assumption |].
  apply clean_elem_plain; assumption.
Qed.

Lemma Split_no_slash (s : string) :
  Forall (fun x => no_slash x = true) (strings.Split s "/").
Proof. apply Split_pieces. Qed.

Lemma clean_elems_kept (rooted : bool) (path : string) :
  Forall (fun x => kept_elem x = true) (clean_elems rooted path).
Proof.
  unfold clean_elems. apply Forall_rev, fold_clean_kept; [apply Split_no_slash | constructor].
Qed.

Lemma clean_elems_plain (path : string) :
  Forall (fun x => plain_name x = true) (clean_elems true path).
Proof.
  unfold clean_elems. apply Forall_rev, fold_clean_plain; [apply Split_no_slash | constructor].
Qed.

(** Plain names are pushed one after the other. *)
Lemma fold_clean_names (rooted : bool) (es acc : list string) :
  Forall (fun x => plain_name x = true) es ->
  fold_left (filepath.clean_elem rooted) es acc = (rev es ++ acc)%list.
Proof.
  revert acc. induction es as [|e es IH]; intros acc H; [reflexivity |].
  inversion H as [|? ? He Hes]; subst. cbn [fold_left].
  rewrite IH by assumption.
  apply plain_name_cases in He as (E1 & E2 & E3 & _).
  unfold filepath.clean_elem. rewrite E1, E2, E3.
  cbn [rev]. rewrite <- app_assoc. reflexivity.
Qed.

(** [Clean] written with the elements it keeps. *)
Lemma Clean_elems (path : string) :
  filepath.Clean path
  = if HasPrefix path "/" then "/" ++ strings.Join (clean_elems true path) "/"
    else match clean_elems false path with
         | [] => "."
         | es => strings.Join es "/"
         end.
Proof.
  unfold filepath.Clean, clean_elems. cbv zeta.
  destruct (HasPrefix path "/"); [reflexivity |].
  destruct (fold_left _ _ _) as [|x out]; [reflexivity |].
  destruct (rev (x :: out)) as [|y ys] eqn:E; [| reflexivity].
  apply (f_equal (@length _)) in E. rewrite length_rev in E. discriminate.
Qed.

Lemma kept_no_slash (es : list string) :
  Forall (fun x => kept_elem x = true) es ->
  Forall (fun x => all_chars (fun a => negb (Ascii.eqb a "/")) x = true) es.
Proof.
  intros H. eapply Forall_impl; [exact H |].
  intros x Hx. apply kept_elem_cases in Hx as (_ & _ & Hx). exact Hx.
Qed.

Lemma filter_non_empty_kept (es : list string) :
  Forall (fun x => kept_elem x = true) es -> List.filter os.non_empty es = es.
Proof.
  induction 1 as [|x es Hx _ IH]; [reflexivity |].
  cbn. apply kept_elem_cases in Hx as (E & _ & _).
  unfold os.non_empty at 1. rewrite E. cbn. rewrite IH. reflexivity.
Qed.

(** The elements of a cleaned path, read back by splitting it. *)
Lemma Split_Clean (path : string) :
  List.filter os.non_empty (strings.Split (filepath.Clean path) "/")
  = if HasPrefix path "/" then clean_elems true path
    else match clean_elems false path with
         | [] => ["."]
         | es => es
         end.
Proof.
  rewrite Clean_elems. destruct (HasPrefix path "/").
  - change ("/" ++ ?t) with ("" ++ String "/" t). rewrite Split_app.
    pose proof (clean_elems_kept true path) as H.
    destruct (clean_elems true path) as [|e es] eqn:E; [reflexivity |].
    rewrite Split_Join by (congruence || apply kept_no_slash, H).
    change (List.filter os.non_empty (e :: es) = e :: es).
    apply filter_non_empty_kept, H.
  - pose proof (clean_elems_kept false path) as H.
    destruct (clean_elems false path) as [|e es] eqn:E; [reflexivity |].
    rewrite Split_Join by (congruence || apply kept_no_slash, H).
    apply filter_non_empty_kept, H.
Qed.

Lemma HasPrefix_slash (s : string) :
  HasPrefix s "/" = true <-> exists t, s = String "/" t.
Proof.
  unfold HasPrefix. destruct s as [|c s]; [split; [discriminate | intros [t Ht]; discriminate] |].
  change (String.prefix "/" (String c s))
    with (if ascii_dec "/" c then String.prefix "" s else false).
  destruct (ascii_dec "/" c) as [<- | Hne].
  - split; [eauto | intros _; destruct s; reflexivity].
  - split; [discriminate | intros [t Ht]; congruence].
Qed.

Lemma HasPrefix_slash_app (a b : string) :
  HasPrefix a "/" = true -> HasPrefix (a ++ b) "/" = true.
Proof.
  intros [t ->]%HasPrefix_slash. apply HasPrefix_slash.
  exists (t ++ b). reflexivity.
Qed.

Lemma absolute_rooted (fs : os.FS) (name : string) :
  HasPrefix (os.cwd fs) "/" = true -> HasPrefix (absolute fs name) "/" = true.
Proof.
  intros H. unfold absolute. destruct (HasPrefix name "/") eqn:E; [exact E |].
  apply HasPrefix_slash_app, H.
Qed.

(** With an absolute working directory, a name resolves to the elements
    [Clean] keeps of its absolute form. *)
Lemma resolve_elems (fs : os.FS) (name : string) :
  HasPrefix (os.cwd fs) "/" = true ->
  os.resolve fs name = clean_elems true (absolute fs name).
Proof.
  intros H. unfold os.resolve. cbv zeta. fold (absolute fs name).
  rewrite Split_Clean, (absolute_rooted _ _ H). reflexivity.
Qed.

(** Replaying the cleaned form of a path on top of an output gives what the
    path itself gives. *)
Lemma clean_elem_replay (r : bool) (q acc : list string) (x : string) :
  Forall (fun x => kept_elem x = true) q ->
  fold_left (filepath.clean_elem r) (rev (filepath.clean_elem false q x)) acc
  = filepath.clean_elem r (fold_left (filepath.clean_elem r) (rev q) acc) x.
Proof.
  intros Hq.
  remember (filepath.clean_elem r) as F eqn:HF.
  unfold filepath.clean_elem.
  destruct (String.eqb x "") eqn:E1.
  { subst F. unfold filepath.clean_elem at 2. rewrite E1. reflexivity. }
  destruct (String.eqb x ".") eqn:E2.
  { subst F. unfold filepath.clean_elem at 2. rewrite E1, E2. reflexivity. }
  destruct (String.eqb x "..") eqn:E3.
  - apply String.eqb_eq in E3. subst x.
    destruct q as [|top q0]; [reflexivity |].
    pose proof (Forall_inv Hq) as Ht. cbv beta in Ht.
    destruct (String.eqb top "..") eqn:E4.
    + cbn [rev]. rewrite fold_left_app. reflexivity.
    + cbn [rev]. rewrite fold_left_app. cbn [fold_left].
      apply kept_elem_cases in Ht as (T1 & T2 & _).
      rewrite HF. unfold filepath.clean_elem at 2 3. rewrite T1, T2, E4.
      rewrite E1, E2. change (".." =? "..") with true. cbv iota. rewrite E4.
      reflexivity.
  - cbn [rev]. rewrite fold_left_app. reflexivity.
Qed.

Lemma fold_clean_replay (r : bool) (xs q acc : list string) :
  Forall (fun x => kept_elem x = true) q ->
  Forall (fun x => no_slash x = true) xs ->
  fold_left (filepath.clean_elem r) (rev (fold_left (filepath.clean_elem false) xs q)) acc
  = fold_left (filepath.clean_elem r) xs (fold_left (filepath.clean_elem r) (rev q) acc).
Proof.
  revert q. induction xs as [|x xs IH]; intros q Hq Hxs; [reflexivity |].
  inversion Hxs as [|? ? Hx Hxs']; subst. cbn [fold_left].
  rewrite IH by (try apply clean_elem_kept; assumption).
  rewrite clean_elem_replay by assumption. reflexivity.
Qed.

Lemma HasPrefix_app (a b : string) :
  a <> "" -> HasPrefix (a ++ b) "/" = HasPrefix a "/".
Proof.
  intros Ha. destruct a as [|c a]; [congruence |].
  change (String c a ++ b) with (String c (a ++ b)). unfold HasPrefix.
  change (String.prefix "/" (String c (a ++ b)))
    with (if ascii_dec "/" c then String.prefix "" (a ++ b) else false).
  change (String.prefix "/" (String c a))
    with (if ascii_dec "/" c then String.prefix "" a else false).
  destruct (ascii_dec "/" c); [| reflexivity].
  destruct (a ++ b); destruct a; reflexivity.
Qed.

Lemma kept_not_rooted (e : string) :
  kept_elem e = true -> e <> "" /\ HasPrefix e "/" = false.
Proof.
  intros (E1 & _ & E3)%kept_elem_cases. split.
  - intros ->. discriminate.
  - destruct (HasPrefix e "/") eqn:E; [| reflexivity].
    apply HasPrefix_slash in E as [t ->]. discriminate.
Qed.

Lemma Join_not_rooted (e : string) (es : list string) :
  kept_elem e = true -> HasPrefix (strings.Join (e :: es) "/") "/" = false.
Proof.
  intros [Hne Hr]%kept_not_rooted. destruct es as [|y es]; [exact Hr |].
  change (strings.Join (e :: y :: es) "/") with (e ++ "/" ++ strings.Join (y :: es) "/").
  rewrite HasPrefix_app by exact Hne. exact Hr.
Qed.

Lemma Split_slash (a b : string) :
  strings.Split (a ++ "/" ++ b) "/" = (strings.Split a "/" ++ strings.Split b "/")%list.
Proof. apply Split_app. Qed.

(** The elements of [Join(base, key)]: those of [key], cleaned on top of
    the elements of [base]. *)
Lemma Join_resolve (fs : os.FS) (base key : string) :
  HasPrefix (os.cwd fs) "/" = true ->
  base <> "" ->
  os.resolve fs (filepath.Join base key)
  = rev (fold_left (filepath.clean_elem true) (strings.Split key "/")
           (rev (os.resolve fs base))).
Proof.
  intros Hcwd Hbase.
  assert (Eb : String.eqb base "" = false) by (apply String.eqb_neq, Hbase).
  unfold filepath.Join. rewrite Eb. cbn [negb].
  rewrite !resolve_elems by exact Hcwd.
  set (p := base ++ "/" ++ key).
  assert (Hp : strings.Split p "/" = (strings.Split base "/" ++ strings.Split key "/")%list)
    by apply Split_slash.
  assert (Hr : HasPrefix p "/" = HasPrefix base "/") by (apply HasPrefix_app, Hbase).
  unfold absolute. destruct (HasPrefix base "/") eqn:Erooted.
  - (* an absolute base directory *)
    rewrite Clean_elems, Hr.
    assert (Hj : HasPrefix ("/" ++ strings.Join (clean_elems true p) "/") "/" = true)
      by (apply HasPrefix_slash; eexists; reflexivity).
    rewrite Hj.
    unfold clean_elems at 1.
    change ("/" ++ ?t) with ("" ++ String "/" t). rewrite Split_app.
    change (strings.Split "" "/") with [""].
    cbn [app fold_left]. change (filepath.clean_elem true [] "") with (@nil string).
    pose proof (clean_elems_plain p) as Hplain.
    assert (Hfold : fold_left (filepath.clean_elem true)
                      (strings.Split (strings.Join (clean_elems true p) "/") "/") []
                    = rev (clean_elems true p)).
    { destruct (clean_elems true p) as [|e es] eqn:E; [reflexivity |].
      rewrite Split_Join.
      - rewrite fold_clean_names by exact Hplain. apply app_nil_r.
      - congruence.
      - eapply Forall_impl; [exact Hplain |].
        intros x Hx. apply plain_name_cases in Hx as (_ & _ & _ & Hx). exact Hx. }
    rewrite Hfold, rev_involutive.
    unfold clean_elems. rewrite Hp, fold_left_app, rev_involutive. reflexivity.
  - (* a relative base directory *)
    rewrite Clean_elems, Hr.
    set (A := fold_left (filepath.clean_elem true) (strings.Split (os.cwd fs) "/") []).
    assert (Hbase_elems : clean_elems true (os.cwd fs ++ "/" ++ base)
                          = rev (fold_left (filepath.clean_elem true)
                                   (strings.Split base "/") A)).
    { unfold clean_elems. rewrite Split_slash, fold_left_app. reflexivity. }
    rewrite Hbase_elems, rev_involutive, <- fold_left_app, <- Hp.
    assert (Hreplay : fold_left (filepath.clean_elem true) (clean_elems false p) A
                      = fold_left (filepath.clean_elem true) (strings.Split p "/") A).
    { unfold clean_elems.
      rewrite (fold_clean_replay true (strings.Split p "/") [] A);
        [reflexivity | constructor | apply Split_no_slash]. }
    pose proof (clean_elems_kept false p) as Hkept.
    destruct (clean_elems false p) as [|e es] eqn:E.
    + change (HasPrefix "." "/") with false. cbv iota.
      unfold clean_elems at 1. rewrite Split_slash, fold_left_app. fold A.
      change (strings.Split "." "/") with ["."].
      cbn [fold_left]. change (filepath.clean_elem true A ".") with A.
      rewrite <- Hreplay. reflexivity.
    + rewrite (Join_not_rooted e es) by (exact (Forall_inv Hkept)).
      unfold clean_elems at 1. rewrite Split_slash, fold_left_app. fold A.
      rewrite Split_Join by (congruence || apply kept_no_slash, Hkept).
      rewrite Hreplay. reflexivity.
Qed.

Lemma fold_clean_no_dotdot (r : bool) (xs acc : list string) :
  ".." ∉ xs ->
  fold_left (filepath.clean_elem r) xs acc
  = (rev (List.filter (fun e => negb (skipped e)) xs) ++ acc)%list.
Proof.
  revert acc. induction xs as [|x xs IH]; intros acc H; [reflexivity |].
  apply not_elem_of_cons in H as [Hx Hxs]. cbn [fold_left List.filter].
  rewrite IH by exact Hxs. unfold filepath.clean_elem, skipped.
  destruct (String.eqb x "") eqn:E1; [reflexivity |].
  destruct (String.eqb x ".") eqn:E2; [reflexivity |].
  destruct (String.eqb x "..") eqn:E3; [apply String.eqb_eq in E3; congruence |].
  cbn [orb negb rev]. rewrite <- app_assoc. reflexivity.
Qed.

Lemma Join_resolve_inside (fs : os.FS) (base key : string) :
  HasPrefix (os.cwd fs) "/" = true ->
  base <> "" ->
  ".." ∉ strings.Split key "/" ->
  os.resolve fs (filepath.Join base key)
  = (os.resolve fs base
     ++ List.filter (fun e => negb (skipped e)) (strings.Split key "/"))%list.
Proof.
  intros Hcwd Hbase Hkey. rewrite Join_resolve by assumption.
  rewrite fold_clean_no_dotdot by exact Hkey.
  rewrite rev_app_distr, !rev_involutive. reflexivity.
Qed.

Lemma plain_name_Split (f : string) :
  plain_name f = true -> strings.Split f "/" = [f].
Proof.
  intros (_ & _ & _ & H)%plain_name_cases. apply Split_without, H.
Qed.

Lemma Join_resolve_name (fs : os.FS) (base f : string) :
  HasPrefix (os.cwd fs) "/" = true ->
  base <> "" ->
  plain_name f = true ->
  os.resolve fs (filepath.Join base f) = (os.resolve fs base ++ [f])%list.
Proof.
  intros Hcwd Hbase Hf. rewrite Join_resolve by assumption.
  rewrite (plain_name_Split _ Hf). cbn [fold_left].
  apply plain_name_cases in Hf as (E1 & E2 & E3 & _).
  unfold filepath.clean_elem. rewrite E1, E2, E3. cbn [rev].
  rewrite rev_involutive. reflexivity.
Qed.

Lemma Join_resolve_empty (fs : os.FS) (base : string) :
  HasPrefix (os.cwd fs) "/" = true ->
  base <> "" ->
  os.resolve fs (filepath.Join base "") = os.resolve fs base.
Proof.
  intros Hcwd Hbase. rewrite Join_resolve by assumption.
  change (strings.Split "" "/") with [""]. cbn [fold_left].
  change (filepath.clean_elem true ?o "") with o. apply rev_involutive.
Qed.

Lemma Clean_not_empty (path : string) : filepath.Clean path <> "".
Proof.
  rewrite Clean_elems. destruct (HasPrefix path "/"); [discriminate |].
  pose proof (clean_elems_kept false path) as H.
  destruct (clean_elems false path) as [|e es]; [discriminate |].
  apply Forall_inv in H. apply kept_not_rooted in H as [Hne _].
  destruct es as [|y es]; [exact Hne |].
  change (strings.Join (e :: y :: es) "/") with (e ++ "/" ++ strings.Join (y :: es) "/").
  destruct e; [congruence | discriminate].
Qed.

Lemma Join_not_empty (base key : string) :
  base <> "" -> filepath.Join base key <> "".
Proof.
  intros H. unfold filepath.Join. apply String.eqb_neq in H. rewrite H.
  apply Clean_not_empty.
Qed.

(** ** The local backend *)

(** What a successful [WriteFile] found and did. *)
Lemma WriteFile_ok (fs fs' : os.FS) (name : string) (data : bytes) :
  os.WriteFile fs name data = (fs', None) ->
  name <> ""
  /\ os.walk fs [] (removelast (os.resolve fs name)) = inr os.Dir
  /\ os.node_at fs (os.resolve fs name) <> Some os.Dir
  /\ fs' = os.mkFS (<[os.resolve fs name := os.File data]> (os.nodes fs)) (os.cwd fs).
Proof.
  unfold os.WriteFile. destruct (String.eqb name "") eqn:E; [discriminate |].
  apply String.eqb_neq in E. cbv zeta.
  destruct (os.walk fs [] (removelast (os.resolve fs name))) as [e|[d|]]; try discriminate.
  destruct (os.node_at fs (os.resolve fs name)) as [[d|]|] eqn:N; try discriminate;
    intros [= <-]; repeat split; auto; discriminate.
Qed.

(** A walk that never steps on [p] does not see what is stored at [p]. *)
Lemma walk_insert_off (fs : os.FS) (p : list string) (n : os.node)
    (rest pre : list string) :
  (forall k, k <= length rest -> (pre ++ take k rest)%list <> p) ->
  os.walk (os.mkFS (<[p := n]> (os.nodes fs)) (os.cwd fs)) pre rest
  = os.walk fs pre rest.
Proof.
  revert pre. induction rest as [|e rest IH]; intros pre H.
  - cbn. assert (Hp : pre <> p).
    { specialize (H 0 (le_n _)). rewrite take_0, app_nil_r in H. exact H. }
    unfold os.node_at. destruct pre; [reflexivity |].
    cbn. rewrite lookup_insert_ne by congruence. reflexivity.
  - cbn [os.walk]. assert (Hp : pre <> p).
    { specialize (H 0 (Nat.le_0_l _)). rewrite take_0, app_nil_r in H. exact H. }
    assert (Hn : os.node_at (os.mkFS (<[p := n]> (os.nodes fs)) (os.cwd fs)) pre
                 = os.node_at fs pre).
    { unfold os.node_at. destruct pre; [reflexivity |].
      cbn. rewrite lookup_insert_ne by congruence. reflexivity. }
    rewrite Hn. destruct (os.node_at fs pre) as [[d|]|]; try reflexivity.
    apply IH. intros k Hk. specialize (H (S k) ltac:(cbn; lia)).
    cbn in H. rewrite <- app_assoc. exact H.
Qed.

(** A walk to the parent of [p], continued to [p] after a file was put there. *)
Lemma walk_insert_at (fs : os.FS) (e : string) (data : bytes)
    (rest pre : list string) :
  os.walk fs pre rest = inr os.Dir ->
  os.walk (os.mkFS (<[(pre ++ rest ++ [e])%list := os.File data]> (os.nodes fs)) (os.cwd fs))
    pre (rest ++ [e])%list
  = inr (os.File data).
Proof.
  revert pre. induction rest as [|x rest IH]; intros pre H.
  - cbn in H. cbn [app os.walk].
    assert (Hn : os.node_at (os.mkFS (<[(pre ++ [e])%list := os.File data]> (os.nodes fs)) (os.cwd fs)) pre
                 = os.node_at fs pre).
    { unfold os.node_at. destruct pre; [reflexivity |].
      cbn [os.nodes]. rewrite lookup_insert_ne; [reflexivity |].
      intros Heq. apply (f_equal (@length _)) in Heq.
      rewrite length_app in Heq. cbn in Heq. lia. }
    rewrite Hn. destruct (os.node_at fs pre) as [[d|]|]; try discriminate.
    unfold os.node_at. destruct (pre ++ [e])%list eqn:E.
    + destruct pre; discriminate.
    + cbn [os.nodes]. rewrite <- E, lookup_insert_eq. reflexivity.
  - cbn [os.walk] in H. cbn [app os.walk].
    assert (Hn : os.node_at (os.mkFS (<[(pre ++ x :: rest ++ [e])%list := os.File data]> (os.nodes fs)) (os.cwd fs)) pre
                 = os.node_at fs pre).
    { unfold os.node_at. destruct pre; [reflexivity |].
      cbn [os.nodes]. rewrite lookup_insert_ne; [reflexivity |].
      intros Heq. apply (f_equal (@length _)) in Heq.
      rewrite length_app in Heq. cbn in Heq. lia. }
    rewrite Hn. destruct (os.node_at fs pre) as [[d|]|]; try discriminate.
    specialize (IH (pre ++ [x])%list H).
    rewrite <- !app_assoc in IH. exact IH.
Qed.

Lemma removelast_snoc (p : list string) :
  p <> [] -> exists e, p = (removelast p ++ [e])%list.
Proof.
  intros H. exists (List.last p ""). apply app_removelast_last, H.
Qed.

Lemma length_removelast_lt (p : list string) :
  p <> [] -> length (removelast p) < length p.
Proof.
  intros [e He]%removelast_snoc. rewrite He at 2. rewrite length_app. cbn. lia.
Qed.

(** After a successful [WriteFile] the name leads to a file with the data
    written, whatever was there before. *)
Lemma WriteFile_lookup (fs fs' : os.FS) (name : string) (data : bytes) :
  os.WriteFile fs name data = (fs', None) ->
  os.lookup fs' name = inr (os.File data).
Proof.
  intros (Hname & Hwalk & Hnode & ->)%WriteFile_ok.
  unfold os.lookup. apply String.eqb_neq in Hname. rewrite Hname.
  change (os.resolve (os.mkFS _ (os.cwd fs)) name) with (os.resolve fs name).
  assert (Hp : os.resolve fs name <> []).
  { intros E. rewrite E in Hnode. apply Hnode. reflexivity. }
  destruct (removelast_snoc _ Hp) as [e He].
  pose proof (walk_insert_at fs e data (removelast (os.resolve fs name)) [] Hwalk) as H.
  cbn [app] in H. rewrite <- He in H. exact H.
Qed.

(** A successful [WriteFile] leaves the walk to the parent as it was. *)
Lemma WriteFile_parent (fs fs' : os.FS) (name : string) (data : bytes) :
  os.WriteFile fs name data = (fs', None) ->
  os.walk fs' [] (removelast (os.resolve fs name)) = inr os.Dir.
Proof.
  intros (Hname & Hwalk & Hnode & ->)%WriteFile_ok.
  rewrite walk_insert_off; [exact Hwalk |].
  intros k Hk Heq. cbn [app] in Heq.
  assert (Hp : os.resolve fs name <> []).
  { intros E. rewrite E in Hnode. apply Hnode. reflexivity. }
  apply (f_equal (@length _)) in Heq. rewrite length_take in Heq.
  pose proof (length_removelast_lt _ Hp). lia.
Qed.

(** Writing the same data again changes nothing. *)
Lemma WriteFile_again (fs fs' : os.FS) (name : string) (data : bytes) :
  os.WriteFile fs name data = (fs', None) ->
  os.WriteFile fs' name data = (fs', None).
Proof.
  intros H. pose proof (WriteFile_parent _ _ _ _ H) as Hpar.
  pose proof (WriteFile_lookup _ _ _ _ H) as Hl.
  apply WriteFile_ok in H as (Hname & Hwalk & Hnode & ->).
  unfold os.WriteFile. pose proof Hname as Hn. apply String.eqb_neq in Hn. rewrite Hn.
  cbv zeta.
  change (os.resolve (os.mkFS _ (os.cwd fs)) name) with (os.resolve fs name).
  rewrite Hpar.
  assert (Hp : os.resolve fs name <> []).
  { intros E. rewrite E in Hnode. apply Hnode. reflexivity. }
  assert (Hat : os.node_at (os.mkFS (<[os.resolve fs name := os.File data]> (os.nodes fs)) (os.cwd fs))
                  (os.resolve fs name) = Some (os.File data)).
  { unfold os.node_at. destruct (os.resolve fs name) eqn:E; [congruence |].
    cbn [os.nodes]. apply lookup_insert_eq. }
  rewrite Hat. cbn [os.nodes os.cwd]. rewrite insert_insert_eq. reflexivity.
Qed.

(** X1: what [Store] wrote, [Retrieve] finds. *)
Theorem local_Store_then_Retrieve (s : LocalStorage) (fs fs' : os.FS)
    (d : bytes) (m p : string) (r : StorageResult) :
  LocalStorage.Store s fs d m p = (fs', Ok r) ->
  LocalStorage.Retrieve s fs' (ObjectKey r) = Ok (Location r, Some cleanup_nothing)
  /\ os.lookup fs' (Location r) = inr (os.File d).
Proof.
  intros H. apply LocalStorage_Store_ok in H. cbv zeta in H. destruct H as [-> Hw].
  cbn [ObjectKey Location]. apply WriteFile_lookup in Hw.
  split; [| exact Hw].
  unfold LocalStorage.Retrieve, os.Stat. cbv zeta. rewrite Hw. reflexivity.
Qed.

Lemma local_Store_then_Retrieve_witness :
  LocalStorage.Retrieve fixtures.local
    (LocalStorage.Store fixtures.local fixtures.disk fixtures.hello "image/png" "test").1
    "test_7509e5bda0c762d2.png"
  = Ok ("/srv/out/test_7509e5bda0c762d2.png", Some cleanup_nothing)
  /\ os.lookup
       (LocalStorage.Store fixtures.local fixtures.disk fixtures.hello "image/png" "test").1
       "/srv/out/test_7509e5bda0c762d2.png"
     = inr (os.File fixtures.hello).
Proof.
  refine (local_Store_then_Retrieve fixtures.local fixtures.disk _ fixtures.hello
            "image/png" "test"
            (mkStorageResult "/srv/out/test_7509e5bda0c762d2.png"
               "test_7509e5bda0c762d2.png"
               "7509e5bda0c762d2bac7f90d758b5b2263fa01ccbc542ab5e3df163be08e6ca9"
               None "image/png" 12) _).
  vm_compute; reflexivity.
Defined.

(** X2: storing the same content again changes nothing and returns the same
    result. *)
Theorem local_Store_again (s : LocalStorage) (fs fs' : os.FS)
    (d : bytes) (m p : string) (r : StorageResult) :
  LocalStorage.Store s fs d m p = (fs', Ok r) ->
  LocalStorage.Store s fs' d m p = (fs', Ok r).
Proof.
  intros H. apply LocalStorage_Store_ok in H. cbv zeta in H. destruct H as [-> Hw].
  apply WriteFile_again in Hw.
  unfold LocalStorage.Store. cbv zeta. rewrite Hw. reflexivity.
Qed.

Lemma local_Store_again_witness :
  LocalStorage.Store fixtures.local
    (LocalStorage.Store fixtures.local fixtures.disk fixtures.hello "image/png" "test").1
    fixtures.hello "image/png" "test"
  = ((LocalStorage.Store fixtures.local fixtures.disk fixtures.hello "image/png" "test").1,
     Ok (mkStorageResult "/srv/out/test_7509e5bda0c762d2.png"
           "test_7509e5bda0c762d2.png"
           "7509e5bda0c762d2bac7f90d758b5b2263fa01ccbc542ab5e3df163be08e6ca9"
           None "image/png" 12)).
Proof.
  refine (local_Store_again fixtures.local fixtures.disk _ fixtures.hello
            "image/png" "test" _ _).
  vm_compute; reflexivity.
Defined.

(** A walk through the parent directory ends at the node of the path. *)
Lemma walk_last (fs : os.FS) (e : string) (rest pre : list string) :
  os.walk fs pre rest = inr os.Dir ->
  os.walk fs pre (rest ++ [e])%list
  = match os.node_at fs (pre ++ rest ++ [e])%list with
    | Some n => inr n
    | None => inl os.ENOENT
    end.
Proof.
  revert pre. induction rest as [|x rest IH]; intros pre H.
  - cbn in H. cbn [app os.walk].
    destruct (os.node_at fs pre) as [[d|]|]; try discriminate. reflexivity.
  - cbn [os.walk] in H. cbn [app os.walk].
    destruct (os.node_at fs pre) as [[d|]|]; try discriminate.
    rewrite (IH _ H), <- !app_assoc. reflexivity.
Qed.

Lemma FS_eta (fs : os.FS) : os.mkFS (os.nodes fs) (os.cwd fs) = fs.
Proof. destruct fs. reflexivity. Qed.

(** X3: an object that was stored can be deleted, after which it is not
    found; when the key was new, the file system is back to what it was. *)
Theorem local_Store_then_Delete (s : LocalStorage) (fs fs1 : os.FS)
    (d : bytes) (m p : string) (r : StorageResult) :
  LocalStorage.Store s fs d m p = (fs1, Ok r) ->
  exists fs2,
    LocalStorage.Delete s fs1 (ObjectKey r) = (fs2, None)
    /\ LocalStorage.Retrieve s fs2 (ObjectKey r) = Err ("file not found: " ++ ObjectKey r)
    /\ (os.lookup fs (Location r) = inl os.ENOENT -> fs2 = fs).
Proof.
  intros H. apply LocalStorage_Store_ok in H. cbv zeta in H. destruct H as [-> Hw].
  cbn [ObjectKey Location].
  set (key := p ++ "_" ++ slice_to (hex.EncodeToString (sha256.Sum256 d)) 16
              ++ ExtensionFromMIME m) in *.
  set (loc := filepath.Join (baseDir s) key) in *.
  pose proof (WriteFile_lookup _ _ _ _ Hw) as Hl.
  assert (Hd : LocalStorage.Delete s fs1 key = (os.remove_node fs1 loc, None)).
  { unfold LocalStorage.Delete. cbv zeta. fold loc.
    unfold os.Remove, os.Unlink. rewrite Hl. reflexivity. }
  exists (os.remove_node fs1 loc). split; [exact Hd |]. split.
  - apply LocalStorage_Delete_ok in Hd. fold loc in Hd.
    unfold LocalStorage.Retrieve. cbv zeta. fold loc. rewrite Hd. reflexivity.
  - intros Hnew.
    apply WriteFile_ok in Hw as (Hname & Hwalk & Hnode & ->).
    assert (Hp : os.resolve fs loc <> []).
    { intros E. rewrite E in Hnode. apply Hnode. reflexivity. }
    destruct (removelast_snoc _ Hp) as [e He].
    unfold os.lookup in Hnew. apply String.eqb_neq in Hname. rewrite Hname in Hnew.
    rewrite He, (walk_last fs e _ [] Hwalk) in Hnew. cbn [app] in Hnew.
    rewrite <- He in Hnew.
    assert (Hnone : os.nodes fs !! os.resolve fs loc = None).
    { unfold os.node_at in Hnew. destruct (os.resolve fs loc) eqn:E; [congruence |].
      destruct (os.nodes fs !! (s0 :: l)); [discriminate | reflexivity]. }
    unfold os.remove_node. cbn [os.nodes os.cwd].
    change (os.resolve (os.mkFS _ (os.cwd fs)) loc) with (os.resolve fs loc).
    rewrite delete_insert_eq, delete_id by exact Hnone. apply FS_eta.
Qed.

Lemma local_Store_then_Delete_witness :
  exists fs2,
    LocalStorage.Delete fixtures.local
      (LocalStorage.Store fixtures.local fixtures.disk fixtures.hello "image/png" "test").1
      "test_7509e5bda0c762d2.png" = (fs2, None)
    /\ LocalStorage.Retrieve fixtures.local fs2 "test_7509e5bda0c762d2.png"
       = Err ("file not found: " ++ "test_7509e5bda0c762d2.png")
    /\ (os.lookup fixtures.disk "/srv/out/test_7509e5bda0c762d2.png" = inl os.ENOENT ->
        fs2 = fixtures.disk).
Proof.
  refine (local_Store_then_Delete fixtures.local fixtures.disk _ fixtures.hello
            "image/png" "test"
            (mkStorageResult "/srv/out/test_7509e5bda0c762d2.png"
               "test_7509e5bda0c762d2.png"
               "7509e5bda0c762d2bac7f90d758b5b2263fa01ccbc542ab5e3df163be08e6ca9"
               None "image/png" 12) _).
  vm_compute; reflexivity.
Defined.

(** [mkdir_along] only adds directories. *)
Lemma mkdir_along_subseteq (rest pre : list string) (m m' : gmap (list string) os.node) :
  os.mkdir_along m pre rest = Some m' -> m ⊆ m'.
Proof.
  revert pre m. induction rest as [|e rest IH]; intros pre m H.
  - cbn in H. injection H as <-. reflexivity.
  - cbn in H. destruct (m !! (pre ++ [e])%list) as [[d|]|] eqn:E; [discriminate | |].
    + eapply IH, H.
    + etrans; [| eapply IH, H]. apply insert_subseteq, E.
Qed.

Lemma node_at_subseteq (m m' : gmap (list string) os.node) (c c' : string)
    (p : list string) (n : os.node) :
  m ⊆ m' -> os.node_at (os.mkFS m c) p = Some n -> os.node_at (os.mkFS m' c') p = Some n.
Proof.
  intros Hsub. unfold os.node_at. destruct p; [auto |]. cbn.
  intros H. eapply lookup_weaken; eassumption.
Qed.

(** After [mkdir_along], the path walks through directories to a directory. *)
Lemma mkdir_along_walk (c : string) (rest pre : list string)
    (m m' : gmap (list string) os.node) :
  os.mkdir_along m pre rest = Some m' ->
  os.node_at (os.mkFS m c) pre = Some os.Dir ->
  os.walk (os.mkFS m' c) pre rest = inr os.Dir.
Proof.
  revert pre m. induction rest as [|e rest IH]; intros pre m H Hpre.
  - cbn in H. injection H as <-. cbn. rewrite Hpre. reflexivity.
  - pose proof (mkdir_along_subseteq _ _ _ _ H) as Hsub.
    cbn [os.walk]. rewrite (node_at_subseteq m m' c c pre os.Dir Hsub Hpre).
    cbn in H.
    assert (Hne : (pre ++ [e])%list <> []) by (destruct pre; discriminate).
    destruct (m !! (pre ++ [e])%list) as [[d|]|] eqn:E; [discriminate | |].
    + eapply IH; [exact H |]. unfold os.node_at.
      destruct (pre ++ [e])%list; [congruence | exact E].
    + eapply IH; [exact H |]. unfold os.node_at.
      destruct (pre ++ [e])%list eqn:E'; [congruence |]. cbn. apply lookup_insert_eq.
Qed.

(** Where the path already walks to a directory, [mkdir_along] adds nothing. *)
Lemma mkdir_along_walked (c : string) (rest pre : list string)
    (m : gmap (list string) os.node) :
  os.walk (os.mkFS m c) pre rest = inr os.Dir ->
  os.mkdir_along m pre rest = Some m.
Proof.
  revert pre. induction rest as [|e rest IH]; intros pre H; [reflexivity |].
  cbn [os.walk] in H. destruct (os.node_at (os.mkFS m c) pre) as [[d|]|]; try discriminate.
  assert (Hne : (pre ++ [e])%list <> []) by (destruct pre; discriminate).
  assert (Hd : m !! (pre ++ [e])%list = Some os.Dir).
  { destruct rest as [|x rest].
    - cbn in H. unfold os.node_at in H. destruct (pre ++ [e])%list; [congruence |].
      cbn in H. destruct (m !! (s :: l)) as [n|]; [| discriminate].
      injection H as ->. reflexivity.
    - cbn [os.walk] in H. unfold os.node_at in H at 1.
      destruct (pre ++ [e])%list; [congruence |]. cbn in H.
      destruct (m !! (s :: l)) as [[d|]|]; try discriminate. reflexivity. }
  cbn. rewrite Hd. apply IH, H.
Qed.

Lemma NewLocalStorage_ok (baseDir : string) (fs fs' : os.FS) (s : LocalStorage) :
  NewLocalStorage baseDir fs = (fs', Ok s) ->
  s = mkLocalStorage baseDir /\ os.MkdirAll fs baseDir = (fs', None).
Proof.
  unfold NewLocalStorage. destruct (os.MkdirAll fs baseDir) as [fs1 [e|]]; [discriminate |].
  intros [= <- <-]. auto.
Qed.

(** X4: a successful [NewLocalStorage] leaves the base directory in place as
    a directory, keeps every node there was, and can be repeated without
    effect. *)
Theorem NewLocalStorage_creates (dir : string) (fs fs' : os.FS) (s : LocalStorage) :
  NewLocalStorage dir fs = (fs', Ok s) ->
  baseDir s = dir
  /\ os.lookup fs' (baseDir s) = inr os.Dir
  /\ os.nodes fs ⊆ os.nodes fs'
  /\ NewLocalStorage dir fs' = (fs', Ok s).
Proof.
  intros [-> H]%NewLocalStorage_ok. cbn [baseDir]. split; [reflexivity |].
  unfold os.MkdirAll in H. destruct (String.eqb dir "") eqn:E; [discriminate |].
  destruct (os.mkdir_along (os.nodes fs) [] (os.resolve fs dir)) as [m|] eqn:M;
    [| discriminate].
  injection H as <-.
  assert (Hwalk : os.walk (os.mkFS m (os.cwd fs)) [] (os.resolve fs dir) = inr os.Dir).
  { eapply mkdir_along_walk; [exact M | reflexivity]. }
  split; [| split].
  - unfold os.lookup. rewrite E. exact Hwalk.
  - cbn. eapply mkdir_along_subseteq, M.
  - unfold NewLocalStorage, os.MkdirAll. rewrite E.
    change (os.resolve (os.mkFS m (os.cwd fs)) dir) with (os.resolve fs dir).
    cbn [os.nodes os.cwd].
    rewrite (mkdir_along_walked (os.cwd fs) _ _ _ Hwalk). reflexivity.
Qed.

Lemma NewLocalStorage_creates_witness :
  baseDir (mkLocalStorage "/srv/out/media") = "/srv/out/media"
  /\ os.lookup (NewLocalStorage "/srv/out/media" fixtures.disk).1
       (baseDir (mkLocalStorage "/srv/out/media")) = inr os.Dir
  /\ os.nodes fixtures.disk ⊆ os.nodes (NewLocalStorage "/srv/out/media" fixtures.disk).1
  /\ NewLocalStorage "/srv/out/media" (NewLocalStorage "/srv/out/media" fixtures.disk).1
     = ((NewLocalStorage "/srv/out/media" fixtures.disk).1,
        Ok (mkLocalStorage "/srv/out/media")).
Proof.
  refine (NewLocalStorage_creates "/srv/out/media" fixtures.disk _ _ _).
  vm_compute; reflexivity.
Defined.

Lemma length_append (a b : string) :
  String.length (a ++ b) = String.length a + String.length b.
Proof.
  induction a as [|c a IH]; [reflexivity |].
  change (String c a ++ b) with (String c (a ++ b)). cbn. rewrite IH. reflexivity.
Qed.

Lemma all_chars_slice_to (P : ascii -> bool) (s : string) (n : nat) :
  all_chars P s = true -> all_chars P (slice_to s n) = true.
Proof.
  unfold all_chars, slice_to. revert n. induction s as [|c s IH]; intros n H.
  - destruct n; reflexivity.
  - destruct n; [reflexivity |]. cbn in H |- *.
    apply andb_prop in H as [Hc Hs]. rewrite Hc. cbn. apply IH, Hs.
Qed.

Lemma lower_hex_digit_no_slash (c : ascii) :
  lower_hex_digit c = true -> negb (Ascii.eqb c "/") = true.
Proof.
  intros H. destruct (Ascii.eqb_spec c "/") as [-> | _]; [discriminate H | reflexivity].
Qed.

Lemma ExtensionFromMIME_no_slash (mimeType : string) :
  no_slash (ExtensionFromMIME mimeType) = true.
Proof.
  unfold ExtensionFromMIME.
  repeat match goal with
         | |- context [if ?b then _ else _] => destruct b; [reflexivity |]
         end.
  reflexivity.
Qed.

(** The file name [Store] builds from a prefix without separator is a plain
    name. *)
Lemma filename_plain (prefix mimeType : string) (data : bytes) :
  no_slash prefix = true ->
  plain_name (prefix ++ "_" ++ slice_to (hex.EncodeToString (sha256.Sum256 data)) 16
              ++ ExtensionFromMIME mimeType) = true.
Proof.
  intros Hp.
  set (h := slice_to (hex.EncodeToString (sha256.Sum256 data)) 16).
  set (f := prefix ++ "_" ++ h ++ ExtensionFromMIME mimeType).
  assert (Hlen : 17 <= String.length f).
  { unfold f. rewrite !length_append. unfold h. rewrite hash16_length. cbn. lia. }
  assert (Hns : no_slash f = true).
  { unfold f, no_slash. rewrite !all_chars_app. fold (no_slash prefix). rewrite Hp.
    fold (no_slash (ExtensionFromMIME mimeType)). rewrite ExtensionFromMIME_no_slash.
    unfold h. rewrite all_chars_slice_to; [reflexivity |].
    eapply all_chars_impl; [exact lower_hex_digit_no_slash |].
    apply EncodeToString_lower. }
  unfold plain_name, kept_elem. rewrite Hns.
  destruct (String.eqb_spec f "") as [E|_]; [rewrite E in Hlen; cbn in Hlen; lia |].
  destruct (String.eqb_spec f ".") as [E|_]; [rewrite E in Hlen; cbn in Hlen; lia |].
  destruct (String.eqb_spec f "..") as [E|_]; [rewrite E in Hlen; cbn in Hlen; lia |].
  reflexivity.
Qed.

Lemma lookup_not_empty (fs : os.FS) (name : string) (n : os.node) :
  os.lookup fs name = inr n -> name <> "".
Proof. intros H ->. discriminate H. Qed.

Lemma lookup_walk (fs : os.FS) (name : string) (n : os.node) :
  os.lookup fs name = inr n -> os.walk fs [] (os.resolve fs name) = inr n.
Proof.
  unfold os.lookup. destruct (String.eqb name ""); [discriminate | auto].
Qed.

(** X5: while the base directory is in place, [Store] with a prefix that has
    no separator succeeds, unless a directory sits under the name of the
    new file. *)
Theorem local_Store_succeeds (s : LocalStorage) (fs : os.FS)
    (d : bytes) (m p : string) :
  HasPrefix (os.cwd fs) "/" = true ->
  os.lookup fs (baseDir s) = inr os.Dir ->
  no_slash p = true ->
  let contentHash := hex.EncodeToString (sha256.Sum256 d) in
  let filename := p ++ "_" ++ slice_to contentHash 16 ++ ExtensionFromMIME m in
  let outputPath := filepath.Join (baseDir s) filename in
  os.lookup fs outputPath <> inr os.Dir ->
  exists fs',
    LocalStorage.Store s fs d m p
    = (fs', Ok (mkStorageResult outputPath filename contentHash None m
                  (Z.of_nat (length d))))
    /\ os.lookup fs' (baseDir s) = inr os.Dir.
Proof.
  intros Hcwd Hbase Hp contentHash filename outputPath Hnodir.
  pose proof (lookup_not_empty _ _ _ Hbase) as Hne.
  pose proof (filename_plain p m d Hp) as Hf. fold contentHash filename in Hf.
  pose proof (Join_resolve_name fs (baseDir s) filename Hcwd Hne Hf) as Hres.
  fold outputPath in Hres.
  pose proof (lookup_walk _ _ _ Hbase) as Hwalk.
  assert (Hout : outputPath <> "") by (apply Join_not_empty, Hne).
  assert (Hnode : os.node_at fs (os.resolve fs outputPath) <> Some os.Dir).
  { intros E. apply Hnodir. unfold os.lookup.
    apply String.eqb_neq in Hout. rewrite Hout, Hres.
    rewrite (walk_last fs filename _ [] Hwalk). cbn [app]. rewrite <- Hres, E.
    reflexivity. }
  assert (Hw : os.WriteFile fs outputPath d
               = (os.mkFS (<[os.resolve fs outputPath := os.File d]> (os.nodes fs))
                    (os.cwd fs), None)).
  { unfold os.WriteFile. pose proof Hout as Hout'. apply String.eqb_neq in Hout'.
    rewrite Hout'. cbv zeta. rewrite Hres at 1. rewrite removelast_last, Hwalk.
    destruct (os.node_at fs (os.resolve fs outputPath)) as [[?|]|]; try reflexivity.
    congruence. }
  eexists. split.
  - unfold LocalStorage.Store. cbv zeta. fold contentHash filename outputPath.
    rewrite Hw. reflexivity.
  - unfold os.lookup. apply String.eqb_neq in Hne. rewrite Hne.
    change (os.resolve (os.mkFS _ (os.cwd fs)) (baseDir s)) with (os.resolve fs (baseDir s)).
    rewrite walk_insert_off; [exact Hwalk |].
    intros k Hk Heq. cbn [app] in Heq. rewrite Hres in Heq.
    apply (f_equal (@length _)) in Heq. rewrite length_take, length_app in Heq.
    cbn in Heq. lia.
Qed.

Lemma local_Store_succeeds_witness :
  exists fs',
    LocalStorage.Store fixtures.local fixtures.disk fixtures.hello "image/png" "test"
    = (fs', Ok (mkStorageResult
                  (filepath.Join (baseDir fixtures.local)
                     ("test" ++ "_"
                      ++ slice_to (hex.EncodeToString (sha256.Sum256 fixtures.hello)) 16
                      ++ ExtensionFromMIME "image/png"))
                  ("test" ++ "_"
                   ++ slice_to (hex.EncodeToString (sha256.Sum256 fixtures.hello)) 16
                   ++ ExtensionFromMIME "image/png")
                  (hex.EncodeToString (sha256.Sum256 fixtures.hello)) None "image/png"
                  (Z.of_nat (length fixtures.hello))))
    /\ os.lookup fs' (baseDir fixtures.local) = inr os.Dir.
Proof.
  refine (local_Store_succeeds fixtures.local fixtures.disk fixtures.hello
            "image/png" "test" _ _ _ _).
  - reflexivity.
  - vm_compute; reflexivity.
  - reflexivity.
  - vm_compute; discriminate.
Defined.

(** [Remove] takes away the node of the name, or nothing. *)
Lemma Remove_nodes (fs fs' : os.FS) (name : string) (err : option os.PathError) :
  os.Remove fs name = (fs', err) -> fs' = fs \/ fs' = os.remove_node fs name.
Proof.
  unfold os.Remove, os.Unlink, os.Rmdir.
  destruct (os.lookup fs name) as [e|[d|]].
  - intros [= <- <-]. auto.
  - intros [= <- <-]. auto.
  - destruct (os.resolve fs name) as [|x p] eqn:E; [intros [= <- <-]; auto |].
    destruct (os.has_entries fs (x :: p)); intros [= <- <-]; auto.
Qed.

(** X6: a key without a [..] element names a path below the base directory,
    so [Retrieve] returns such a path and [Delete] leaves every node outside
    the base directory alone. *)
Theorem local_key_stays_inside (s : LocalStorage) (fs : os.FS) (key : string) :
  HasPrefix (os.cwd fs) "/" = true ->
  baseDir s <> "" ->
  ".." ∉ strings.Split key "/" ->
  os.resolve fs (baseDir s) `prefix_of` os.resolve fs (filepath.Join (baseDir s) key)
  /\ (forall path cleanup,
        LocalStorage.Retrieve s fs key = Ok (path, cleanup) ->
        os.resolve fs (baseDir s) `prefix_of` os.resolve fs path)
  /\ (forall fs' err q,
        LocalStorage.Delete s fs key = (fs', err) ->
        ~ os.resolve fs (baseDir s) `prefix_of` q ->
        os.nodes fs' !! q = os.nodes fs !! q).
Proof.
  intros Hcwd Hbase Hkey.
  assert (Hin : os.resolve fs (baseDir s)
                `prefix_of` os.resolve fs (filepath.Join (baseDir s) key)).
  { rewrite Join_resolve_inside by assumption. apply prefix_app_r. reflexivity. }
  split; [exact Hin |]. split.
  - intros path cleanup. unfold LocalStorage.Retrieve. cbv zeta.
    destruct (os.IsNotExist _); [discriminate |].
    destruct (os.Stat _ _); [discriminate |]. intros [= <- _]. exact Hin.
  - intros fs' err q. unfold LocalStorage.Delete. cbv zeta.
    destruct (os.Remove fs (filepath.Join (baseDir s) key)) as [fs1 e] eqn:R.
    intros Hd Hq.
    assert (fs' = fs1) as -> by (destruct e; [destruct (negb _) |]; congruence).
    apply Remove_nodes in R as [-> | ->]; [reflexivity |].
    unfold os.remove_node. cbn [os.nodes]. apply lookup_delete_ne.
    intros <-. apply Hq, Hin.
Qed.

Lemma local_key_stays_inside_witness :
  os.resolve fixtures.disk (baseDir fixtures.local)
  `prefix_of` os.resolve fixtures.disk (filepath.Join (baseDir fixtures.local) "sub/./a.png")
  /\ (forall path cleanup,
        LocalStorage.Retrieve fixtures.local fixtures.disk "sub/./a.png" = Ok (path, cleanup) ->
        os.resolve fixtures.disk (baseDir fixtures.local) `prefix_of` os.resolve fixtures.disk path)
  /\ (forall fs' err q,
        LocalStorage.Delete fixtures.local fixtures.disk "sub/./a.png" = (fs', err) ->
        ~ os.resolve fixtures.disk (baseDir fixtures.local) `prefix_of` q ->
        os.nodes fs' !! q = os.nodes fixtures.disk !! q).
Proof.
  refine (local_key_stays_inside fixtures.local fixtures.disk "sub/./a.png" _ _ _).
  - reflexivity.
  - discriminate.
  - vm_compute. intros H.
    repeat (apply elem_of_cons in H as [H|H]; [discriminate H |]).
    apply elem_of_nil in H. exact H.
Defined.

(** Appending a tail without separator to a path extends its last element. *)
Lemma Split_tail (p tail : string) :
  no_slash tail = true ->
  exists xs x,
    strings.Split p "/" = (xs ++ [x])%list
    /\ strings.Split (p ++ tail) "/" = (xs ++ [(x ++ tail)%string])%list.
Proof.
  intros Ht. induction p as [|c p (xs & x & E1 & E2)].
  - exists [], "". split; [reflexivity |]. apply Split_without, Ht.
  - change (String c p ++ tail) with (String c (p ++ tail)). cbn [strings.Split].
    rewrite E1, E2. destruct (Ascii.eqb c "/").
    + exists ("" :: xs), x. split; reflexivity.
    + destruct xs as [|y ys].
      * exists [], (String c x). split; reflexivity.
      * exists (String c y :: ys), x. split; reflexivity.
Qed.

Lemma WriteFile_nodes (fs fs' : os.FS) (name : string) (data : bytes)
    (err : option os.PathError) :
  os.WriteFile fs name data = (fs', err) ->
  fs' = fs
  \/ fs' = os.mkFS (<[os.resolve fs name := os.File data]> (os.nodes fs)) (os.cwd fs).
Proof.
  unfold os.WriteFile. destruct (String.eqb name ""); [intros [= <- <-]; auto |].
  cbv zeta. destruct (os.walk fs [] _) as [e|[d|]]; try (intros [= <- <-]; auto).
  destruct (os.node_at fs _) as [[d|]|]; intros [= <- <-]; auto.
Qed.

(** X7: [Store] with a prefix that has no [..] element writes below the base
    directory: every node outside it is left alone. *)
Theorem local_Store_stays_inside (s : LocalStorage) (fs fs' : os.FS)
    (d : bytes) (m p : string) (res : result StorageResult) (q : list string) :
  HasPrefix (os.cwd fs) "/" = true ->
  baseDir s <> "" ->
  ".." ∉ strings.Split p "/" ->
  LocalStorage.Store s fs d m p = (fs', res) ->
  ~ os.resolve fs (baseDir s) `prefix_of` q ->
  os.nodes fs' !! q = os.nodes fs !! q.
Proof.
  intros Hcwd Hbase Hp. unfold LocalStorage.Store. cbv zeta.
  set (h := slice_to (hex.EncodeToString (sha256.Sum256 d)) 16).
  set (tail := "_" ++ h ++ ExtensionFromMIME m).
  change (p ++ "_" ++ h ++ ExtensionFromMIME m) with (p ++ tail).
  assert (Htail : no_slash tail = true).
  { unfold tail, no_slash. rewrite !all_chars_app.
    fold (no_slash (ExtensionFromMIME m)). rewrite ExtensionFromMIME_no_slash.
    unfold h. rewrite all_chars_slice_to; [reflexivity |].
    eapply all_chars_impl; [exact lower_hex_digit_no_slash |].
    apply EncodeToString_lower. }
  assert (Hkey : ".." ∉ strings.Split (p ++ tail) "/").
  { destruct (Split_tail p tail Htail) as (xs & x & E1 & E2). rewrite E2.
    rewrite E1 in Hp. intros [H | H]%elem_of_app.
    - apply Hp, elem_of_app. auto.
    - apply list_elem_of_singleton in H. apply (f_equal String.length) in H.
      unfold tail in H. rewrite !length_append in H. unfold h in H.
      rewrite hash16_length in H. cbn in H. lia. }
  assert (Hin : os.resolve fs (baseDir s)
                `prefix_of` os.resolve fs (filepath.Join (baseDir s) (p ++ tail))).
  { rewrite Join_resolve_inside by assumption. apply prefix_app_r. reflexivity. }
  destruct (os.WriteFile fs _ d) as [fs1 e] eqn:W. intros Hs Hq.
  assert (fs' = fs1) as -> by (destruct e; congruence).
  apply WriteFile_nodes in W as [-> | ->]; [reflexivity |].
  cbn [os.nodes]. apply lookup_insert_ne. intros <-. apply Hq, Hin.
Qed.

Lemma local_Store_stays_inside_witness :
  os.nodes (LocalStorage.Store fixtures.local fixtures.disk fixtures.hello
              "image/png" "sub/test").1 !! ["srv"; "secret.txt"]
  = os.nodes fixtures.disk !! ["srv"; "secret.txt"].
Proof.
  refine (local_Store_stays_inside fixtures.local fixtures.disk _ fixtures.hello
            "image/png" "sub/test"
            (LocalStorage.Store fixtures.local fixtures.disk fixtures.hello
               "image/png" "sub/test").2 ["srv"; "secret.txt"] _ _ _ _ _).
  - reflexivity.
  - discriminate.
  - vm_compute. intros H.
    repeat (apply elem_of_cons in H as [H|H]; [discriminate H |]).
    apply elem_of_nil in H. exact H.
  - vm_compute; reflexivity.
  - vm_compute. intros [k Hk]. discriminate Hk.
Defined.

(** X8: the empty key names the base directory itself.  [Retrieve] returns
    it as if it were an object.  [Delete] fails when the directory has
    entries; when it has none, [Delete] removes it, and nothing can be
    stored any more. *)
Theorem local_empty_key (s : LocalStorage) (fs : os.FS) :
  HasPrefix (os.cwd fs) "/" = true ->
  os.lookup fs (baseDir s) = inr os.Dir ->
  os.resolve fs (baseDir s) <> [] ->
  let path := filepath.Join (baseDir s) "" in
  os.resolve fs path = os.resolve fs (baseDir s)
  /\ LocalStorage.Retrieve s fs "" = Ok (path, Some cleanup_nothing)
  /\ if os.has_entries fs (os.resolve fs (baseDir s))
     then LocalStorage.Delete s fs ""
          = (fs, Some ("failed to delete file: "
                       ++ os.Error (os.mkPathError "remove" path os.ENOTEMPTY)))
     else exists fs',
        LocalStorage.Delete s fs "" = (fs', None)
        /\ os.lookup fs' (baseDir s) = inl os.ENOENT
        /\ forall d m p, no_slash p = true ->
             exists e, LocalStorage.Store s fs' d m p = (fs', Err e).
Proof.
  intros Hcwd Hbase Hroot path.
  pose proof (lookup_not_empty _ _ _ Hbase) as Hne.
  pose proof (Join_resolve_empty fs (baseDir s) Hcwd Hne) as Hres. fold path in Hres.
  pose proof (Join_not_empty (baseDir s) "" Hne) as Hj. fold path in Hj.
  assert (Hl : os.lookup fs path = inr os.Dir).
  { unfold os.lookup. apply String.eqb_neq in Hj. rewrite Hj, Hres.
    apply lookup_walk, Hbase. }
  split; [exact Hres |]. split.
  - unfold LocalStorage.Retrieve, os.Stat. cbv zeta. fold path. rewrite Hl. reflexivity.
  - destruct (os.has_entries fs (os.resolve fs (baseDir s))) eqn:Hempty.
    { unfold LocalStorage.Delete, os.Remove, os.Unlink, os.Rmdir. cbv zeta.
      fold path. rewrite Hl, Hres.
      destruct (os.resolve fs (baseDir s)) as [|x p] eqn:E; [congruence |].
      rewrite Hempty. reflexivity. }
    assert (Hd : LocalStorage.Delete s fs "" = (os.remove_node fs path, None)).
    { unfold LocalStorage.Delete, os.Remove, os.Unlink, os.Rmdir. cbv zeta.
      fold path. rewrite Hl, Hres.
      destruct (os.resolve fs (baseDir s)) as [|x p] eqn:E; [congruence |].
      rewrite Hempty. reflexivity. }
    exists (os.remove_node fs path).
    split; [exact Hd |].
    assert (Hgone : os.walk (os.remove_node fs path) []
                      (os.resolve fs (baseDir s)) = inl os.ENOENT).
    { pose proof (lookup_remove_node fs path os.Dir Hl) as H.
      rewrite Hres in H. specialize (H Hroot). unfold os.lookup in H.
      apply String.eqb_neq in Hj. rewrite Hj in H.
      rewrite resolve_remove_node, Hres in H. exact H. }
    split.
    + unfold os.lookup. apply String.eqb_neq in Hne. rewrite Hne.
      rewrite resolve_remove_node. exact Hgone.
    + intros d m p Hp. unfold LocalStorage.Store. cbv zeta.
      set (f := p ++ "_" ++ slice_to (hex.EncodeToString (sha256.Sum256 d)) 16
                ++ ExtensionFromMIME m).
      pose proof (filename_plain p m d Hp) as Hf. fold f in Hf.
      pose proof (Join_resolve_name fs (baseDir s) f Hcwd Hne Hf) as Hrf.
      pose proof (Join_not_empty (baseDir s) f Hne) as Hjf.
      unfold os.WriteFile. apply String.eqb_neq in Hjf. rewrite Hjf. cbv zeta.
      rewrite resolve_remove_node, Hrf, removelast_last, Hgone.
      eexists. reflexivity.
Qed.

Lemma local_empty_key_witness :
  os.resolve fixtures.disk (filepath.Join "/tmp" "") = os.resolve fixtures.disk "/tmp"
  /\ LocalStorage.Retrieve (mkLocalStorage "/tmp") fixtures.disk ""
     = Ok (filepath.Join "/tmp" "", Some cleanup_nothing)
  /\ exists fs',
       LocalStorage.Delete (mkLocalStorage "/tmp") fixtures.disk "" = (fs', None)
       /\ os.lookup fs' "/tmp" = inl os.ENOENT
       /\ forall d m p, no_slash p = true ->
            exists e, LocalStorage.Store (mkLocalStorage "/tmp") fs' d m p = (fs', Err e).
Proof.
  refine (local_empty_key (mkLocalStorage "/tmp") fixtures.disk _ _ _).
  - reflexivity.
  - vm_compute; reflexivity.
  - vm_compute; discriminate.
Defined.

(** ** The remote backend *)

Lemma PutObject_ok (svc svc' : minio.Service) (now : time.Time) (b k : string)
    (d : bytes) (opts : minio.PutObjectOptions) :
  minio.PutObject svc now b k d opts = (svc', None) ->
  exists objs,
    minio.buckets svc !! b = Some objs
    /\ minio.refuses svc (minio.ReqPut b k) = None
    /\ svc' = minio.with_buckets svc
                (<[b := <[k := minio.mkObject d (minio.ContentType opts)
                                  (minio.UserMetadata opts) now]> objs]>
                   (minio.buckets svc)).
Proof.
  unfold minio.PutObject. destruct (minio.refuses svc _) as [e|]; [discriminate |].
  destruct (minio.buckets svc !! b) as [objs|]; [| discriminate].
  intros [= <-]. eauto.
Qed.

Lemma PutObject_served (svc : minio.Service) (now : time.Time) (b k : string)
    (d : bytes) (opts : minio.PutObjectOptions) (objs : gmap string minio.Object) :
  minio.buckets svc !! b = Some objs ->
  minio.refuses svc (minio.ReqPut b k) = None ->
  minio.PutObject svc now b k d opts
  = (minio.with_buckets svc
       (<[b := <[k := minio.mkObject d (minio.ContentType opts)
                         (minio.UserMetadata opts) now]> objs]> (minio.buckets svc)),
     None).
Proof. unfold minio.PutObject. intros -> ->. reflexivity. Qed.

(** A successful [Store], step by step. *)
Lemma S3Storage_Store_inv (s : S3Storage) (w w' : World)
    (d : bytes) (m p : string) (r : StorageResult) :
  S3Storage.Store s w d m p = (w', Ok r) ->
  exists objs,
    minio.buckets (s3 w) !! bucket s = Some objs
    /\ w' = with_s3 w (minio.with_buckets (s3 w)
                         (<[bucket s := <[ObjectKey r := stored_object s (clock w) d m]> objs]>
                            (minio.buckets (s3 w)))).
Proof.
  unfold S3Storage.Store. cbv zeta.
  destruct (minio.PutObject _ _ _ _ _ _) as [svc [e|]] eqn:P; [discriminate |].
  destruct (minio.PresignedGetObject _ _ _ _) as [u|e]; [| discriminate].
  intros [= <- <-]. cbn [ObjectKey].
  apply PutObject_ok in P as (objs & Hb & _ & ->).
  exists objs. split; [exact Hb | reflexivity].
Qed.

(** X9: a successful remote [Store] puts the data under the returned key,
    with its MIME type, the two dates as metadata and the time of the
    upload; no other object, and nothing else, changes. *)
Theorem remote_Store_object (s : S3Storage) (w w' : World)
    (d : bytes) (m p : string) (r : StorageResult) :
  S3Storage.Store s w d m p = (w', Ok r) ->
  object_at w' (bucket s) (ObjectKey r) = Some (stored_object s (clock w) d m)
  /\ (forall b k, b <> bucket s \/ k <> ObjectKey r ->
        object_at w' b k = object_at w b k)
  /\ (minio.refuses (s3 w') (minio.ReqGet (bucket s) (ObjectKey r)) = None ->
      minio.GetObject (s3 w') (bucket s) (ObjectKey r) = Ok d)
  /\ fs w' = fs w /\ clock w' = clock w /\ chans w' = chans w
  /\ routines w' = routines w.
Proof.
  intros (objs & Hb & ->)%S3Storage_Store_inv.
  assert (Hat : object_at
                  (with_s3 w (minio.with_buckets (s3 w)
                     (<[bucket s := <[ObjectKey r := stored_object s (clock w) d m]> objs]>
                        (minio.buckets (s3 w)))))
                  (bucket s) (ObjectKey r)
                = Some (stored_object s (clock w) d m)).
  { unfold object_at. cbn. rewrite lookup_insert_eq. cbn. apply lookup_insert_eq. }
  split; [exact Hat |]. split; [| split; [| repeat split]].
  - intros b k Hne. unfold object_at. cbn.
    destruct (decide (b = bucket s)) as [-> | Hb'].
    + rewrite lookup_insert_eq, Hb. cbn. destruct Hne as [Hne | Hne]; [congruence |].
      apply lookup_insert_ne. congruence.
    + rewrite lookup_insert_ne by congruence. reflexivity.
  - intros Hget. unfold minio.GetObject. rewrite Hget.
    unfold object_at in Hat. cbn in Hat |- *.
    rewrite lookup_insert_eq in Hat |- *. cbn in Hat. rewrite Hat. reflexivity.
Qed.

Lemma remote_Store_object_witness :
  let w' := (S3Storage.Store fixtures.remote fixtures.world fixtures.hello
               "video/mp4" "clip").1 in
  let key := "2024/12/23/clip_7509e5bda0c762d2.mp4" in
  object_at w' "media" key
  = Some (stored_object fixtures.remote fixtures.noon fixtures.hello "video/mp4")
  /\ (forall b k, b <> "media" \/ k <> key ->
        object_at w' b k = object_at fixtures.world b k)
  /\ (minio.refuses (s3 w') (minio.ReqGet "media" key) = None ->
      minio.GetObject (s3 w') "media" key = Ok fixtures.hello)
  /\ fs w' = fs fixtures.world /\ clock w' = clock fixtures.world
  /\ chans w' = chans fixtures.world /\ routines w' = routines fixtures.world.
Proof.
  refine (remote_Store_object fixtures.remote fixtures.world _ fixtures.hello
            "video/mp4" "clip"
            (mkStorageResult
               "http://minio:9000/media/2024/12/23/clip_7509e5bda0c762d2.mp4?X-Amz-Signature=0"
               "2024/12/23/clip_7509e5bda0c762d2.mp4"
               "7509e5bda0c762d2bac7f90d758b5b2263fa01ccbc542ab5e3df163be08e6ca9"
               (Some (fixtures.noon + 24 * time.Hour)%Z) "video/mp4" 12) _).
  vm_compute; reflexivity.
Defined.

(** X10: with a presign TTL that the signer rejects (under a second, or over
    seven days), [Store] never succeeds; when the upload itself is served,
    the object is in the bucket all the same, and the error is that of the
    signer. *)
Theorem remote_Store_presign_rejected (s : S3Storage) (w : World)
    (d : bytes) (m p : string) (e : string) :
  minio.isValidExpiry (presignTTL s) = Some e ->
  let key := time.Format_date (clock w) ++ "/" ++ p ++ "_"
             ++ slice_to (hex.EncodeToString (sha256.Sum256 d)) 16
             ++ ExtensionFromMIME m in
  (forall w' r, S3Storage.Store s w d m p <> (w', Ok r))
  /\ (serves w (bucket s) (minio.ReqPut (bucket s) key) ->
      exists w',
        S3Storage.Store s w d m p
        = (w', Err ("failed to generate presigned URL: " ++ e))
        /\ object_at w' (bucket s) key = Some (stored_object s (clock w) d m)).
Proof.
  intros He key. split.
  - intros w' r. unfold S3Storage.Store. cbv zeta.
    destruct (minio.PutObject _ _ _ _ _ _) as [svc [e1|]]; [discriminate |].
    unfold minio.PresignedGetObject. rewrite He. discriminate.
  - intros [[objs Hb] Hr]. unfold S3Storage.Store. cbv zeta. fold key.
    rewrite (PutObject_served _ _ _ _ _ _ objs Hb Hr).
    unfold minio.PresignedGetObject. rewrite He.
    eexists. split; [reflexivity |].
    unfold object_at. cbn. rewrite lookup_insert_eq. cbn. apply lookup_insert_eq.
Qed.

Lemma remote_Store_presign_rejected_witness :
  let s := mkS3Storage (client fixtures.remote) "media" (8 * fixtures.day)%Z
             (24 * time.Hour)%Z time.Hour 0 in
  let key := time.Format_date (clock fixtures.world) ++ "/" ++ "clip" ++ "_"
             ++ slice_to (hex.EncodeToString (sha256.Sum256 fixtures.hello)) 16
             ++ ExtensionFromMIME "video/mp4" in
  (forall w' r, S3Storage.Store s fixtures.world fixtures.hello "video/mp4" "clip"
                <> (w', Ok r))
  /\ (serves fixtures.world (bucket s) (minio.ReqPut (bucket s) key) ->
      exists w',
        S3Storage.Store s fixtures.world fixtures.hello "video/mp4" "clip"
        = (w', Err ("failed to generate presigned URL: "
                    ++ "Expires cannot be greater than 7 days."))
        /\ object_at w' (bucket s) key
           = Some (stored_object s (clock fixtures.world) fixtures.hello "video/mp4")).
Proof.
  refine (remote_Store_presign_rejected
            (mkS3Storage (client fixtures.remote) "media" (8 * fixtures.day)%Z
               (24 * time.Hour)%Z time.Hour 0)
            fixtures.world fixtures.hello "video/mp4" "clip"
            "Expires cannot be greater than 7 days." _).
  vm_compute; reflexivity.
Defined.

(** X11: an object that was stored can be deleted when the store serves the
    removal; it is then gone, and when the key was new the world is back to
    what it was before the [Store]. *)
Theorem remote_Store_then_Delete (s : S3Storage) (w w1 : World)
    (d : bytes) (m p : string) (r : StorageResult) :
  S3Storage.Store s w d m p = (w1, Ok r) ->
  minio.refuses (s3 w) (minio.ReqRemove (bucket s) (ObjectKey r)) = None ->
  exists w2,
    S3Storage.Delete s w1 (ObjectKey r) = (w2, None)
    /\ object_at w2 (bucket s) (ObjectKey r) = None
    /\ (forall b k, b <> bucket s \/ k <> ObjectKey r ->
          object_at w2 b k = object_at w b k)
    /\ (object_at w (bucket s) (ObjectKey r) = None -> w2 = w).
Proof.
  intros (objs & Hb & ->)%S3Storage_Store_inv Hr.
  set (o := stored_object s (clock w) d m).
  unfold S3Storage.Delete, minio.RemoveObject. cbn [s3 with_s3 minio.refuses minio.with_buckets minio.buckets].
  rewrite Hr, lookup_insert_eq.
  eexists. split; [reflexivity |]. unfold object_at. cbn.
  rewrite insert_insert_eq, delete_insert_eq. split; [| split].
  - rewrite lookup_insert_eq. cbn. apply lookup_delete_eq.
  - intros b k Hne.
    destruct (decide (b = bucket s)) as [-> | Hb'].
    + rewrite lookup_insert_eq, Hb. cbn. destruct Hne as [Hne | Hne]; [congruence |].
      apply lookup_delete_ne. congruence.
    + rewrite lookup_insert_ne by congruence. reflexivity.
  - rewrite Hb. cbn. intros Hnone.
    unfold with_s3, minio.with_buckets. cbn.
    rewrite (delete_id objs) by exact Hnone.
    rewrite insert_id by exact Hb.
    destruct w as [f svc c ch ro t]. destruct svc. reflexivity.
Qed.

Lemma remote_Store_then_Delete_witness :
  let w1 := (S3Storage.Store fixtures.remote fixtures.world fixtures.hello
               "video/mp4" "clip").1 in
  let key := "2024/12/23/clip_7509e5bda0c762d2.mp4" in
  exists w2,
    S3Storage.Delete fixtures.remote w1 key = (w2, None)
    /\ object_at w2 "media" key = None
    /\ (forall b k, b <> "media" \/ k <> key ->
          object_at w2 b k = object_at fixtures.world b k)
    /\ (object_at fixtures.world "media" key = None -> w2 = fixtures.world).
Proof.
  refine (remote_Store_then_Delete fixtures.remote fixtures.world _ fixtures.hello
            "video/mp4" "clip"
            (mkStorageResult
               "http://minio:9000/media/2024/12/23/clip_7509e5bda0c762d2.mp4?X-Amz-Signature=0"
               "2024/12/23/clip_7509e5bda0c762d2.mp4"
               "7509e5bda0c762d2bac7f90d758b5b2263fa01ccbc542ab5e3df163be08e6ca9"
               (Some (fixtures.noon + 24 * time.Hour)%Z) "video/mp4" 12) _ _).
  - vm_compute; reflexivity.
  - reflexivity.
Defined.

(** A successful [NewS3Storage], step by step. *)
Lemma NewS3Storage_ok (parseAuthority : string -> result string)
    (validEndpoint : string -> bool) (cfg : S3Config) (w w' : World) (s : S3Storage) :
  NewS3Storage parseAuthority validEndpoint cfg w = (w', Ok s) ->
  exists svc,
    (svc = s3 w /\ is_Some (minio.buckets (s3 w) !! Bucket cfg)
     \/ minio.buckets (s3 w) !! Bucket cfg = None
        /\ svc = minio.with_buckets (s3 w) (<[Bucket cfg := ∅]> (minio.buckets (s3 w))))
    /\ stopCleanup s = fresh (dom (chans w))
    /\ bucket s = Bucket cfg
    /\ presignTTL s = PresignTTL cfg
    /\ objectTTL s = ObjectTTL cfg
    /\ cleanupInterval s = CleanupInterval cfg
    /\ w' = mkWorld (fs w) svc (clock w) (<[stopCleanup s := ChanOpen]> (chans w))
              (<[stopCleanup s := mkRoutine s false false]> (routines w)) (temp_seq w).
Proof.
  unfold NewS3Storage.
  destruct (parseEndpoint parseAuthority (Endpoint cfg) (UseSSL cfg)) as [endpoint useSSL].
  destruct (minio_New validEndpoint endpoint _) as [cl|e]; [| discriminate].
  unfold minio.BucketExists.
  destruct (minio.refuses (s3 w) (minio.ReqBucketExists (Bucket cfg))); [discriminate |].
  destruct (minio.buckets (s3 w) !! Bucket cfg) as [objs|] eqn:Hb.
  - rewrite bool_decide_true by eauto. intros [= <- <-]. cbn.
    exists (s3 w). split; [left; split; [reflexivity | eauto] |].
    repeat split; reflexivity.
  - rewrite bool_decide_false by (intros [? ?]; discriminate).
    unfold minio.MakeBucket.
    destruct (minio.refuses (s3 w) (minio.ReqMakeBucket (Bucket cfg))); [discriminate |].
    rewrite Hb. intros [= <- <-]. cbn.
    eexists. split; [right; split; reflexivity |].
    repeat split; reflexivity.
Qed.

Lemma NewS3Storage_failed (parseAuthority : string -> result string)
    (validEndpoint : string -> bool) (cfg : S3Config) (w w' : World) (e : string) :
  NewS3Storage parseAuthority validEndpoint cfg w = (w', Err e) -> w' = w.
Proof.
  unfold NewS3Storage.
  destruct (parseEndpoint parseAuthority (Endpoint cfg) (UseSSL cfg)) as [endpoint useSSL].
  destruct (minio_New validEndpoint endpoint _) as [cl|e1]; [| congruence].
  destruct (minio.BucketExists (s3 w) (Bucket cfg)) as [[|]|e1]; try congruence.
  destruct (minio.MakeBucket (s3 w) (Bucket cfg)) as [svc [e1|]]; congruence.
Qed.

(** X12: a successful [NewS3Storage] leaves the bucket in existence without
    touching any object there was, opens a stop channel that no one else
    holds, starts the cleanup goroutine of the new storage and leaves the
    other channels and goroutines as they are, and the new storage can be
    closed; a failed one leaves no bucket, channel or goroutine behind. *)
Theorem NewS3Storage_effects (parseAuthority : string -> result string)
    (validEndpoint : string -> bool) (cfg : S3Config) (w w' : World)
    (res : result S3Storage) :
  NewS3Storage parseAuthority validEndpoint cfg w = (w', res) ->
  match res with
  | Err _ => w' = w
  | Ok s =>
      is_Some (minio.buckets (s3 w') !! bucket s)
      /\ (forall b k, object_at w' b k = object_at w b k)
      /\ chans w !! stopCleanup s = None
      /\ chans w' !! stopCleanup s = Some ChanOpen
      /\ (forall c, c <> stopCleanup s -> chans w' !! c = chans w !! c)
      /\ routines w' !! stopCleanup s = Some (mkRoutine s false false)
      /\ (forall c, c <> stopCleanup s -> routines w' !! c = routines w !! c)
      /\ fs w' = fs w
      /\ exists w'', S3Storage.Close s w' = (w'', Returns None)
  end.
Proof.
  destruct res as [s|e]; [| apply NewS3Storage_failed].
  intros (svc & Hsvc & Hc & Hb & _ & _ & _ & ->)%NewS3Storage_ok. cbn.
  assert (Hfresh : chans w !! stopCleanup s = None).
  { rewrite Hc. apply not_elem_of_dom, is_fresh. }
  split; [| split; [| split; [exact Hfresh | split; [apply lookup_insert_eq | split;
    [intros c Hne; apply lookup_insert_ne; congruence | split;
     [apply lookup_insert_eq | split;
      [intros c Hne; apply lookup_insert_ne; congruence | split; [reflexivity |]]]]]]]].
  - rewrite Hb. destruct Hsvc as [[-> H] | [_ ->]]; [exact H |].
    cbn. rewrite lookup_insert_eq. eauto.
  - intros b k. unfold object_at. cbn.
    destruct Hsvc as [[-> _] | [Hnone ->]]; [reflexivity |]. cbn.
    destruct (decide (b = Bucket cfg)) as [-> | Hne].
    + rewrite lookup_insert_eq, Hnone. reflexivity.
    + rewrite lookup_insert_ne by congruence. reflexivity.
  - unfold S3Storage.Close. cbn. rewrite lookup_insert_eq. cbn. eauto.
Qed.

Lemma NewS3Storage_effects_witness :
  let cfg := mkS3Config "https://s3.example.com" "key" "secret" "us-east-1" "fresh" true
               (24 * time.Hour)%Z (24 * time.Hour)%Z time.Hour in
  let s := mkS3Storage
             (minio.mkClient "s3.example.com"
                (minio.mkOptions "key" "secret" true "us-east-1"))
             "fresh" (24 * time.Hour)%Z (24 * time.Hour)%Z time.Hour 1 in
  let w' := (NewS3Storage url.hostport_authority (fun _ => true) cfg fixtures.world).1 in
  is_Some (minio.buckets (s3 w') !! bucket s)
  /\ (forall b k, object_at w' b k = object_at fixtures.world b k)
  /\ chans fixtures.world !! stopCleanup s = None
  /\ chans w' !! stopCleanup s = Some ChanOpen
  /\ (forall c, c <> stopCleanup s -> chans w' !! c = chans fixtures.world !! c)
  /\ routines w' !! stopCleanup s = Some (mkRoutine s false false)
  /\ (forall c, c <> stopCleanup s -> routines w' !! c = routines fixtures.world !! c)
  /\ fs w' = fs fixtures.world
  /\ exists w'', S3Storage.Close s w' = (w'', Returns None).
Proof.
  refine (NewS3Storage_effects url.hostport_authority (fun _ => true)
            (mkS3Config "https://s3.example.com" "key" "secret" "us-east-1" "fresh" true
               (24 * time.Hour)%Z (24 * time.Hour)%Z time.Hour)
            fixtures.world _
            (Ok (mkS3Storage
                   (minio.mkClient "s3.example.com"
                      (minio.mkOptions "key" "secret" true "us-east-1"))
                   "fresh" (24 * time.Hour)%Z (24 * time.Hour)%Z time.Hour 1)) _).
  vm_compute; reflexivity.
Defined.

(** ** The sweep and the cleanup goroutine, as a system *)

(** One entry of a sweep removes at most one object of the bucket of the
    storage, and changes nothing else of the service. *)
Lemma sweep_entry_service (s : S3Storage) (now : time.Time)
    (svc : minio.Service) (r : SweepReport) (o : minio.ObjectInfo) :
  let svc' := (S3Storage.sweep_entry s now (svc, r) o).1 in
  minio.refuses svc' = minio.refuses svc
  /\ minio.list_cut svc' = minio.list_cut svc
  /\ minio.sign svc' = minio.sign svc
  /\ forall b, b <> bucket s -> minio.buckets svc' !! b = minio.buckets svc !! b.
Proof.
  unfold S3Storage.sweep_entry. destruct (minio.Err o); [cbn; auto |].
  destruct (_ <? _)%Z; [| cbn; auto].
  unfold minio.RemoveObject.
  destruct (minio.refuses svc _); [cbn; auto |].
  destruct (minio.buckets svc !! bucket s); [| cbn; auto].
  cbn. repeat split; auto. intros b Hb. apply lookup_insert_ne. congruence.
Qed.

Lemma sweep_fold_service (s : S3Storage) (now : time.Time)
    (listing : list minio.ObjectInfo) (svc : minio.Service) (r : SweepReport) :
  let svc' := (fold_left (S3Storage.sweep_entry s now) listing (svc, r)).1 in
  minio.refuses svc' = minio.refuses svc
  /\ minio.list_cut svc' = minio.list_cut svc
  /\ minio.sign svc' = minio.sign svc
  /\ forall b, b <> bucket s -> minio.buckets svc' !! b = minio.buckets svc !! b.
Proof.
  revert svc r. induction listing as [|o listing IH]; intros svc r; [cbn; auto |].
  cbn [fold_left].
  destruct (S3Storage.sweep_entry s now (svc, r) o) as [svc1 r1] eqn:E.
  pose proof (sweep_entry_service s now svc r o) as H. rewrite E in H. cbn in H.
  destruct H as (H1 & H2 & H3 & H4).
  destruct (IH svc1 r1) as (I1 & I2 & I3 & I4). cbv zeta.
  repeat split; try congruence. intros b Hb. rewrite I4, H4 by exact Hb. reflexivity.
Qed.

(** An object of the bucket that is not older than the TTL is still there
    after the sweep. *)
Lemma sweep_keeps (s : S3Storage) (w : World) (key : string) (obj : minio.Object) :
  object_at w (bucket s) key = Some obj ->
  (objectTTL s <? time.Sub (clock w) (minio.lastModified obj))%Z = false ->
  object_at (S3Storage.cleanupExpiredObjects s w).1 (bucket s) key = Some obj.
Proof.
  intros Hat Hfresh. unfold object_at in *. rewrite cleanupExpiredObjects_s3.
  destruct (minio.buckets (s3 w) !! bucket s) as [objs|] eqn:Hb; [| discriminate].
  cbn in Hat.
  destruct (sweep_fold s (clock w) (minio.ListObjects (s3 w) (bucket s))
              (s3 w) (mkSweepReport 0 0 []) objs Hb) as (objs' & H1 & H2).
  rewrite H1. cbn. rewrite H2, Hat.
  assert (Hreq : removal_requested s (clock w)
                   (minio.ListObjects (s3 w) (bucket s)) key = false).
  { apply not_true_is_false. intros H.
    apply existsb_exists in H as (o & Hin & H).
    rewrite !andb_true_iff in H. destruct H as [[He Hx] Hk].
    apply bool_decide_eq_true in He. apply String.eqb_eq in Hk.
    apply list_elem_of_In in Hin.
    destruct (ListObjects_entry _ _ _ Hin He) as (objs0 & obj0 & Hb0 & Ho & Hinfo).
    rewrite Hinfo in Hx. unfold expired in Hx. cbn in Hx.
    assert (obj0 = obj) as -> by congruence. congruence. }
  rewrite Hreq. reflexivity.
Qed.

Lemma listed_keys_cons (o : minio.ObjectInfo) (l : list minio.ObjectInfo) :
  listed_keys (o :: l)
  = match minio.Err o with
    | None => minio.Key o :: listed_keys l
    | Some _ => listed_keys l
    end.
Proof. unfold listed_keys. cbn. destruct (minio.Err o); reflexivity. Qed.

Lemma listed_keys_info (l : list (string * minio.Object)) :
  listed_keys (minio.info <$> l) = l.*1.
Proof. induction l as [|kv l IH]; [reflexivity |]. cbn. f_equal. exact IH. Qed.

Lemma listed_keys_elem (listing : list minio.ObjectInfo) (k : string) :
  k ∈ listed_keys listing ->
  exists o, o ∈ listing /\ minio.Err o = None /\ minio.Key o = k.
Proof.
  unfold listed_keys. intros (o & Ho & H)%list_elem_of_omap.
  exists o. destruct (minio.Err o); [discriminate |].
  injection H as <-. auto.
Qed.

(** A listing names every object at most once, and only objects of the
    bucket. *)
Lemma ListObjects_keys (svc : minio.Service) (b : string) :
  NoDup (listed_keys (minio.ListObjects svc b))
  /\ forall k, k ∈ listed_keys (minio.ListObjects svc b) ->
       is_Some (minio.buckets svc !! b ≫= (.!! k)).
Proof.
  split.
  - unfold minio.ListObjects. destruct (minio.buckets svc !! b) as [objs|]; [| constructor].
    destruct (minio.refuses svc _).
    + unfold listed_keys. rewrite omap_app. cbn. rewrite app_nil_r.
      fold (listed_keys (take (minio.list_cut svc) (minio.info <$> map_to_list objs))).
      rewrite <- fmap_take, listed_keys_info, fmap_take.
      apply (sublist_NoDup _ ((map_to_list objs).*1));
        [apply NoDup_fst_map_to_list | apply sublist_take].
    + rewrite listed_keys_info. apply NoDup_fst_map_to_list.
  - intros k (o & Hin & He & <-)%listed_keys_elem.
    destruct (ListObjects_entry _ _ _ Hin He) as (objs & obj & Hb & Ho & _).
    rewrite Hb. cbn. rewrite Ho. eauto.
Qed.

(** One entry counts one deletion when it takes its object out of the
    bucket, and at most one deletion or error. *)
Lemma sweep_entry_count (s : S3Storage) (now : time.Time)
    (svc : minio.Service) (r : SweepReport) (o : minio.ObjectInfo)
    (objs : gmap string minio.Object) :
  minio.buckets svc !! bucket s = Some objs ->
  (minio.Err o = None -> is_Some (objs !! minio.Key o)) ->
  exists objs1,
    minio.buckets (S3Storage.sweep_entry s now (svc, r) o).1 !! bucket s = Some objs1
    /\ size objs1 + deletedCount (S3Storage.sweep_entry s now (svc, r) o).2
       = size objs + deletedCount r
    /\ deletedCount (S3Storage.sweep_entry s now (svc, r) o).2
       + errorCount (S3Storage.sweep_entry s now (svc, r) o).2
       <= deletedCount r + errorCount r + 1
    /\ forall k, (minio.Err o = None -> k <> minio.Key o) -> objs1 !! k = objs !! k.
Proof.
  intros Hb Hin. unfold S3Storage.sweep_entry.
  destruct (minio.Err o) as [e|] eqn:Herr.
  { exists objs. cbn. split; [exact Hb |]. repeat split; auto; lia. }
  destruct (objectTTL s <? time.Sub now (minio.LastModified o))%Z.
  2:{ exists objs. cbn. split; [exact Hb |]. repeat split; auto; lia. }
  unfold minio.RemoveObject. rewrite Hb.
  destruct (minio.refuses svc (minio.ReqRemove (bucket s) (minio.Key o))) as [e|].
  { exists objs. cbn. split; [exact Hb |]. repeat split; auto; lia. }
  exists (delete (minio.Key o) objs). cbn. split; [apply lookup_insert_eq |].
  assert (Hsz : size (delete (minio.Key o) objs) = pred (size objs)).
  { apply map_size_delete_Some, Hin. reflexivity. }
  assert (Hpos : size objs <> 0).
  { intros Hz. apply map_size_empty_iff in Hz. subst objs.
    destruct (Hin eq_refl) as [x Hx]. rewrite lookup_empty in Hx. discriminate. }
  split; [lia |]. split; [lia |].
  intros k Hk. apply lookup_delete_ne. intros <-. exact (Hk eq_refl eq_refl).
Qed.

(** Over a listing that names each object of the bucket at most once, the
    sweep counts one deletion for each object it takes out of the bucket,
    and at most one deletion or error for each entry. *)
Lemma sweep_fold_count (s : S3Storage) (now : time.Time) (listing : list minio.ObjectInfo) :
  forall (svc : minio.Service) (r : SweepReport) (objs : gmap string minio.Object),
    minio.buckets svc !! bucket s = Some objs ->
    NoDup (listed_keys listing) ->
    (forall k, k ∈ listed_keys listing -> is_Some (objs !! k)) ->
    exists objs',
      minio.buckets (fold_left (S3Storage.sweep_entry s now) listing (svc, r)).1
        !! bucket s = Some objs'
      /\ size objs'
         + deletedCount (fold_left (S3Storage.sweep_entry s now) listing (svc, r)).2
         = size objs + deletedCount r
      /\ deletedCount (fold_left (S3Storage.sweep_entry s now) listing (svc, r)).2
         + errorCount (fold_left (S3Storage.sweep_entry s now) listing (svc, r)).2
         <= deletedCount r + errorCount r + length listing.
Proof.
  induction listing as [|o listing IH]; intros svc r objs Hb Hnd Hin.
  - exists objs. cbn. split; [exact Hb |]. split; lia.
  - cbn [fold_left]. rewrite listed_keys_cons in Hnd, Hin.
    assert (Hhead : minio.Err o = None -> is_Some (objs !! minio.Key o)).
    { intros He. apply Hin. rewrite He. left. }
    destruct (sweep_entry_count s now svc r o objs Hb Hhead)
      as (objs1 & H1 & H2 & H3 & H4).
    destruct (S3Storage.sweep_entry s now (svc, r) o) as [svc1 r1]. cbn [fst snd] in *.
    destruct (IH svc1 r1 objs1 H1) as (objs' & I1 & I2 & I3).
    + destruct (minio.Err o); [exact Hnd |]. apply NoDup_cons in Hnd as [_ Hnd]. exact Hnd.
    + intros k Hk. rewrite H4.
      * apply Hin. destruct (minio.Err o); [exact Hk | right; exact Hk].
      * intros He ->. rewrite He in Hnd.
        apply NoDup_cons in Hnd as [Hfresh _]. exact (Hfresh Hk).
    + exists objs'. split; [exact I1 |]. cbn [length]. split; lia.
Qed.

Lemma cleanupExpiredObjects_report (s : S3Storage) (w : World) :
  deletedCount (S3Storage.cleanupExpiredObjects s w).2
  = deletedCount (fold_left (S3Storage.sweep_entry s (clock w))
                    (minio.ListObjects (s3 w) (bucket s)) (s3 w, mkSweepReport 0 0 [])).2
  /\ errorCount (S3Storage.cleanupExpiredObjects s w).2
     = errorCount (fold_left (S3Storage.sweep_entry s (clock w))
                     (minio.ListObjects (s3 w) (bucket s)) (s3 w, mkSweepReport 0 0 [])).2.
Proof.
  unfold S3Storage.cleanupExpiredObjects.
  destruct (fold_left _ _ _) as [svc r]. split; reflexivity.
Qed.

(** X13: what a sweep reports is what it did.  The bucket loses exactly as
    many objects as the sweep counts as deleted, it gains or alters none,
    every entry of the listing counts for at most one deletion or error,
    and nothing outside the bucket of the storage changes. *)
Theorem sweep_report_counts (s : S3Storage) (w : World) (objs : gmap string minio.Object) :
  minio.buckets (s3 w) !! bucket s = Some objs ->
  let w' := (S3Storage.cleanupExpiredObjects s w).1 in
  let r := (S3Storage.cleanupExpiredObjects s w).2 in
  (exists objs',
      minio.buckets (s3 w') !! bucket s = Some objs'
      /\ objs' ⊆ objs
      /\ size objs' + deletedCount r = size objs)
  /\ deletedCount r + errorCount r <= length (minio.ListObjects (s3 w) (bucket s))
  /\ (forall b, b <> bucket s -> minio.buckets (s3 w') !! b = minio.buckets (s3 w) !! b)
  /\ fs w' = fs w /\ clock w' = clock w /\ chans w' = chans w
  /\ routines w' = routines w.
Proof.
  intros Hb w' r. subst w' r.
  destruct (cleanupExpiredObjects_report s w) as [-> ->].
  rewrite cleanupExpiredObjects_s3.
  destruct (ListObjects_keys (s3 w) (bucket s)) as [Hnd Hin].
  destruct (sweep_fold_count s (clock w) (minio.ListObjects (s3 w) (bucket s))
              (s3 w) (mkSweepReport 0 0 []) objs Hb Hnd) as (objs' & H1 & H2 & H3).
  { intros k Hk. specialize (Hin k Hk). rewrite Hb in Hin. exact Hin. }
  destruct (sweep_fold s (clock w) (minio.ListObjects (s3 w) (bucket s))
              (s3 w) (mkSweepReport 0 0 []) objs Hb) as (objs2 & G1 & G2).
  assert (objs2 = objs') as -> by congruence.
  split; [| split; [| split]].
  - exists objs'. split; [exact H1 |]. split.
    + apply map_subseteq_spec. intros k x. rewrite G2.
      destruct (_ && _); [discriminate | auto].
    + cbn in H2. lia.
  - cbn in H3. lia.
  - apply sweep_fold_service.
  - rewrite cleanupExpiredObjects_world. cbn. auto.
Qed.

Lemma sweep_report_counts_witness :
  let w' := (S3Storage.cleanupExpiredObjects fixtures.remote fixtures.world).1 in
  let r := (S3Storage.cleanupExpiredObjects fixtures.remote fixtures.world).2 in
  (exists objs',
      minio.buckets (s3 w') !! bucket fixtures.remote = Some objs'
      /\ objs' ⊆ {[ "2024/12/21/a.png" := fixtures.old_object;
                    "2024/12/23/b.png" := fixtures.new_object ]}
      /\ size objs' + deletedCount r
         = size ({[ "2024/12/21/a.png" := fixtures.old_object;
                    "2024/12/23/b.png" := fixtures.new_object ]}
                 : gmap string minio.Object))
  /\ deletedCount r + errorCount r
     <= length (minio.ListObjects (s3 fixtures.world) (bucket fixtures.remote))
  /\ (forall b, b <> bucket fixtures.remote ->
        minio.buckets (s3 w') !! b = minio.buckets (s3 fixtures.world) !! b)
  /\ fs w' = fs fixtures.world /\ clock w' = clock fixtures.world
  /\ chans w' = chans fixtures.world /\ routines w' = routines fixtures.world.
Proof.
  refine (sweep_report_counts fixtures.remote fixtures.world _ _).
  vm_compute; reflexivity.
Defined.

(** Entries that carry no error and are not expired leave the sweep where
    it is. *)
Lemma sweep_fold_none_expired (s : S3Storage) (now : time.Time)
    (listing : list minio.ObjectInfo) (acc : minio.Service * SweepReport) :
  Forall (fun o => minio.Err o = None /\ expired s now o = false) listing ->
  fold_left (S3Storage.sweep_entry s now) listing acc = acc.
Proof.
  induction 1 as [|o listing [He Hx] _ IH]; [reflexivity |].
  cbn [fold_left]. rewrite <- IH at 2. f_equal.
  unfold S3Storage.sweep_entry. destruct acc as [svc r]. rewrite He.
  unfold expired in Hx. rewrite Hx. reflexivity.
Qed.

(** X14: a sweep that was served in full leaves nothing to do: a second
    sweep at the same time changes nothing, counts nothing and logs
    nothing. *)
Theorem sweep_twice (s : S3Storage) (w : World) :
  is_Some (minio.buckets (s3 w) !! bucket s) ->
  (forall req, minio.refuses (s3 w) req = None) ->
  S3Storage.cleanupExpiredObjects s (S3Storage.cleanupExpiredObjects s w).1
  = ((S3Storage.cleanupExpiredObjects s w).1, mkSweepReport 0 0 []).
Proof.
  intros [objs Hb] Hserved.
  set (w1 := (S3Storage.cleanupExpiredObjects s w).1).
  assert (Hclock : clock w1 = clock w).
  { unfold w1. rewrite cleanupExpiredObjects_world. reflexivity. }
  destruct (sweep_fold s (clock w) (minio.ListObjects (s3 w) (bucket s))
              (s3 w) (mkSweepReport 0 0 []) objs Hb) as (objs' & H1 & H2).
  rewrite <- cleanupExpiredObjects_s3 in H1. fold w1 in H1.
  pose proof (sweep_fold_service s (clock w) (minio.ListObjects (s3 w) (bucket s))
                (s3 w) (mkSweepReport 0 0 [])) as (Hrefuses & _).
  cbv zeta in Hrefuses. rewrite <- cleanupExpiredObjects_s3 in Hrefuses. fold w1 in Hrefuses.
  assert (Hlist : minio.ListObjects (s3 w1) (bucket s) = minio.info <$> map_to_list objs').
  { unfold minio.ListObjects. rewrite H1, Hrefuses, Hserved. reflexivity. }
  assert (Hnone : Forall (fun o => minio.Err o = None /\ expired s (clock w1) o = false)
                    (minio.ListObjects (s3 w1) (bucket s))).
  { rewrite Hlist, Hclock. apply Forall_forall. intros o Ho.
    apply list_elem_of_fmap in Ho as ([k obj] & -> & Hkv).
    apply elem_of_map_to_list in Hkv. split; [reflexivity |].
    rewrite H2 in Hkv.
    assert (Hin : minio.info (k, obj) ∈ minio.ListObjects (s3 w) (bucket s)).
    { unfold minio.ListObjects. rewrite Hb, Hserved.
      apply list_elem_of_fmap. exists (k, obj). split; [reflexivity |].
      apply elem_of_map_to_list.
      destruct (_ && _); [discriminate | exact Hkv]. }
    rewrite <- (removal_requested_listed s (clock w) (s3 w) _ Hin eq_refl). cbn.
    rewrite Hserved, bool_decide_true, andb_true_r in Hkv by reflexivity.
    destruct (removal_requested _ _ _ k); [discriminate | reflexivity]. }
  unfold S3Storage.cleanupExpiredObjects at 1.
  rewrite (sweep_fold_none_expired _ _ _ _ Hnone). cbn.
  rewrite with_s3_same. reflexivity.
Qed.

Lemma sweep_twice_witness :
  S3Storage.cleanupExpiredObjects fixtures.remote
    (S3Storage.cleanupExpiredObjects fixtures.remote fixtures.world).1
  = ((S3Storage.cleanupExpiredObjects fixtures.remote fixtures.world).1,
     mkSweepReport 0 0 []).
Proof.
  refine (sweep_twice fixtures.remote fixtures.world _ _).
  - vm_compute. eauto.
  - reflexivity.
Defined.

(** Time never runs backwards. *)
Lemma step_clock (w w' : World) : step w w' -> (clock w <= clock w')%Z.
Proof.
  intros H. destruct H; cbn; try lia.
  rewrite cleanupExpiredObjects_world. cbn. lia.
Qed.

Lemma steps_clock (w w' : World) : rtc step w w' -> (clock w <= clock w')%Z.
Proof.
  induction 1 as [|w w1 w2 H _ IH]; [lia |].
  apply step_clock in H. lia.
Qed.

(** A goroutine keeps its storage, and no step starts a goroutine. *)
Lemma step_owner (w w' : World) (c : nat) (r' : routine) :
  step w w' ->
  routines w' !! c = Some r' ->
  exists r, routines w !! c = Some r /\ owner r' = owner r.
Proof.
  intros H. destruct H as [w c0 r0 H0 E0 | w c0 r0 H0 E0 T0 | w c0 r0 H0 E0 C0 | w d Hd];
    cbn; try (intros Hr; eauto; fail).
  - destruct (decide (c0 = c)) as [-> | Hne].
    + rewrite lookup_insert_eq. intros [= <-]. eauto.
    + rewrite lookup_insert_ne by exact Hne. eauto.
  - destruct (decide (c0 = c)) as [-> | Hne].
    + rewrite lookup_insert_eq. intros [= <-]. eauto.
    + rewrite lookup_insert_ne by exact Hne. eauto.
  - destruct (decide (c0 = c)) as [-> | Hne].
    + rewrite lookup_insert_eq. intros [= <-]. eauto.
    + rewrite lookup_insert_ne by exact Hne. eauto.
Qed.

Lemma sweep_other_bucket (s : S3Storage) (w : World) (b key : string) :
  b <> bucket s ->
  object_at (S3Storage.cleanupExpiredObjects s w).1 b key = object_at w b key.
Proof.
  intros Hne. unfold object_at. rewrite cleanupExpiredObjects_s3.
  pose proof (sweep_fold_service s (clock w) (minio.ListObjects (s3 w) (bucket s))
                (s3 w) (mkSweepReport 0 0 [])) as (_ & _ & _ & H).
  rewrite (H b Hne). reflexivity.
Qed.

(** X15: no object is deleted early.  While every cleanup goroutine on a
    bucket runs with an object TTL of at least [ttl], an object of the
    bucket is still there, unchanged, at any later state of the system in
    which its age is at most [ttl]. *)
Theorem no_early_deletion (w w' : World) (b key : string) (obj : minio.Object)
    (ttl : time.Duration) :
  rtc step w w' ->
  (forall c r, routines w !! c = Some r -> bucket (owner r) = b ->
               (ttl <= objectTTL (owner r))%Z) ->
  (time.minDuration <= ttl)%Z ->
  object_at w b key = Some obj ->
  (clock w' - minio.lastModified obj <= ttl)%Z ->
  object_at w' b key = Some obj.
Proof.
  intros Hsteps. induction Hsteps as [w | w w1 w2 Hstep Hrest IH];
    intros Hrout Hmin Hat Hage; [exact Hat |].
  pose proof (step_clock _ _ Hstep) as Hc1. pose proof (steps_clock _ _ Hrest) as Hc2.
  apply IH; [| exact Hmin | | exact Hage].
  - intros c r1 Hr1 Hb.
    destruct (step_owner _ _ _ _ Hstep Hr1) as (r & Hr & Ho). rewrite Ho in *.
    eapply Hrout; eassumption.
  - destruct Hstep as [w c0 r0 H0 E0 | w c0 r0 H0 E0 T0 | w c0 r0 H0 E0 C0 | w d Hd];
      try exact Hat.
    change (object_at (with_routines ?x ?y) b key) with (object_at x b key).
    destruct (decide (b = bucket (owner r0))) as [-> | Hne].
    + apply sweep_keeps; [exact Hat |].
      specialize (Hrout c0 r0 H0 eq_refl).
      apply Z.ltb_ge. unfold time.Sub.
      destruct (Z.ltb_spec (clock w - minio.lastModified obj) time.minDuration); [lia |].
      destruct (Z.ltb_spec time.maxDuration (clock w - minio.lastModified obj)); lia.
    + rewrite sweep_other_bucket by exact Hne. exact Hat.
Qed.

Lemma no_early_deletion_witness :
  object_at
    (with_routines
       (S3Storage.cleanupExpiredObjects fixtures.remote
          (with_routines fixtures.world
             (<[0 := mkRoutine fixtures.remote true false]> (routines fixtures.world)))).1
       (<[0 := mkRoutine fixtures.remote false false]>
          (<[0 := mkRoutine fixtures.remote true false]> (routines fixtures.world))))
    "media" "2024/12/23/b.png"
  = Some fixtures.new_object.
Proof.
  refine (no_early_deletion fixtures.world _ "media" "2024/12/23/b.png"
            fixtures.new_object (24 * time.Hour)%Z _ _ _ _ _).
  - eapply rtc_l.
    + exact (step_ticker fixtures.world 0 (mkRoutine fixtures.remote false false)
               eq_refl eq_refl).
    + apply rtc_once.
      exact (step_sweep
               (with_routines fixtures.world
                  (<[0 := mkRoutine fixtures.remote true false]> (routines fixtures.world)))
               0 (mkRoutine fixtures.remote true false) eq_refl eq_refl eq_refl).
  - intros c r Hr _. unfold fixtures.world in Hr. cbn [routines] in Hr.
    apply lookup_singleton_Some in Hr as [_ <-]. vm_compute. discriminate.
  - vm_compute. discriminate.
  - vm_compute; reflexivity.
  - vm_compute. discriminate.
Defined.

(** When every goroutine has returned, only time can pass. *)
Lemma step_all_exited (w w' : World) :
  step w w' ->
  (forall c r, routines w !! c = Some r -> exited r = true) ->
  s3 w' = s3 w /\ routines w' = routines w.
Proof.
  intros H Hall.
  destruct H as [w c0 r0 H0 E0 | w c0 r0 H0 E0 T0 | w c0 r0 H0 E0 C0 | w d Hd];
    try (rewrite (Hall _ _ H0) in E0; discriminate).
  split; reflexivity.
Qed.

Lemma steps_all_exited (w w' : World) :
  rtc step w w' ->
  (forall c r, routines w !! c = Some r -> exited r = true) ->
  s3 w' = s3 w.
Proof.
  induction 1 as [|w w1 w2 H _ IH]; intros Hall; [reflexivity |].
  destruct (step_all_exited _ _ H Hall) as [Hs Hr].
  rewrite IH, Hs; [reflexivity |]. rewrite Hr. exact Hall.
Qed.

(** No step adds a goroutine. *)
Lemma steps_routines (w w' : World) (c : nat) (r' : routine) :
  rtc step w w' ->
  routines w' !! c = Some r' ->
  exists r, routines w !! c = Some r.
Proof.
  induction 1 as [|w w1 w2 H _ IH]; intros Hr; [eauto |].
  destruct (IH Hr) as [r1 Hr1].
  destruct (step_owner _ _ _ _ H Hr1) as (r & Hr0 & _). eauto.
Qed.

(** X16: [Close] stops the cleanup.  When the storage closed is the only one
    with a cleanup goroutine, then from any state the system reaches after
    the [Close], the goroutine has returned or can return in one step, and
    from then on the object store is never changed again. *)
Theorem Close_stops_cleanup (s : S3Storage) (w w1 w2 : World) (res : option string) :
  S3Storage.Close s w = (w1, Returns res) ->
  (forall c r, routines w !! c = Some r -> c = stopCleanup s) ->
  rtc step w1 w2 ->
  exists w3,
    (w3 = w2 \/ step w2 w3)
    /\ (forall c r, routines w3 !! c = Some r -> exited r = true)
    /\ forall w4, rtc step w3 w4 -> s3 w4 = s3 w3.
Proof.
  intros Hclose Honly Hsteps.
  assert (Honly2 : forall c r, routines w2 !! c = Some r -> c = stopCleanup s).
  { intros c r Hr. destruct (steps_routines _ _ _ _ Hsteps Hr) as [r1 Hr1].
    pose proof Hclose as Hc. apply Close_closes in Hc as (_ & _ & ->).
    eapply Honly. exact Hr1. }
  destruct (routines w2 !! stopCleanup s) as [r|] eqn:Hr.
  - destruct (exited r) eqn:He.
    + exists w2. split; [left; reflexivity |].
      assert (Hall : forall c r0, routines w2 !! c = Some r0 -> exited r0 = true).
      { intros c r0 Hr0. pose proof (Honly2 _ _ Hr0) as ->. congruence. }
      split; [exact Hall |]. intros w4 H4. apply steps_all_exited; assumption.
    + destruct (closed_routine_can_stop s w w1 w2 res r Hclose Hsteps Hr He)
        as (w3 & r3 & Hstep & Hr3 & He3).
      exists w3. split; [right; exact Hstep |].
      assert (Hall : forall c r0, routines w3 !! c = Some r0 -> exited r0 = true).
      { intros c r0 Hr0. destruct (step_owner _ _ _ _ Hstep Hr0) as (r1 & Hr1 & _).
        pose proof (Honly2 _ _ Hr1) as ->. congruence. }
      split; [exact Hall |]. intros w4 H4. apply steps_all_exited; assumption.
  - exists w2. split; [left; reflexivity |].
    assert (Hall : forall c r0, routines w2 !! c = Some r0 -> exited r0 = true).
    { intros c r0 Hr0. pose proof (Honly2 _ _ Hr0) as ->. congruence. }
    split; [exact Hall |]. intros w4 H4. apply steps_all_exited; assumption.
Qed.

Lemma Close_stops_cleanup_witness :
  exists w3,
    (w3 = (S3Storage.Close fixtures.remote fixtures.world).1
     \/ step (S3Storage.Close fixtures.remote fixtures.world).1 w3)
    /\ (forall c r, routines w3 !! c = Some r -> exited r = true)
    /\ forall w4, rtc step w3 w4 -> s3 w4 = s3 w3.
Proof.
  refine (Close_stops_cleanup fixtures.remote fixtures.world _ _ None _ _ _).
  - vm_compute; reflexivity.
  - intros c r Hr. unfold fixtures.world in Hr. cbn [routines] in Hr.
    apply lookup_singleton_Some in Hr as [<- _]. reflexivity.
  - apply rtc_refl.
Defined.

(** ** Endpoints written as URLs *)

Lemma IndexByte_without (s : string) (c : ascii) :
  all_chars (fun a => negb (Ascii.eqb a c)) s = true -> strings.IndexByte s c = None.
Proof.
  unfold all_chars. induction s as [|a s IH]; [reflexivity |].
  cbn. rewrite andb_true_iff, negb_true_iff. intros [-> Hs].
  rewrite (IH Hs). reflexivity.
Qed.

Lemma substring_all (s : string) : String.substring 0 (String.length s) s = s.
Proof. induction s as [|c s IH]; [reflexivity |]. cbn. rewrite IH. reflexivity. Qed.

Lemma host_char_cases (a : ascii) :
  host_char a = true ->
  Ascii.eqb a "#" = false /\ Ascii.eqb a "?" = false /\ Ascii.eqb a "/" = false
  /\ Ascii.eqb a "*" = false
  /\ ((nat_of_ascii a <? 32) || (nat_of_ascii a =? 127))%nat = false.
Proof.
  unfold host_char. intros [Ha | Ha]%orb_true_iff.
  - destruct (scheme_char_cases a Ha) as (_ & _ & ? & ? & ? & ? & ?). auto.
  - apply Ascii.eqb_eq in Ha. subst a. repeat split.
Qed.

(** X17: for an endpoint written as a URL, [scheme://host] or
    [scheme://host:port], [parseEndpoint] returns the authority and turns
    TLS on exactly for the scheme [https], in any letter case, whatever
    the configured flag. *)
Theorem parseEndpoint_url (parseAuthority : string -> result string)
    (c : ascii) (cs host : string) (flag : bool) :
  url.is_alpha c = true ->
  all_chars scheme_char cs = true ->
  host <> "" ->
  all_chars host_char host = true ->
  parseAuthority host = Ok host ->
  parseEndpoint parseAuthority (String c cs ++ "://" ++ host) flag
  = (host, String.eqb (strings.ToLower (String c cs)) "https").
Proof.
  intros Hc Hcs Hne Hhost Hauth.
  set (rest := "//" ++ host).
  set (endpoint := String c cs ++ "://" ++ host).
  assert (Hendpoint : endpoint = String c cs ++ ":" ++ rest) by reflexivity.
  assert (Hrest : all_chars (fun a => host_char a || Ascii.eqb a "/") rest = true).
  { unfold rest. rewrite all_chars_app. cbn [andb].
    change (all_chars _ "//") with true. cbn [andb].
    eapply all_chars_impl; [| exact Hhost]. intros a ->. reflexivity. }
  assert (Hplain : all_chars (fun a => host_char a || Ascii.eqb a "/") endpoint = true).
  { rewrite Hendpoint, !all_chars_app, !andb_true_iff. repeat split.
    - unfold all_chars. cbn. rewrite andb_true_iff. split.
      + unfold host_char, scheme_char. rewrite Hc. reflexivity.
      + eapply (all_chars_impl scheme_char); [| exact Hcs].
        intros a Ha. unfold host_char. rewrite Ha. reflexivity.
    - exact Hrest. }
  assert (Hchar : forall a, (host_char a || Ascii.eqb a "/") = true ->
            Ascii.eqb a "#" = false /\ Ascii.eqb a "?" = false
            /\ Ascii.eqb a "*" = false
            /\ ((nat_of_ascii a <? 32) || (nat_of_ascii a =? 127))%nat = false).
  { intros a [Ha | Ha]%orb_true_iff.
    - destruct (host_char_cases a Ha) as (? & ? & _ & ? & ?). auto.
    - apply Ascii.eqb_eq in Ha. subst a. repeat split. }
  assert (Hparse : url.Parse parseAuthority endpoint
                   = Ok (url.mkURL (strings.ToLower (String c cs)) "" host)).
  { unfold url.Parse.
    rewrite (Cut_without endpoint "#").
    2:{ eapply all_chars_impl; [| exact Hplain]. intros a Ha.
        destruct (Hchar a Ha) as (-> & _). reflexivity. }
    unfold url.parse.
    rewrite (no_CTL endpoint).
    2:{ eapply all_chars_impl; [| exact Hplain]. intros a Ha.
        destruct (Hchar a Ha) as (_ & _ & _ & ->). reflexivity. }
    replace (String.eqb endpoint "*") with false.
    2:{ rewrite Hendpoint.
        change (String c cs ++ ":" ++ rest) with (String c (cs ++ ":" ++ rest)).
        cbn. destruct (Hchar c) as (_ & _ & Hs & _).
        { unfold host_char, scheme_char. rewrite Hc. reflexivity. }
        rewrite Hs. reflexivity. }
    rewrite Hendpoint, (getScheme_host_port c cs rest Hc Hcs).
    assert (Hq : all_chars (fun a => negb (Ascii.eqb a "?")) rest = true).
    { eapply all_chars_impl; [| exact Hrest]. intros a Ha.
      destruct (Hchar a Ha) as (_ & -> & _). reflexivity. }
    rewrite (Count_without rest "?" Hq), andb_false_r, (Cut_without rest "?" Hq).
    cbn [fst].
    assert (H1 : HasPrefix rest "/" = true) by (apply HasPrefix_slash; eexists; reflexivity).
    assert (H2 : HasPrefix rest "//" = true).
    { unfold HasPrefix, rest. apply String.prefix_correct. cbn.
      destruct host; reflexivity. }
    rewrite H1, H2. cbn [negb andb].
    replace (String.eqb (strings.ToLower (String c cs)) "") with false by reflexivity.
    cbn [negb orb andb].
    assert (H3 : String.substring 2 (String.length rest - 2) rest = host).
    { unfold rest. change ("//" ++ host) with (String "/" (String "/" host)).
      cbn [String.length]. replace (S (S (String.length host)) - 2) with (String.length host) by lia.
      cbn [String.substring]. apply substring_all. }
    rewrite H3.
    rewrite (IndexByte_without host "/").
    2:{ eapply all_chars_impl; [| exact Hhost]. intros a Ha.
        destruct (host_char_cases a Ha) as (_ & _ & -> & _). reflexivity. }
    rewrite Hauth. reflexivity. }
  unfold parseEndpoint. fold endpoint. rewrite Hparse.
  cbn [url.Scheme url.Host].
  replace (String.eqb (strings.ToLower (String c cs)) "") with false by reflexivity.
  cbn [negb]. apply String.eqb_neq in Hne. rewrite Hne. reflexivity.
Qed.

Lemma parseEndpoint_url_witness :
  parseEndpoint url.hostport_authority ("https" ++ "://" ++ "s3.example.com:9000") false
  = ("s3.example.com:9000", String.eqb (strings.ToLower "https") "https").
Proof.
  refine (parseEndpoint_url url.hostport_authority "h" "ttps" "s3.example.com:9000" false
            _ _ _ _ _).
  - reflexivity.
  - reflexivity.
  - discriminate.
  - reflexivity.
  - reflexivity.
Defined.

(** ** White space, service tokens and the authentication middleware *)

(** ** Test vectors of the added library models *)

Example TrimSpace_examples :
  strings.TrimSpace "  a b  " = "a b"
  /\ strings.TrimSpace "" = ""
  /\ strings.TrimSpace "   " = ""
  /\ strings.TrimSpace (String (ascii_of_nat 9) (String (ascii_of_nat 194)
       (String (ascii_of_nat 160) ("x" ++ String (ascii_of_nat 226)
          (String (ascii_of_nat 128) (String (ascii_of_nat 131) (String (ascii_of_nat 10) ""))))))) = "x"
  /\ strings.TrimSpace (String (ascii_of_nat 226) (String (ascii_of_nat 128) "x")) 
     = String (ascii_of_nat 226) (String (ascii_of_nat 128) "x")
  /\ strings.TrimPrefix "Bearer abc" "Bearer " = "abc"
  /\ strings.TrimPrefix "bearer abc" "Bearer " = "bearer abc".
Proof. repeat split; vm_compute; reflexivity. Qed.

Example ParseBool_examples :
  strconv.ParseBool "true" = Some true /\ strconv.ParseBool "0" = Some false
  /\ strconv.ParseBool "yes" = None /\ strconv.ParseBool "TRUE" = Some true
  /\ strconv.ParseBool "tRUE" = None.
Proof. repeat split. Qed.

Example parseServiceTokens_examples :
  common.parseServiceTokens "a, b ,,c" = ["a"; "b"; "c"]
  /\ common.parseServiceTokens "" = []
  /\ common.parseServiceTokens " , " = [].
Proof. repeat split; vm_compute; reflexivity. Qed.

Example AuthMiddleware_examples :
  middleware.AuthMiddleware ["s3cret"] "Bearer s3cret" = middleware.Next
  /\ middleware.AuthMiddleware ["s3cret"] "Bearer  s3cret " = middleware.Next
  /\ middleware.AuthMiddleware [] "" = middleware.Next
  /\ match middleware.AuthMiddleware ["s3cret"] "Basic s3cret" with
     | middleware.Answered r =>
         middleware.StatusCode r = 401%Z
         /\ middleware.Header r !! "Content-Type" = Some "text/plain; charset=utf-8"
         /\ middleware.Body r
            = middleware.error_body "Bearer token required" ++ String (ascii_of_nat 10) ""
     | middleware.Next => False
     end.
Proof. vm_compute. repeat split. Qed.

Example base64_vectors :
  base64.DecodeString "" = Ok []
  /\ base64.DecodeString "Zg==" = Ok (bytes_of_string "f")
  /\ base64.DecodeString "Zm8=" = Ok (bytes_of_string "fo")
  /\ base64.DecodeString "Zm9v" = Ok (bytes_of_string "foo")
  /\ base64.DecodeString "Zm9vYg==" = Ok (bytes_of_string "foob")
  /\ base64.DecodeString "Zm9vYmE=" = Ok (bytes_of_string "fooba")
  /\ base64.DecodeString "Zm9vYmFy" = Ok (bytes_of_string "foobar")
  /\ base64.DecodeString "aGVsbG8gd29ybGQh" = Ok (bytes_of_string "hello world!")
  /\ base64.DecodeString "Zm9v!" = Err "illegal base64 data at input byte 4"
  /\ is_error (base64.DecodeString "Zg") = true
  /\ is_error (base64.DecodeString "Zg=") = true
  /\ is_error (base64.DecodeString "Zg=x") = true
  /\ is_error (base64.DecodeString "Zg==x") = true
  /\ is_error (base64.DecodeString "=") = true
  /\ is_error (base64.DecodeString "Zm9vY") = true.
Proof. repeat split; vm_compute; reflexivity. Qed.

(** ** White space *)

Section Trim.
Variable two : ascii -> ascii -> bool.
Variable three : ascii -> ascii -> ascii -> bool.

Lemma trim_runes_stable (l : list ascii) :
  leading_space two three l = false -> strings.trim_runes two three l = l.
Proof.
  destruct l as [|a [|b [|c l]]]; cbn; try reflexivity.
  - destruct (strings.asciiSpace a); [discriminate | reflexivity].
  - destruct (strings.asciiSpace a); [discriminate |].
    destruct (two a b); [discriminate | reflexivity].
  - destruct (strings.asciiSpace a); [discriminate |].
    destruct (two a b); [discriminate |].
    destruct (three a b c); [discriminate | reflexivity].
Qed.

(** What is left is a suffix, and no white-space rune leads it. *)
Lemma trim_runes_spec (n : nat) (l : list ascii) :
  length l <= n ->
  (exists pre, l = (pre ++ strings.trim_runes two three l)%list)
  /\ leading_space two three (strings.trim_runes two three l) = false.
Proof.
  revert l. induction n as [|n IH]; intros l Hn.
  { destruct l; [| cbn in Hn; lia]. split; [exists []; reflexivity | reflexivity]. }
  destruct l as [|a l1]; [split; [exists []; reflexivity | reflexivity] |].
  cbn [strings.trim_runes]. cbn in Hn.
  destruct (strings.asciiSpace a) eqn:Ea.
  { destruct (IH l1 ltac:(lia)) as [[pre Hpre] Hlead]. split; [| exact Hlead].
    exists (a :: pre). cbn. f_equal. exact Hpre. }
  destruct l1 as [|b l2].
  { split; [exists []; reflexivity |]. cbn. rewrite Ea. reflexivity. }
  cbn in Hn. destruct (two a b) eqn:Eb.
  { destruct (IH l2 ltac:(lia)) as [[pre Hpre] Hlead]. split; [| exact Hlead].
    exists (a :: b :: pre). cbn. do 2 f_equal. exact Hpre. }
  destruct l2 as [|c l3].
  { split; [exists []; reflexivity |]. cbn. rewrite Ea, Eb. reflexivity. }
  cbn in Hn. destruct (three a b c) eqn:Ec.
  { destruct (IH l3 ltac:(lia)) as [[pre Hpre] Hlead]. split; [| exact Hlead].
    exists (a :: b :: c :: pre). cbn. do 3 f_equal. exact Hpre. }
  split; [exists []; reflexivity |]. cbn. rewrite Ea, Eb, Ec. reflexivity.
Qed.

Lemma trim_runes_suffix (l : list ascii) :
  exists pre, l = (pre ++ strings.trim_runes two three l)%list.
Proof. apply (trim_runes_spec (length l) l (le_n _)). Qed.

Lemma trim_runes_no_leading (l : list ascii) :
  leading_space two three (strings.trim_runes two three l) = false.
Proof. apply (trim_runes_spec (length l) l (le_n _)). Qed.

Lemma trim_runes_idem (l : list ascii) :
  strings.trim_runes two three (strings.trim_runes two three l)
  = strings.trim_runes two three l.
Proof. apply trim_runes_stable, trim_runes_no_leading. Qed.

(** A white-space rune that leads a prefix leads the whole list. *)
Lemma leading_space_prefix (l k : list ascii) :
  leading_space two three l = true -> leading_space two three (l ++ k) = true.
Proof.
  destruct l as [|a [|b [|c l]]]; cbn; try discriminate.
  - rewrite orb_false_r. intros ->. reflexivity.
  - rewrite orb_false_r. intros H. apply orb_true_iff in H as [-> | ->].
    + reflexivity.
    + rewrite orb_true_r. reflexivity.
  - auto.
Qed.

Lemma trim_runes_Forall (P : ascii -> Prop) (l : list ascii) :
  Forall P l -> Forall P (strings.trim_runes two three l).
Proof.
  intros H. destruct (trim_runes_suffix l) as [pre Hpre].
  rewrite Hpre in H. apply Forall_app in H as [_ H]. exact H.
Qed.

End Trim.

Lemma TrimSpace_passes (s : string) :
  strings.TrimSpace s
  = string_of_list_ascii (trim_right (trim_left (list_ascii_of_string s))).
Proof. reflexivity. Qed.

Lemma trim_right_prefix (l : list ascii) :
  exists post, l = (trim_right l ++ post)%list.
Proof.
  unfold trim_right.
  destruct (trim_runes_suffix (fun b a => strings.space2 a b)
              (fun c b a => strings.space3 a b c) (rev l)) as [pre Hpre].
  exists (rev pre). rewrite <- rev_app_distr, <- Hpre, rev_involutive. reflexivity.
Qed.

Lemma trim_right_idem (l : list ascii) : trim_right (trim_right l) = trim_right l.
Proof. unfold trim_right. rewrite rev_involutive, trim_runes_idem. reflexivity. Qed.

(** Trimming on the right does not bring white space to the front. *)
Lemma trim_left_right (l : list ascii) :
  trim_left l = l -> trim_left (trim_right l) = trim_right l.
Proof.
  intros Hl. apply trim_runes_stable.
  destruct (leading_space strings.space2 strings.space3 (trim_right l)) eqn:E;
    [| reflexivity].
  destruct (trim_right_prefix l) as [post Hpost].
  apply (leading_space_prefix _ _ _ post) in E. rewrite <- Hpost in E.
  pose proof (trim_runes_no_leading strings.space2 strings.space3 l) as H.
  fold (trim_left l) in H. rewrite Hl in H. congruence.
Qed.

(** [TrimSpace] leaves a trimmed string as it is. *)
Lemma TrimSpace_idem (s : string) :
  strings.TrimSpace (strings.TrimSpace s) = strings.TrimSpace s.
Proof.
  rewrite !TrimSpace_passes, list_ascii_of_string_of_list_ascii.
  set (y := trim_left (list_ascii_of_string s)).
  assert (Hy : trim_left y = y) by apply trim_runes_idem.
  rewrite (trim_left_right y Hy), trim_right_idem. reflexivity.
Qed.

Lemma all_chars_Forall (P : ascii -> bool) (s : string) :
  all_chars P s = true <-> Forall (fun c => P c = true) (list_ascii_of_string s).
Proof. unfold all_chars. rewrite forallb_forall, Forall_forall. setoid_rewrite <- list_elem_of_In. reflexivity. Qed.

(** [TrimSpace] keeps characters of the string only. *)
Lemma TrimSpace_all_chars (P : ascii -> bool) (s : string) :
  all_chars P s = true -> all_chars P (strings.TrimSpace s) = true.
Proof.
  rewrite !all_chars_Forall, TrimSpace_passes, list_ascii_of_string_of_list_ascii.
  intros H. unfold trim_right. apply Forall_rev, trim_runes_Forall, Forall_rev.
  apply trim_runes_Forall, H.
Qed.

(** ** Service tokens and the authentication middleware *)

Lemma parseServiceTokens_fold (tokens acc : list string) :
  fold_left (fun result t =>
               let t := strings.TrimSpace t in
               if negb (String.eqb t "") then (result ++ [t])%list else result)
            tokens acc
  = (acc ++ List.filter (fun t => negb (String.eqb t ""))
              (strings.TrimSpace <$> tokens))%list.
Proof.
  revert acc. induction tokens as [|t tokens IH]; intros acc.
  - cbn. rewrite app_nil_r. reflexivity.
  - cbn [fold_left fmap list_fmap List.filter]. rewrite IH. cbv zeta.
    destruct (negb (String.eqb (strings.TrimSpace t) "")); [| reflexivity].
    rewrite <- app_assoc. reflexivity.
Qed.

Lemma parseServiceTokens_filter (tokensStr : string) :
  common.parseServiceTokens tokensStr
  = List.filter (fun t => negb (String.eqb t ""))
      (strings.TrimSpace <$> strings.Split tokensStr ",").
Proof.
  unfold common.parseServiceTokens.
  destruct (String.eqb_spec tokensStr "") as [-> | _]; [reflexivity |].
  cbv zeta. rewrite parseServiceTokens_fold. reflexivity.
Qed.

(** The tokens are non-empty, trimmed and free of commas; there is none
    exactly when every piece is blank. *)
Lemma parseServiceTokens_trimmed (tokensStr : string) :
  Forall (fun t => t <> "" /\ strings.TrimSpace t = t
                   /\ all_chars (fun a => negb (Ascii.eqb a ",")) t = true)
    (common.parseServiceTokens tokensStr)
  /\ (common.parseServiceTokens tokensStr = []
      <-> Forall (fun piece => strings.TrimSpace piece = "")
            (strings.Split tokensStr ",")).
Proof.
  rewrite parseServiceTokens_filter.
  pose proof (Split_pieces tokensStr ",") as Hp.
  induction (strings.Split tokensStr ",") as [|p ps IH].
  - split; [constructor | split; constructor].
  - inversion Hp as [|? ? Hp1 Hps]; subst. destruct (IH Hps) as [IH1 IH2].
    cbn [fmap list_fmap List.filter].
    destruct (String.eqb_spec (strings.TrimSpace p) "") as [E | E]; cbn [negb].
    + split; [exact IH1 |]. rewrite IH2. split.
      * intros H. constructor; assumption.
      * intros H. inversion H; assumption.
    + split.
      * constructor; [| exact IH1]. split; [exact E |]. split.
        -- apply TrimSpace_idem.
        -- apply TrimSpace_all_chars, Hp1.
      * split; [discriminate |]. intros H. inversion H; subst. contradiction.
Qed.

(** X18: the tokens [parseServiceTokens] returns are the pieces between the
    commas, trimmed, in order, without the blank ones; so every token is
    non-empty, has no white space around it and no comma in it, and there
    is no token at all exactly when every piece is blank. *)
Theorem parseServiceTokens_tokens (tokensStr : string) :
  common.parseServiceTokens tokensStr
  = List.filter (fun t => negb (String.eqb t ""))
      (strings.TrimSpace <$> strings.Split tokensStr ",")
  /\ Forall (fun t => t <> "" /\ strings.TrimSpace t = t
                      /\ all_chars (fun a => negb (Ascii.eqb a ",")) t = true)
       (common.parseServiceTokens tokensStr)
  /\ (common.parseServiceTokens tokensStr = []
      <-> Forall (fun piece => strings.TrimSpace piece = "")
            (strings.Split tokensStr ",")).
Proof.
  split; [apply parseServiceTokens_filter | apply parseServiceTokens_trimmed].
Qed.

Lemma tokenSet_elem (validTokens : list string) (acc : gset string) (t : string) :
  t ∈ fold_left (fun tokenSet token => {[ token ]} ∪ tokenSet) validTokens acc
  <-> t ∈ validTokens \/ t ∈ acc.
Proof.
  revert acc. induction validTokens as [|x l IH]; intros acc; cbn [fold_left].
  - rewrite elem_of_nil. tauto.
  - rewrite IH, elem_of_cons, elem_of_union, elem_of_singleton. tauto.
Qed.

Lemma tokenSet_empty (validTokens : list string) :
  (size (fold_left (fun (tokenSet : gset string) token => {[ token ]} ∪ tokenSet)
           validTokens ∅) =? 0)%nat = true
  <-> validTokens = [].
Proof.
  rewrite Nat.eqb_eq, size_empty_iff. split.
  - intros H. destruct validTokens as [|x l]; [reflexivity |].
    exfalso. assert (Hx : x ∈ fold_left (fun (tokenSet : gset string) token =>
                                           {[ token ]} ∪ tokenSet) (x :: l) ∅).
    { apply tokenSet_elem. left. left. }
    rewrite H in Hx. apply elem_of_empty in Hx. exact Hx.
  - intros ->. reflexivity.
Qed.

(** When the middleware passes a request on. *)
Lemma AuthMiddleware_next (validTokens : list string) (authHeader : string) :
  middleware.AuthMiddleware validTokens authHeader = middleware.Next
  <-> validTokens = []
      \/ (HasPrefix authHeader "Bearer " = true
          /\ strings.TrimSpace (strings.TrimPrefix authHeader "Bearer ")
             ∈ validTokens).
Proof.
  unfold middleware.AuthMiddleware. cbv zeta.
  set (tokenSet := fold_left _ validTokens ∅).
  destruct (size tokenSet =? 0)%nat eqn:Hsize.
  { apply tokenSet_empty in Hsize. tauto. }
  assert (Hne : validTokens <> []).
  { intros H. apply tokenSet_empty in H. fold tokenSet in H. congruence. }
  destruct (String.eqb_spec authHeader "") as [-> | Hh].
  { split; [discriminate |]. intros [H | [H _]]; [contradiction | discriminate]. }
  destruct (HasPrefix authHeader "Bearer ") eqn:Hp; cbn [negb].
  2:{ split; [discriminate |]. intros [H | [H _]]; [contradiction | discriminate]. }
  set (token := strings.TrimSpace (strings.TrimPrefix authHeader "Bearer ")).
  destruct (bool_decide (token ∈ tokenSet)) eqn:Hin; cbn [negb].
  - apply bool_decide_eq_true in Hin. apply tokenSet_elem in Hin as [Hin | Hin].
    + split; auto.
    + apply elem_of_empty in Hin. contradiction.
  - apply bool_decide_eq_false in Hin.
    split; [discriminate |]. intros [H | [_ H]]; [contradiction |].
    exfalso. apply Hin, tokenSet_elem. left. exact H.
Qed.

(** X19: the middleware passes a request on exactly when no token is
    configured, or the [Authorization] header is [Bearer ] followed by a
    configured token, white space around the token apart; every other
    request is answered with status 401, the content type of [http.Error]
    (plain text, not the JSON set before the call) and a JSON-RPC error
    object followed by a newline as body. *)
Theorem AuthMiddleware_decision (validTokens : list string) (authHeader : string) :
  (middleware.AuthMiddleware validTokens authHeader = middleware.Next
   <-> validTokens = []
       \/ (HasPrefix authHeader "Bearer " = true
           /\ strings.TrimSpace (strings.TrimPrefix authHeader "Bearer ")
              ∈ validTokens))
  /\ (forall resp,
        middleware.AuthMiddleware validTokens authHeader = middleware.Answered resp ->
        middleware.StatusCode resp = 401%Z
        /\ middleware.Header resp !! "Content-Type" = Some "text/plain; charset=utf-8"
        /\ exists message,
             middleware.Body resp
             = middleware.error_body message ++ String (ascii_of_nat 10) "").
Proof.
  split; [apply AuthMiddleware_next |].
  unfold middleware.AuthMiddleware. cbv zeta.
  destruct (size _ =? 0)%nat; [discriminate |].
  destruct (String.eqb authHeader "").
  { intros resp [= <-]. cbn. split; [reflexivity |]. split; [reflexivity | eauto]. }
  destruct (HasPrefix authHeader "Bearer "); cbn [negb].
  2:{ intros resp [= <-]. cbn. split; [reflexivity |]. split; [reflexivity | eauto]. }
  destruct (bool_decide _); cbn [negb]; [discriminate |].
  intros resp [= <-]. cbn. split; [reflexivity |]. split; [reflexivity | eauto].
Qed.

Lemma LoadConfig_tokens (ParseDuration : string -> option time.Duration)
    (env : common.Env) (fs : os.FS) :
  let config := (common.LoadConfig ParseDuration env fs).1.2 in
  common.ServiceTokens config
  = common.parseServiceTokens (common.Getenv env "SERVICE_TOKENS")
  /\ common.AuthEnabled config = (0 <? length (common.ServiceTokens config))%nat.
Proof.
  unfold common.LoadConfig. cbv zeta.
  destruct (_ && _); [destruct (os.MkdirAll _ _) as [fs' [e|]] |]; split; reflexivity.
Qed.

Lemma HasPrefix_append (p t : string) : HasPrefix (p ++ t) p = true.
Proof.
  unfold HasPrefix. apply String.prefix_correct.
  induction p as [|c p IH]; [destruct t; reflexivity |].
  change (String c p ++ t) with (String c (p ++ t)). cbn. rewrite IH. reflexivity.
Qed.

Lemma substring_append (p t : string) :
  String.substring (String.length p) (String.length (p ++ t) - String.length p) (p ++ t) = t.
Proof.
  rewrite length_append. replace (String.length p + String.length t - String.length p)
    with (String.length t) by lia.
  induction p as [|c p IH]; [apply substring_all |].
  change (String c p ++ t) with (String c (p ++ t)). cbn. exact IH.
Qed.

Lemma TrimPrefix_append (p t : string) : strings.TrimPrefix (p ++ t) p = t.
Proof. unfold strings.TrimPrefix. rewrite HasPrefix_append. apply substring_append. Qed.

(** X20: the server with the configuration loaded from the environment.
    Its tokens are those of [SERVICE_TOKENS]; a request that carries
    [Bearer ] and one of them is passed on; when there are tokens, a
    request without [Authorization] header and one with an empty bearer
    token are answered by the middleware; when [SERVICE_TOKENS] holds no
    token (it is unset, or only commas and white space), every request is
    passed on. *)
Theorem configured_tokens_authenticate (ParseDuration : string -> option time.Duration)
    (env : common.Env) (fs : os.FS) :
  let config := (common.LoadConfig ParseDuration env fs).1.2 in
  common.ServiceTokens config
  = common.parseServiceTokens (common.Getenv env "SERVICE_TOKENS")
  /\ (forall t, t ∈ common.ServiceTokens config ->
        httpHandler config ("Bearer " ++ t) = middleware.Next)
  /\ (common.ServiceTokens config <> [] ->
      (exists resp, httpHandler config "" = middleware.Answered resp)
      /\ (exists resp, httpHandler config "Bearer " = middleware.Answered resp))
  /\ (common.ServiceTokens config = [] ->
      forall authHeader, httpHandler config authHeader = middleware.Next).
Proof.
  intros config. destruct (LoadConfig_tokens ParseDuration env fs) as [Htok Hauth].
  fold config in Htok, Hauth. split; [exact Htok |].
  pose proof (parseServiceTokens_trimmed (common.Getenv env "SERVICE_TOKENS"))
    as (Hall & _).
  rewrite <- Htok in Hall. unfold httpHandler. rewrite Hauth.
  split; [| split].
  - intros t Ht.
    destruct (common.ServiceTokens config) as [|x l] eqn:E; [inversion Ht |].
    cbn [length Nat.ltb Nat.leb andb]. rewrite <- E in *.
    apply AuthMiddleware_next. right. split; [apply HasPrefix_append |].
    rewrite TrimPrefix_append.
    rewrite Forall_forall in Hall. destruct (Hall t Ht) as (_ & -> & _). exact Ht.
  - intros Hne.
    destruct (common.ServiceTokens config) as [|x l] eqn:E; [congruence |].
    cbn [length Nat.ltb Nat.leb andb]. rewrite <- E in *.
    assert (Hno : forall h,
               strings.TrimSpace (strings.TrimPrefix h "Bearer ") = "" ->
               exists resp, middleware.AuthMiddleware (common.ServiceTokens config) h
                            = middleware.Answered resp).
    { intros h Hh.
      destruct (middleware.AuthMiddleware (common.ServiceTokens config) h) eqn:A; [| eauto].
      apply AuthMiddleware_next in A as [A | [_ A]]; [congruence |].
      rewrite Hh in A. rewrite Forall_forall in Hall.
      destruct (Hall "" A) as (H & _). congruence. }
    split; apply Hno; reflexivity.
  - intros -> authHeader. reflexivity.
Qed.

Lemma getEnvOrDefault_not_empty (env : common.Env) (key defaultValue : string) :
  defaultValue <> "" -> common.getEnvOrDefault env key defaultValue <> "".
Proof.
  intros H. unfold common.getEnvOrDefault. cbv zeta.
  destruct (String.eqb_spec (common.Getenv env key) ""); assumption.
Qed.

Lemma MkdirAll_again (fs fs' : os.FS) (path : string) :
  os.MkdirAll fs path = (fs', None) -> os.MkdirAll fs' path = (fs', None).
Proof.
  unfold os.MkdirAll at 1. destruct (String.eqb path "") eqn:E; [discriminate |].
  destruct (os.mkdir_along (os.nodes fs) [] (os.resolve fs path)) as [m|] eqn:M;
    [| discriminate].
  intros [= <-]. unfold os.MkdirAll. rewrite E.
  change (os.resolve (os.mkFS m (os.cwd fs)) path) with (os.resolve fs path).
  cbn [os.nodes os.cwd].
  rewrite (mkdir_along_walked (os.cwd fs)); [reflexivity |].
  eapply mkdir_along_walk; [exact M | reflexivity].
Qed.

Lemma MkdirAll_lookup (fs fs' : os.FS) (path : string) :
  os.MkdirAll fs path = (fs', None) -> os.lookup fs' path = inr os.Dir.
Proof.
  unfold os.MkdirAll. destruct (String.eqb path "") eqn:E; [discriminate |].
  destruct (os.mkdir_along (os.nodes fs) [] (os.resolve fs path)) as [m|] eqn:M;
    [| discriminate].
  intros [= <-]. unfold os.lookup. rewrite E.
  change (os.resolve (os.mkFS m (os.cwd fs)) path) with (os.resolve fs path).
  eapply mkdir_along_walk; [exact M | reflexivity].
Qed.

Lemma MkdirAll_failed (fs fs' : os.FS) (path : string) (e : os.PathError) :
  os.MkdirAll fs path = (fs', Some e) -> fs' = fs.
Proof.
  unfold os.MkdirAll. destruct (String.eqb path ""); [congruence |].
  destruct (os.mkdir_along _ _ _); congruence.
Qed.

Lemma LoadConfig_storage (ParseDuration : string -> option time.Duration)
    (env : common.Env) (fs : os.FS) :
  let config := (common.LoadConfig ParseDuration env fs).1.2 in
  common.OutputDir config = common.getEnvOrDefault env "OUTPUT_DIR" "/tmp/gemini-mcp"
  /\ common.S3Enabled config
     = negb (String.eqb (common.Getenv env "S3_ENDPOINT") "")
       && negb (String.eqb (common.Getenv env "S3_ACCESS_KEY_ID") "")
       && negb (String.eqb (common.Getenv env "S3_SECRET_ACCESS_KEY") "")
       && (String.eqb (common.getEnvOrDefault env "TRANSPORT" "stdio") "http"
           || String.eqb (common.getEnvOrDefault env "TRANSPORT" "stdio") "sse").
Proof.
  unfold common.LoadConfig. cbv zeta.
  destruct (_ && _); [destruct (os.MkdirAll _ _) as [fs' [e|]] |]; split; reflexivity.
Qed.

(** X21: start-up without S3.  Unless the transport in the environment is
    [http] or [sse] and the S3 endpoint, key and secret are all set, the
    configuration has S3 off; [LoadConfig] then creates the output
    directory, which is never the empty name, and [NewStorage] on that
    configuration changes nothing more: it returns the local backend on
    that directory when [LoadConfig] printed no warning, and fails when it
    printed one. *)
Theorem startup_local_storage (ParseDuration : string -> option time.Duration)
    (parseAuthority : string -> result string) (validEndpoint : string -> bool)
    (env : common.Env) (w : World) :
  let '(fs1, config, printed) := common.LoadConfig ParseDuration env (fs w) in
  (common.S3Enabled config = true ->
   common.Getenv env "S3_ENDPOINT" <> ""
   /\ (common.Getenv env "TRANSPORT" = "http" \/ common.Getenv env "TRANSPORT" = "sse"))
  /\ common.OutputDir config <> ""
  /\ (common.S3Enabled config = false ->
      exists res,
        NewStorage parseAuthority validEndpoint (storage_config config) (with_fs w fs1)
        = (with_fs w fs1, res)
        /\ match printed with
           | [] => res = Ok (Local (mkLocalStorage (common.OutputDir config)))
                   /\ os.lookup fs1 (common.OutputDir config) = inr os.Dir
           | _ => fs1 = fs w /\ exists err, res = Err err
           end).
Proof.
  pose proof (LoadConfig_storage ParseDuration env (fs w)) as [Hout Hs3].
  cbv zeta in Hout, Hs3.
  destruct (common.LoadConfig ParseDuration env (fs w)) as [[fs1 config] printed] eqn:L.
  cbn [fst snd] in Hout, Hs3.
  assert (Hdir : common.OutputDir config <> "").
  { rewrite Hout. apply getEnvOrDefault_not_empty. discriminate. }
  split; [| split; [exact Hdir |]].
  - rewrite Hs3. intros H. rewrite !andb_true_iff, !negb_true_iff in H.
    destruct H as [[[H1 _] _] H4]. split; [apply String.eqb_neq, H1 |].
    unfold common.getEnvOrDefault in H4. cbv zeta in H4.
    destruct (String.eqb_spec (common.Getenv env "TRANSPORT") "") as [E | E];
      cbn [negb] in H4; [discriminate H4 |].
    apply orb_true_iff in H4 as [H4 | H4]; apply String.eqb_eq in H4; auto.
  - intros Hoff. unfold NewStorage. cbn [S3Enabled storage_config OutputDir].
    rewrite Hoff.
    unfold common.LoadConfig in L. cbv zeta in L.
    change (common.getEnvOrDefault env "OUTPUT_DIR" "/tmp/gemini-mcp")
      with (common.getEnvOrDefault env "OUTPUT_DIR" "/tmp/gemini-mcp") in L.
    rewrite <- Hout in L. rewrite <- Hs3, Hoff in L.
    apply String.eqb_neq in Hdir. rewrite Hdir in L. cbn [negb andb] in L.
    unfold NewLocalStorage. cbn [fs with_fs].
    destruct (os.MkdirAll (fs w) (common.OutputDir config)) as [fs2 [e|]] eqn:M.
    + injection L as <- _ <-.
      pose proof (MkdirAll_failed _ _ _ _ M) as ->. rewrite M.
      eexists. split; [reflexivity |]. split; [reflexivity | eauto].
    + injection L as <- _ <-.
      rewrite (MkdirAll_again _ _ _ M).
      eexists. split; [reflexivity |]. split; [reflexivity |].
      apply (MkdirAll_lookup _ _ _ M).
Qed.

(** ** The upload tool *)

(** ** The [upload_media] tool *)

(** A successful upload, step by step. *)
Lemma handleUploadMedia_ok {B : Type} `{Storage B}
    (http_Get : string -> result (Z * result bytes)) (zone_offset : time.Time -> Z)
    (srv : Server B) (w w' : World) (input : UploadMediaInput.t)
    (text : string) (out : UploadMediaOutput.t) :
  Server.handleUploadMedia http_Get zone_offset srv w input = (w', Ok (text, out)) ->
  exists data r,
    media_of http_Get input data
    /\ UploadMediaInput.MIMEType input <> ""
    /\ Store (storage srv) w data (UploadMediaInput.MIMEType input) (upload_prefix input)
       = (w', Ok r)
    /\ UploadMediaOutput.ObjectKey out = ObjectKey r
    /\ UploadMediaOutput.DownloadURL out
       = (if IsRemote (storage srv) then Location r else "")
    /\ UploadMediaOutput.ExpiresAt out
       = (if IsRemote (storage srv)
          then match ExpiresAt r with
               | Some t => time.Format_RFC3339 t
               | None => ""
               end
          else "")
    /\ UploadMediaOutput.MIMEType out = UploadMediaInput.MIMEType input
    /\ UploadMediaOutput.Size out = Size r
    /\ UploadMediaOutput.UploadedAt out
       = time.Format_stamp (clock w' + zone_offset (clock w') * time.Second)%Z.
Proof.
  unfold Server.handleUploadMedia.
  destruct (String.eqb_spec (UploadMediaInput.Data input) "") as [Hd | Hd]; cbn [andb negb].
  - destruct (String.eqb (UploadMediaInput.URL input) ""); [discriminate |].
    destruct (String.eqb_spec (UploadMediaInput.MIMEType input) "") as [|Hm]; [discriminate |].
    destruct (http_Get (UploadMediaInput.URL input)) as [[status [data|e]]|e] eqn:G;
      try (destruct (status =? 200)%Z; discriminate); try discriminate.
    destruct (Z.eqb_spec status 200) as [-> | _]; [| discriminate]. cbn [negb].
    fold (upload_prefix input).
    destruct (Store (storage srv) w data _ _) as [w1 [r|e]] eqn:S; [| discriminate].
    destruct (IsRemote (storage srv)); intros [= <- <- <-];
      exists data, r; (split; [right; auto |]); repeat split; auto.
  - destruct (String.eqb_spec (UploadMediaInput.MIMEType input) "") as [|Hm]; [discriminate |].
    destruct (base64.DecodeString (UploadMediaInput.Data input)) as [data|e] eqn:D;
      [| discriminate].
    fold (upload_prefix input).
    destruct (Store (storage srv) w data _ _) as [w1 [r|e]] eqn:S; [| discriminate].
    destruct (IsRemote (storage srv)); intros [= <- <- <-];
      exists data, r; (split; [left; auto |]); repeat split; auto.
Qed.

Lemma Local_Store (s : LocalStorage) (w w' : World) (data : bytes) (m p : string)
    (res : result StorageResult) :
  Store (Local s) w data m p = (w', res) ->
  exists fs', LocalStorage.Store s (fs w) data m p = (fs', res) /\ w' = with_fs w fs'.
Proof.
  cbn. destruct (LocalStorage.Store s (fs w) data m p) as [fs' r].
  intros [= <- <-]. eauto.
Qed.

Lemma ReadFile_File (fs : os.FS) (name : string) (data : bytes) :
  os.lookup fs name = inr (os.File data) -> os.ReadFile fs name = Ok data.
Proof. unfold os.ReadFile. intros ->. reflexivity. Qed.

(** X22: on the local backend, what [upload_media] stored is what the
    tools that take an object key read.  After a successful upload with a
    prefix that does not start with [/], [resolveInputPath] of the
    returned object key asks the storage only, and returns a path that
    [os.ReadFile] reads as exactly the uploaded media; the output carries
    no download URL and no expiry, the MIME type of the input and the
    number of bytes of the media. *)
Theorem upload_then_read_local
    (http_Get : string -> result (Z * result bytes)) (zone_offset : time.Time -> Z)
    (s : LocalStorage) (w w' : World) (input : UploadMediaInput.t)
    (text : string) (out : UploadMediaOutput.t) :
  Server.handleUploadMedia http_Get zone_offset (mkServer _ (Local s)) w input
  = (w', Ok (text, out)) ->
  HasPrefix (UploadMediaInput.Prefix input) "/" = false ->
  exists data path,
    media_of http_Get input data
    /\ Server.resolveInputPath (mkServer _ (Local s)) w' (UploadMediaOutput.ObjectKey out)
       = (w', [call_Retrieve (UploadMediaOutput.ObjectKey out)],
          Ok (path, Some cleanup_nothing))
    /\ os.ReadFile (fs w') path = Ok data
    /\ UploadMediaOutput.DownloadURL out = ""
    /\ UploadMediaOutput.ExpiresAt out = ""
    /\ UploadMediaOutput.MIMEType out = UploadMediaInput.MIMEType input
    /\ UploadMediaOutput.Size out = Z.of_nat (length data).
Proof.
  intros Hup Hprefix.
  apply handleUploadMedia_ok in Hup
    as (data & r & Hmedia & _ & Hstore & Hkey & Hurl & Hexp & Hmime & Hsize & _).
  cbn [storage] in Hstore, Hurl, Hexp.
  apply Local_Store in Hstore as (fs' & Hstore & ->).
  apply LocalStorage_Store_ok in Hstore. cbv zeta in Hstore. destruct Hstore as [-> Hw].
  cbn [ObjectKey Location Size] in *.
  pose proof (WriteFile_lookup _ _ _ _ Hw) as Hl.
  set (key := upload_prefix input ++ "_"
              ++ slice_to (hex.EncodeToString (sha256.Sum256 data)) 16
              ++ ExtensionFromMIME (UploadMediaInput.MIMEType input)) in *.
  exists data, (filepath.Join (baseDir s) key).
  split; [exact Hmedia |]. rewrite Hkey.
  assert (Hrel : HasPrefix key "/" = false).
  { unfold key. rewrite HasPrefix_app.
    - unfold upload_prefix.
      destruct (String.eqb (UploadMediaInput.Prefix input) ""); [reflexivity | exact Hprefix].
    - unfold upload_prefix.
      destruct (String.eqb_spec (UploadMediaInput.Prefix input) ""); [discriminate | assumption]. }
  split; [| split; [| repeat split; assumption]].
  - unfold Server.resolveInputPath. rewrite Hrel. cbn.
    unfold LocalStorage.Retrieve, os.Stat. cbv zeta. rewrite Hl. reflexivity.
  - apply ReadFile_File. exact Hl.
Qed.

Lemma upload_then_read_local_witness :
  let http_Get := fun _ : string => @Err (Z * result bytes) "no network" in
  let input := UploadMediaInput.mk "aGVsbG8gd29ybGQh" "" "image/png" "" in
  let w' := (Server.handleUploadMedia http_Get (fun _ => 3600%Z)
               (mkServer _ (Local fixtures.local)) fixtures.world input).1 in
  let out := UploadMediaOutput.mk "upload_7509e5bda0c762d2.png" "" "" "image/png" 12
               "Media uploaded successfully" "20241223_140203" in
  exists data path,
    media_of http_Get input data
    /\ Server.resolveInputPath (mkServer _ (Local fixtures.local)) w'
         (UploadMediaOutput.ObjectKey out)
       = (w', [call_Retrieve (UploadMediaOutput.ObjectKey out)],
          Ok (path, Some cleanup_nothing))
    /\ os.ReadFile (fs w') path = Ok data
    /\ UploadMediaOutput.DownloadURL out = ""
    /\ UploadMediaOutput.ExpiresAt out = ""
    /\ UploadMediaOutput.MIMEType out = UploadMediaInput.MIMEType input
    /\ UploadMediaOutput.Size out = Z.of_nat (length data).
Proof.
  refine (upload_then_read_local (fun _ => Err "no network") (fun _ => 3600%Z)
            fixtures.local fixtures.world _
            (UploadMediaInput.mk "aGVsbG8gd29ybGQh" "" "image/png" "")
            ("Media uploaded successfully." ++ Server.newline
             ++ "Stored at: /srv/out/upload_7509e5bda0c762d2.png"
             ++ Server.newline ++ Server.newline
             ++ "Use object_key 'upload_7509e5bda0c762d2.png' with gemini_image_edit, gemini_multi_image, or veo_image_to_video tools.")
            (UploadMediaOutput.mk "upload_7509e5bda0c762d2.png" "" "" "image/png" 12
               "Media uploaded successfully" "20241223_140203") _ _).
  - vm_compute; reflexivity.
  - reflexivity.
Defined.

Lemma WriteFile_failed (fs fs' : os.FS) (name : string) (data : bytes)
    (e : os.PathError) :
  os.WriteFile fs name data = (fs', Some e) -> fs' = fs.
Proof.
  unfold os.WriteFile. destruct (String.eqb name ""); [congruence |].
  cbv zeta. destruct (os.walk fs [] _) as [e1|[d|]]; try congruence.
  destruct (os.node_at fs _) as [[d|]|]; congruence.
Qed.

Lemma Remote_Store_failed (s : S3Storage) (w w' : World) (data : bytes) (m p : string)
    (e : string) :
  S3Storage.Store s w data m p = (w', Err e) ->
  w' = w
  \/ exists err,
       minio.isValidExpiry (presignTTL s) = Some err
       /\ e = "failed to generate presigned URL: " ++ err.
Proof.
  unfold S3Storage.Store. cbv zeta.
  destruct (minio.PutObject _ _ _ _ _ _) as [svc [e1|]] eqn:P.
  - intros [= <- _]. left.
    unfold minio.PutObject in P.
    destruct (minio.refuses _ _); [injection P as <- _; apply with_s3_same |].
    destruct (minio.buckets _ !! _); [discriminate |].
    injection P as <- _. apply with_s3_same.
  - unfold minio.PresignedGetObject.
    destruct (minio.isValidExpiry (presignTTL s)) as [err|]; [| discriminate].
    intros [= _ <-]. right. eauto.
Qed.

(** X23: a failed upload changes nothing, with one exception.  When
    [handleUploadMedia] returns an error, the world is as before (nothing
    was stored), unless the backend is remote and the error is that of
    signing the URL with a presign TTL that the signer rejects, which
    comes after the object was uploaded. *)
Theorem upload_failure
    (http_Get : string -> result (Z * result bytes)) (zone_offset : time.Time -> Z)
    (b : Backend) (w w' : World) (input : UploadMediaInput.t) (e : string) :
  Server.handleUploadMedia http_Get zone_offset (mkServer _ b) w input = (w', Err e) ->
  w' = w
  \/ exists s err,
       b = Remote s
       /\ minio.isValidExpiry (presignTTL s) = Some err
       /\ e = "failed to store media: failed to generate presigned URL: " ++ err.
Proof.
  unfold Server.handleUploadMedia.
  destruct (_ && _); [intros [= <- _]; auto |].
  destruct (String.eqb (UploadMediaInput.MIMEType input) ""); [intros [= <- _]; auto |].
  match goal with
  | |- context [match ?f with Ok _ => _ | Err _ => _ end = _] =>
      destruct f as [data|e1]
  end; [| intros [= <- _]; auto].
  cbn [storage].
  destruct (Store b w data _ _) as [w1 [r|e1]] eqn:S.
  { destruct (IsRemote b); discriminate. }
  intros [= <- <-]. destruct b as [s|s].
  - apply Local_Store in S as (fs' & S & ->). left.
    unfold LocalStorage.Store in S. cbv zeta in S.
    destruct (os.WriteFile _ _ _) as [fs1 [err|]] eqn:Wr; [| discriminate].
    injection S as <- _.
    apply WriteFile_failed in Wr as ->. apply with_fs_same.
  - cbn in S. apply Remote_Store_failed in S as [-> | (err & Herr & ->)]; [auto |].
    right. exists s, err. auto.
Qed.

Lemma upload_failure_witness :
  let s := mkS3Storage (client fixtures.remote) "media" (8 * fixtures.day)%Z
             (24 * time.Hour)%Z time.Hour 0 in
  let w' := (Server.handleUploadMedia (fun _ => Err "no network") (fun _ => 0%Z)
               (mkServer _ (Remote s)) fixtures.world
               (UploadMediaInput.mk "aGVsbG8gd29ybGQh" "" "image/png" "")).1 in
  w' = fixtures.world
  \/ exists s0 err,
       Remote s = Remote s0
       /\ minio.isValidExpiry (presignTTL s0) = Some err
       /\ "failed to store media: failed to generate presigned URL: Expires cannot be greater than 7 days."
          = "failed to store media: failed to generate presigned URL: " ++ err.
Proof.
  refine (upload_failure (fun _ => Err "no network") (fun _ => 0%Z)
            (Remote (mkS3Storage (client fixtures.remote) "media" (8 * fixtures.day)%Z
                       (24 * time.Hour)%Z time.Hour 0))
            fixtures.world _
            (UploadMediaInput.mk "aGVsbG8gd29ybGQh" "" "image/png" "") _ _).
  vm_compute; reflexivity.
Defined.

(** X24: on the remote backend, a successful upload leaves the media in the
    bucket under the returned object key, [date/prefix_hash16.ext] with
    the prefix [upload] when none is given, and the output carries the
    signed URL, its expiry in RFC 3339 (the time of the upload plus the
    presign TTL) and the number of bytes of the media. *)
Theorem upload_remote
    (http_Get : string -> result (Z * result bytes)) (zone_offset : time.Time -> Z)
    (s : S3Storage) (w w' : World) (input : UploadMediaInput.t)
    (text : string) (out : UploadMediaOutput.t) :
  Server.handleUploadMedia http_Get zone_offset (mkServer _ (Remote s)) w input
  = (w', Ok (text, out)) ->
  exists data,
    media_of http_Get input data
    /\ UploadMediaOutput.ObjectKey out
       = time.Format_date (clock w) ++ "/" ++ upload_prefix input ++ "_"
         ++ slice_to (hex.EncodeToString (sha256.Sum256 data)) 16
         ++ ExtensionFromMIME (UploadMediaInput.MIMEType input)
    /\ object_at w' (bucket s) (UploadMediaOutput.ObjectKey out)
       = Some (stored_object s (clock w) data (UploadMediaInput.MIMEType input))
    /\ UploadMediaOutput.DownloadURL out
       = minio.sign (s3 w) (bucket s) (UploadMediaOutput.ObjectKey out) (presignTTL s)
    /\ UploadMediaOutput.ExpiresAt out
       = time.Format_RFC3339 (time.Add (clock w) (presignTTL s))
    /\ UploadMediaOutput.Size out = Z.of_nat (length data).
Proof.
  intros Hup.
  apply handleUploadMedia_ok in Hup
    as (data & r & Hmedia & _ & Hstore & Hkey & Hurl & Hexp & _ & Hsize & _).
  cbn [storage] in Hstore, Hurl, Hexp. cbn in Hstore, Hurl, Hexp.
  pose proof (S3Storage_Store_inv _ _ _ _ _ _ _ Hstore) as (objs & Hb & Hw).
  apply S3Storage_Store_ok in Hstore. cbv zeta in Hstore.
  destruct Hstore as (url & -> & Hsign & _). cbn [ObjectKey Location ExpiresAt Size] in *.
  exists data. split; [exact Hmedia |]. rewrite Hkey, Hurl, Hexp, Hsize.
  split; [reflexivity |]. split; [| split; [| split; reflexivity]].
  - rewrite Hw. unfold object_at. cbn. rewrite lookup_insert_eq. cbn.
    apply lookup_insert_eq.
  - unfold minio.PresignedGetObject in Hsign.
    destruct (minio.isValidExpiry (presignTTL s)); [discriminate |].
    injection Hsign as <-. rewrite Hw. reflexivity.
Qed.

Lemma upload_remote_witness :
  let http_Get := fun _ : string => @Err (Z * result bytes) "no network" in
  let input := UploadMediaInput.mk "aGVsbG8gd29ybGQh" "" "video/mp4" "clip" in
  let w' := (Server.handleUploadMedia http_Get (fun _ => 0%Z)
               (mkServer _ (Remote fixtures.remote)) fixtures.world input).1 in
  let out := UploadMediaOutput.mk "2024/12/23/clip_7509e5bda0c762d2.mp4"
               "http://minio:9000/media/2024/12/23/clip_7509e5bda0c762d2.mp4?X-Amz-Signature=0"
               "2024-12-24T13:02:03Z" "video/mp4" 12
               "Media uploaded successfully" "20241223_130203" in
  exists data,
    media_of http_Get input data
    /\ UploadMediaOutput.ObjectKey out
       = time.Format_date (clock fixtures.world) ++ "/" ++ upload_prefix input ++ "_"
         ++ slice_to (hex.EncodeToString (sha256.Sum256 data)) 16
         ++ ExtensionFromMIME (UploadMediaInput.MIMEType input)
    /\ object_at w' (bucket fixtures.remote) (UploadMediaOutput.ObjectKey out)
       = Some (stored_object fixtures.remote (clock fixtures.world) data
                 (UploadMediaInput.MIMEType input))
    /\ UploadMediaOutput.DownloadURL out
       = minio.sign (s3 fixtures.world) (bucket fixtures.remote)
           (UploadMediaOutput.ObjectKey out) (presignTTL fixtures.remote)
    /\ UploadMediaOutput.ExpiresAt out
       = time.Format_RFC3339 (time.Add (clock fixtures.world) (presignTTL fixtures.remote))
    /\ UploadMediaOutput.Size out = Z.of_nat (length data).
Proof.
  refine (upload_remote (fun _ => Err "no network") (fun _ => 0%Z)
            fixtures.remote fixtures.world _
            (UploadMediaInput.mk "aGVsbG8gd29ybGQh" "" "video/mp4" "clip")
            ("Media uploaded successfully." ++ Server.newline
             ++ "Object Key: 2024/12/23/clip_7509e5bda0c762d2.mp4" ++ Server.newline
             ++ "Download URL: http://minio:9000/media/2024/12/23/clip_7509e5bda0c762d2.mp4?X-Amz-Signature=0"
             ++ Server.newline ++ "URL expires at: 2024-12-24T13:02:03Z"
             ++ Server.newline ++ Server.newline
             ++ "Use object_key '2024/12/23/clip_7509e5bda0c762d2.mp4' with gemini_image_edit, gemini_multi_image, or veo_image_to_video tools.")
            (UploadMediaOutput.mk "2024/12/23/clip_7509e5bda0c762d2.mp4"
               "http://minio:9000/media/2024/12/23/clip_7509e5bda0c762d2.mp4?X-Amz-Signature=0"
               "2024-12-24T13:02:03Z" "video/mp4" 12
               "Media uploaded successfully" "20241223_130203") _).
  vm_compute; reflexivity.
Defined.

(** ** The input-path resolver on the local backend *)

(** X25: on the local backend [resolveInputPath] changes nothing, and what
    it returns exists: the path is the input path itself, or the input
    path joined to the base directory when the input is not absolute;
    [os.Stat] succeeds on it; and the cleanup, when there is one, does
    nothing. *)
Theorem resolve_input_path_local (s : LocalStorage) (w w' : World)
    (inputPath path : string) (calls : list call) (cleanup : option cleanup_func) :
  Server.resolveInputPath (mkServer _ (Local s)) w inputPath
  = (w', calls, Ok (path, cleanup)) ->
  w' = w
  /\ os.Stat (fs w) path = None
  /\ (path = inputPath /\ cleanup = None
      \/ HasPrefix inputPath "/" = false
         /\ path = filepath.Join (baseDir s) inputPath
         /\ cleanup = Some cleanup_nothing)
  /\ forall c, cleanup = Some c -> run_cleanup c (fs w) = fs w.
Proof.
  unfold Server.resolveInputPath.
  destruct (HasPrefix inputPath "/") eqn:Habs.
  { destruct (os.Stat (fs w) inputPath) eqn:St; [discriminate |].
    intros [= <- _ <- <-]. repeat split; auto. discriminate. }
  cbn. unfold LocalStorage.Retrieve. cbv zeta.
  destruct (os.Stat (fs w) (filepath.Join (baseDir s) inputPath)) as [e|] eqn:St.
  - destruct (os.IsNotExist (Some e));
      (destruct (os.Stat (fs w) inputPath) eqn:St2; [discriminate |];
       intros [= <- _ <- <-]; repeat split; auto; discriminate).
  - cbn. intros [= <- _ <- <-]. split; [reflexivity |]. split; [exact St |].
    split; [right; auto |]. intros c [= <-]. reflexivity.
Qed.

Lemma resolve_input_path_local_witness :
  fixtures.world = fixtures.world
  /\ os.Stat (fs fixtures.world) "/srv/out/a.png" = None
  /\ ("/srv/out/a.png" = "a.png" /\ Some cleanup_nothing = None
      \/ HasPrefix "a.png" "/" = false
         /\ "/srv/out/a.png" = filepath.Join (baseDir fixtures.local) "a.png"
         /\ Some cleanup_nothing = Some cleanup_nothing)
  /\ forall c, Some cleanup_nothing = Some c ->
       run_cleanup c (fs fixtures.world) = fs fixtures.world.
Proof.
  refine (resolve_input_path_local fixtures.local fixtures.world fixtures.world
            "a.png" "/srv/out/a.png" [call_Retrieve "a.png"] (Some cleanup_nothing) _).
  vm_compute; reflexivity.
Defined.

(** ** The backend of the configuration *)

(** X26: the backend [NewStorage] returns is remote exactly when S3 is
    enabled in the configuration.  The remote one talks to the host that
    [parseEndpoint] read from the endpoint, with TLS as [parseEndpoint]
    decided and the credentials and region given, on the configured
    bucket with the three configured durations; the local one keeps files
    in the output directory, which exists. *)
Theorem NewStorage_backend (parseAuthority : string -> result string)
    (validEndpoint : string -> bool) (config : Config) (w w' : World) (b : Backend) :
  NewStorage parseAuthority validEndpoint config w = (w', Ok b) ->
  IsRemote b = S3Enabled config
  /\ match b with
     | Local s =>
         baseDir s = OutputDir config
         /\ os.lookup (fs w') (OutputDir config) = inr os.Dir
         /\ s3 w' = s3 w /\ chans w' = chans w /\ routines w' = routines w
     | Remote s =>
         let '(host, useSSL) :=
           parseEndpoint parseAuthority (S3Endpoint config) (S3UseSSL config) in
         client s
         = minio.mkClient host
             (minio.mkOptions (S3AccessKeyID config) (S3SecretAccessKey config)
                useSSL (S3Region config))
         /\ bucket s = S3Bucket config
         /\ presignTTL s = S3PresignTTL config
         /\ objectTTL s = S3ObjectTTL config
         /\ cleanupInterval s = S3CleanupInterval config
         /\ is_Some (minio.buckets (s3 w') !! bucket s)
         /\ fs w' = fs w
     end.
Proof.
  unfold NewStorage. destruct (S3Enabled config).
  - destruct (NewS3Storage _ _ _ w) as [w1 [s|e]] eqn:N; [| discriminate].
    intros [= <- <-]. split; [reflexivity |].
    unfold NewS3Storage in N. cbn [Endpoint UseSSL AccessKeyID SecretAccessKey Region
                                     Bucket PresignTTL ObjectTTL CleanupInterval] in N.
    destruct (parseEndpoint parseAuthority (S3Endpoint config) (S3UseSSL config))
      as [host useSSL].
    unfold minio_New in N. destruct (validEndpoint host); [| discriminate].
    unfold minio.BucketExists in N.
    destruct (minio.refuses (s3 w) _); [discriminate |].
    destruct (minio.buckets (s3 w) !! S3Bucket config) as [objs|] eqn:Hb.
    + rewrite bool_decide_true in N by eauto. injection N as <- <-. cbn.
      rewrite Hb. repeat split; eauto.
    + rewrite bool_decide_false in N by (intros [? ?]; discriminate).
      unfold minio.MakeBucket in N.
      destruct (minio.refuses (s3 w) _); [discriminate |]. rewrite Hb in N.
      injection N as <- <-. cbn. rewrite lookup_insert_eq. repeat split; eauto.
  - destruct (NewLocalStorage (OutputDir config) (fs w)) as [fs' [s|e]] eqn:N;
      [| discriminate].
    intros [= <- <-]. split; [reflexivity |].
    unfold NewLocalStorage in N.
    destruct (os.MkdirAll (fs w) (OutputDir config)) as [fs1 [e|]] eqn:M; [discriminate |].
    injection N as <- <-. cbn. repeat split; auto.
    apply (MkdirAll_lookup _ _ _ M).
Qed.

Lemma NewStorage_backend_witness :
  let config := mkConfig "/srv/out" "https://s3.example.com" "media" "us-east-1"
                  "key" "secret" false (24 * time.Hour)%Z (24 * time.Hour)%Z time.Hour true in
  let s := mkS3Storage
             (minio.mkClient "s3.example.com"
                (minio.mkOptions "key" "secret" true "us-east-1"))
             "media" (24 * time.Hour)%Z (24 * time.Hour)%Z time.Hour 1 in
  let w' := (NewStorage url.hostport_authority (fun _ => true) config fixtures.world).1 in
  IsRemote (Remote s) = S3Enabled config
  /\ (let '(host, useSSL) :=
        parseEndpoint url.hostport_authority (S3Endpoint config) (S3UseSSL config) in
      client s
      = minio.mkClient host
          (minio.mkOptions (S3AccessKeyID config) (S3SecretAccessKey config)
             useSSL (S3Region config))
      /\ bucket s = S3Bucket config
      /\ presignTTL s = S3PresignTTL config
      /\ objectTTL s = S3ObjectTTL config
      /\ cleanupInterval s = S3CleanupInterval config
      /\ is_Some (minio.buckets (s3 w') !! bucket s)
      /\ fs w' = fs fixtures.world).
Proof.
  refine (NewStorage_backend url.hostport_authority (fun _ => true)
            (mkConfig "/srv/out" "https://s3.example.com" "media" "us-east-1"
               "key" "secret" false (24 * time.Hour)%Z (24 * time.Hour)%Z time.Hour true)
            fixtures.world _
            (Remote (mkS3Storage
                       (minio.mkClient "s3.example.com"
                          (minio.mkOptions "key" "secret" true "us-east-1"))
                       "media" (24 * time.Hour)%Z (24 * time.Hour)%Z time.Hour 1)) _).
  vm_compute; reflexivity.
Defined.

(** X27: TLS towards S3 is on by default and is turned off only by a value
    of [S3_USE_SSL] that [strconv.ParseBool] reads as false ([0], [f],
    [F], [false], [FALSE] or [False]): with the variable unset, empty, or
    set to anything else, the loaded configuration has [S3UseSSL] on. *)
Theorem LoadConfig_use_ssl (ParseDuration : string -> option time.Duration)
    (env : common.Env) (fs : os.FS) :
  common.S3UseSSL (common.LoadConfig ParseDuration env fs).1.2 = false
  <-> common.Getenv env "S3_USE_SSL" ∈ ["0"; "f"; "F"; "FALSE"; "false"; "False"].
Proof.
  assert (Hssl : common.S3UseSSL (common.LoadConfig ParseDuration env fs).1.2
                 = common.getEnvOrDefaultBool env "S3_USE_SSL" true).
  { unfold common.LoadConfig. cbv zeta.
    destruct (_ && _); [destruct (os.MkdirAll _ _) as [fs' [e|]] |]; reflexivity. }
  rewrite Hssl. unfold common.getEnvOrDefaultBool, strconv.ParseBool. cbv zeta.
  set (v := common.Getenv env "S3_USE_SSL").
  assert (Hex : forall l, existsb (String.eqb v) l = true <-> v ∈ l).
  { intros l. rewrite existsb_exists. split.
    - intros (x & Hx & ->%String.eqb_eq). apply list_elem_of_In, Hx.
    - intros H. exists v. split; [apply list_elem_of_In, H | apply String.eqb_refl]. }
  destruct (String.eqb_spec v "") as [E | E]; cbn [negb].
  { split; [discriminate |]. rewrite E. intros H.
    repeat (apply elem_of_cons in H as [H | H]; [discriminate H |]).
    apply elem_of_nil in H. contradiction. }
  destruct (existsb (String.eqb v) ["1"; "t"; "T"; "TRUE"; "true"; "True"]) eqn:Ht.
  { split; [discriminate |]. intros H. apply Hex in Ht.
    repeat (apply elem_of_cons in Ht as [Ht | Ht];
            [rewrite Ht in H;
             repeat (apply elem_of_cons in H as [H | H]; [discriminate H |]);
             apply elem_of_nil in H; contradiction |]).
    apply elem_of_nil in Ht. contradiction. }
  destruct (existsb (String.eqb v) ["0"; "f"; "F"; "FALSE"; "false"; "False"]) eqn:Hf.
  - apply Hex in Hf. tauto.
  - split; [discriminate |]. intros H. apply Hex in H. congruence.
Qed.

(** ** A prefix that leaves the base directory *)

(** A walk that ends well passed through its last directory. *)
Lemma walk_parent (fs : os.FS) (e : string) (n : os.node) (rest pre : list string) :
  os.walk fs pre (rest ++ [e])%list = inr n -> os.walk fs pre rest = inr os.Dir.
Proof.
  revert pre. induction rest as [|x rest IH]; intros pre H.
  - cbn [app os.walk] in H |- *. destruct (os.node_at fs pre) as [[d|]|]; try discriminate.
    reflexivity.
  - cbn [app os.walk] in H |- *. destruct (os.node_at fs pre) as [[d|]|]; try discriminate.
    apply IH, H.
Qed.

Lemma Join_resolve_dotdot (fs : os.FS) (base f : string) (parent : list string) (d : string) :
  HasPrefix (os.cwd fs) "/" = true ->
  base <> "" ->
  os.resolve fs base = (parent ++ [d])%list ->
  plain_name f = true ->
  os.resolve fs (filepath.Join base ("../" ++ f)) = (parent ++ [f])%list.
Proof.
  intros Hcwd Hbase Hres Hf. rewrite Join_resolve by assumption.
  change ("../" ++ f) with (".." ++ String "/" f). rewrite Split_app.
  change (strings.Split ".." "/") with [".."]. rewrite (plain_name_Split _ Hf).
  rewrite Hres, rev_app_distr. cbn [rev app fold_left].
  assert (Hd : String.eqb d ".." = false).
  { pose proof (clean_elems_plain (absolute fs base)) as Hp.
    rewrite <- resolve_elems, Hres in Hp by exact Hcwd.
    apply Forall_app in Hp as [_ Hp]. apply Forall_inv in Hp.
    apply plain_name_cases in Hp as (_ & _ & Hp & _). exact Hp. }
  unfold filepath.clean_elem at 2. cbn [String.eqb Ascii.eqb Bool.eqb].
  change (".." =? "")%string with false. change (".." =? ".")%string with false.
  change (".." =? "..")%string with true. cbv iota. rewrite Hd.
  apply plain_name_cases in Hf as (E1 & E2 & E3 & _).
  unfold filepath.clean_elem. rewrite E1, E2, E3. cbn [rev].
  rewrite rev_involutive. reflexivity.
Qed.

(** X28: a prefix that starts with [../] takes [Store] out of the base
    directory: the file is written next to the base directory, in its parent,
    and the result reports success. *)
Theorem local_Store_prefix_escapes (s : LocalStorage) (fs : os.FS)
    (d : bytes) (m p : string) (parent : list string) (dname : string) :
  HasPrefix (os.cwd fs) "/" = true ->
  os.lookup fs (baseDir s) = inr os.Dir ->
  os.resolve fs (baseDir s) = (parent ++ [dname])%list ->
  no_slash p = true ->
  let contentHash := hex.EncodeToString (sha256.Sum256 d) in
  let name := p ++ "_" ++ slice_to contentHash 16 ++ ExtensionFromMIME m in
  let filename := "../" ++ name in
  let outputPath := filepath.Join (baseDir s) filename in
  os.lookup fs outputPath <> inr os.Dir ->
  exists fs',
    LocalStorage.Store s fs d m ("../" ++ p)
    = (fs', Ok (mkStorageResult outputPath filename contentHash None m
                  (Z.of_nat (length d))))
    /\ os.resolve fs outputPath = (parent ++ [name])%list
    /\ ~ os.resolve fs (baseDir s) `prefix_of` os.resolve fs outputPath
    /\ os.lookup fs' outputPath = inr (os.File d).
Proof.
  intros Hcwd Hbase Hparent Hp contentHash name filename outputPath Hnodir.
  pose proof (lookup_not_empty _ _ _ Hbase) as Hne.
  pose proof (filename_plain p m d Hp) as Hf. fold contentHash name in Hf.
  pose proof (Join_resolve_dotdot fs (baseDir s) name parent dname Hcwd Hne Hparent Hf)
    as Hres.
  fold filename outputPath in Hres.
  pose proof (lookup_walk _ _ _ Hbase) as Hwalk. rewrite Hparent in Hwalk.
  pose proof (walk_parent _ _ _ _ _ Hwalk) as Hup.
  assert (Hout : outputPath <> "") by (apply Join_not_empty, Hne).
  pose proof Hout as Hout'. apply String.eqb_neq in Hout'.
  assert (Hnode : os.node_at fs (os.resolve fs outputPath) <> Some os.Dir).
  { intros E. apply Hnodir. unfold os.lookup. rewrite Hout', Hres.
    rewrite (walk_last fs name _ [] Hup). cbn [app]. rewrite <- Hres, E.
    reflexivity. }
  assert (Hw : os.WriteFile fs outputPath d
               = (os.mkFS (<[os.resolve fs outputPath := os.File d]> (os.nodes fs))
                    (os.cwd fs), None)).
  { unfold os.WriteFile. rewrite Hout'. cbv zeta. rewrite Hres at 1.
    rewrite removelast_last, Hup.
    destruct (os.node_at fs (os.resolve fs outputPath)) as [[?|]|]; try reflexivity.
    congruence. }
  eexists. split; [| split; [exact Hres | split]].
  - unfold LocalStorage.Store. cbv zeta.
    change (("../" ++ p) ++ "_" ++ slice_to (hex.EncodeToString (sha256.Sum256 d)) 16
            ++ ExtensionFromMIME m) with filename.
    fold outputPath. rewrite Hw. reflexivity.
  - rewrite Hparent, Hres. intros [k Hk].
    rewrite <- app_assoc in Hk. apply app_inv_head in Hk.
    injection Hk as Hk _. apply Hnodir. unfold os.lookup.
    rewrite Hout', Hres, Hk. exact Hwalk.
  - apply (WriteFile_lookup _ _ _ _ Hw).
Qed.

Lemma local_Store_prefix_escapes_witness :
  exists fs',
    LocalStorage.Store fixtures.local fixtures.disk fixtures.hello "image/png" "../x"
    = (fs', Ok (mkStorageResult
                  (filepath.Join (baseDir fixtures.local)
                     ("../" ++ "x" ++ "_"
                      ++ slice_to (hex.EncodeToString (sha256.Sum256 fixtures.hello)) 16
                      ++ ExtensionFromMIME "image/png"))
                  ("../" ++ "x" ++ "_"
                   ++ slice_to (hex.EncodeToString (sha256.Sum256 fixtures.hello)) 16
                   ++ ExtensionFromMIME "image/png")
                  (hex.EncodeToString (sha256.Sum256 fixtures.hello)) None "image/png"
                  (Z.of_nat (length fixtures.hello))))
    /\ os.resolve fixtures.disk
         (filepath.Join (baseDir fixtures.local)
            ("../" ++ "x" ++ "_"
             ++ slice_to (hex.EncodeToString (sha256.Sum256 fixtures.hello)) 16
             ++ ExtensionFromMIME "image/png"))
       = (["srv"] ++ [("x" ++ "_"
             ++ slice_to (hex.EncodeToString (sha256.Sum256 fixtures.hello)) 16
             ++ ExtensionFromMIME "image/png")%string])%list
    /\ ~ os.resolve fixtures.disk (baseDir fixtures.local)
         `prefix_of` os.resolve fixtures.disk
           (filepath.Join (baseDir fixtures.local)
              ("../" ++ "x" ++ "_"
               ++ slice_to (hex.EncodeToString (sha256.Sum256 fixtures.hello)) 16
               ++ ExtensionFromMIME "image/png"))
    /\ os.lookup fs'
         (filepath.Join (baseDir fixtures.local)
            ("../" ++ "x" ++ "_"
             ++ slice_to (hex.EncodeToString (sha256.Sum256 fixtures.hello)) 16
             ++ ExtensionFromMIME "image/png"))
       = inr (os.File fixtures.hello).
Proof.
  refine (local_Store_prefix_escapes fixtures.local fixtures.disk fixtures.hello
            "image/png" "x" ["srv"] "out" _ _ _ _ _).
  - reflexivity.
  - vm_compute; reflexivity.
  - vm_compute; reflexivity.
  - reflexivity.
  - vm_compute. discriminate.
Defined.
